(** * The transaction test harness: [TransactionTest.Run] and [ttTransaction.verify]

    A shallow embedding of the harness of package [tests] that checks RLP
    decoding and sender derivation of transactions against JSON fixtures,
    and the properties of its decision table.

    The harness calls into packages whose code is not part of the sources at
    hand ([rlp], [core/types], [params], [common], [common/hexutil]).  What
    it calls there is gathered in the class [Collaborators]; every theorem
    holds for every instance of that class. *)

From Stdlib Require Import ZArith NArith List String Ascii Bool Lia.
From Stdlib.Strings Require Import Byte.
From Stdlib Require DecimalString HexadecimalString.
Import ListNotations.

Local Open Scope string_scope.

(** ** Byte slices, addresses, integers *)

(** A Go [[]byte] whose nil-ness is never looked at. *)
Definition bytes : Type := list byte.

(** [bytes.Equal]: same length and same bytes; a nil slice equals an empty one. *)
Fixpoint bytes_Equal (a b : bytes) : bool :=
  match a, b with
  | [], [] => true
  | x :: a', y :: b' => Byte.eqb x y && bytes_Equal a' b'
  | _, _ => false
  end.

(** A Go slice that is tested against [nil]: [None] is the nil slice,
    [Some l] a non-nil slice ([hexutil.Bytes] in [ttJSON]). *)
Definition slice : Type := option bytes.

Definition slice_bytes (b : slice) : bytes :=
  match b with
  | None => []
  | Some l => l
  end.

Module common.

Definition AddressLength : nat := 20.

(** [common.Address] is the array type [[20]byte]; the model keeps the
    bytes in a list, which [BytesToAddress] always makes 20 long.  The
    comparisons [==] and [!=] of Go arrays are element-wise. *)
Definition Address : Type := list byte.

(** [common.Address{}], the zero value of the array type. *)
Definition zero : Address := repeat x00 AddressLength.

Definition Address_eqb (a b : Address) : bool := bytes_Equal a b.

(** Modelled from the spec: [common.BytesToAddress] is not among the
    sources.  An address is "exactly 20 bytes" (section 3), so the
    slice is copied right-aligned into a zeroed array of 20 bytes, and a
    slice longer than that is cropped from the left. *)
Definition BytesToAddress (b : bytes) : Address :=
  let b' :=
    if (AddressLength <? List.length b)%nat
    then skipn (List.length b - AddressLength) b
    else b in
  (repeat x00 (AddressLength - List.length b') ++ b')%list.

End common.

Import common.

(** [uint64] values are kept in [N]; the harness does no arithmetic on them. *)
Definition uint64 : Type := N.

Bind Scope N_scope with uint64.

(** [*big.Int] values are kept in [Z].  The fields that hold one are
    required fields of the fixture and are non-nil in a decoded transaction. *)
Module big.

Definition Int : Type := Z.

(** [x.Cmp(y)]: -1, 0 or +1. *)
Definition Cmp (x y : Int) : Z :=
  match (x ?= y)%Z with
  | Lt => (-1)%Z
  | Eq => 0%Z
  | Gt => 1%Z
  end.

(** [new(big.Int).SetUint64(n)]. *)
Definition SetUint64 (n : uint64) : Int := Z.of_N n.

End big.

Bind Scope Z_scope with big.Int.

(** ** Formatting verbs of package [fmt], at the types the harness prints *)

Module fmt.

Definition hexdigit (n : N) : ascii :=
  match n with
  | 0%N => "0" | 1%N => "1" | 2%N => "2" | 3%N => "3"
  | 4%N => "4" | 5%N => "5" | 6%N => "6" | 7%N => "7"
  | 8%N => "8" | 9%N => "9" | 10%N => "a" | 11%N => "b"
  | 12%N => "c" | 13%N => "d" | 14%N => "e" | _ => "f"
  end%char.

(** [%x] on a [[]byte]: two lower-case digits per byte. *)
Fixpoint x_bytes (b : bytes) : string :=
  match b with
  | [] => ""
  | c :: b' =>
      String (hexdigit (Byte.to_N c / 16))
        (String (hexdigit (Byte.to_N c mod 16)) (x_bytes b'))
  end.

(** [%d] and [%v] on a [uint64]: decimal. *)
Definition d_uint64 (n : uint64) : string :=
  DecimalString.NilZero.string_of_uint (N.to_uint n).

Definition v_uint64 (n : uint64) : string := d_uint64 n.

(** [%v] on a [*big.Int]: decimal. *)
Definition v_big (z : big.Int) : string :=
  DecimalString.NilZero.string_of_int (Z.to_int z).

(** [%x] on a [*big.Int]: lower-case hexadecimal. *)
Definition x_big (z : big.Int) : string :=
  HexadecimalString.NilZero.string_of_int (Z.to_hex_int z).

End fmt.

(** ** The decoded transaction *)

(** Modelled from the spec: [types.Transaction] is not among the sources.
    Section 3 gives its nine fields, in wire order; the recipient is an
    optional address, absent for a contract creation. *)
Record Transaction : Type := mkTransaction {
  tx_Nonce : uint64;
  tx_GasPrice : big.Int;
  tx_Gas : uint64;
  tx_To : option Address;
  tx_Value : big.Int;
  tx_Data : bytes;
  tx_V : big.Int;
  tx_R : big.Int;
  tx_S : big.Int
}.

(** [tx.RawSignatureValues()] returns [v, r, s], in that order. *)
Definition RawSignatureValues (tx : Transaction) : big.Int * big.Int * big.Int :=
  (tx_V tx, tx_R tx, tx_S tx).

(** ** Fixtures *)

Record ttTransaction : Type := mkttTransaction {
  tt_Data : bytes;
  tt_GasLimit : uint64;
  tt_GasPrice : big.Int;
  tt_Nonce : uint64;
  tt_Value : big.Int;
  tt_R : big.Int;
  tt_S : big.Int;
  tt_V : big.Int;
  tt_To : Address
}.

(** [Transaction] is a pointer in the source: [None] is the nil pointer. *)
Record ttJSON : Type := mkttJSON {
  json_BlockNumber : uint64;
  json_RLP : bytes;
  json_Sender : slice;
  json_Transaction : option ttTransaction
}.

Record TransactionTest : Type := mkTransactionTest {
  json : ttJSON
}.

(** ** Collaborators *)

(** What the harness uses of the packages outside the sources.  [foreign]
    is the type of the error values those packages build; all the harness
    does with one is to return it or to print it. *)
Class Collaborators : Type := {
  ChainConfig : Type;
  Signer : Type;
  foreign : Type;
  foreign_Error : foreign -> string;
  (** [rlp.DecodeBytes(b, tx)], filling a fresh [tx] *)
  rlp_DecodeBytes : bytes -> Transaction + foreign;
  (** [types.MakeSigner(config, blockNumber)] *)
  types_MakeSigner : ChainConfig -> big.Int -> Signer;
  (** [types.Sender(signer, tx)] *)
  types_Sender : Signer -> Transaction -> Address + foreign;
  (** [%x] on a [common.Address] and on a [hexutil.Bytes] *)
  x_Address : Address -> string;
  x_hexBytes : slice -> string
}.

(** ** Error values *)

(** A Go [error].  [errors.New] and [fmt.Errorf] build an [errorString],
    a value that holds its message and nothing else. *)
Inductive error `{Collaborators} : Type :=
| errorString (s : string)
| foreignError (e : foreign).

(** The method [Error()]. *)
Definition Error `{Collaborators} (e : error) : string :=
  match e with
  | errorString s => s
  | foreignError e => foreign_Error e
  end.

(** [errors.New(s)], and [fmt.Errorf] once its arguments are formatted
    into [s]: the value keeps the text and drops the arguments. *)
Definition errors_New `{Collaborators} (s : string) : error := errorString s.

(** [err == nil] on an [error], and [b == nil] on a slice. *)
Definition isNil {A : Type} (o : option A) : bool :=
  match o with
  | None => true
  | Some _ => false
  end.

(** [%s] on an [error]: the text of [Error()]; the nil interface value
    prints as Go's marker for a missing operand. *)
Definition s_error `{Collaborators} (err : option error) : string :=
  match err with
  | Some e => Error e
  | None => "%!s(<nil>)"
  end.

(** An error value that holds a message and nothing else: whatever a
    reader wants to know about it has to be read off the text. *)
Definition message_only `{Collaborators} (e : error) : bool :=
  match e with
  | errorString _ => true
  | foreignError _ => false
  end.

(** ** The objects a call works on, and the monad of the harness *)

(** [Run] has a pointer receiver and a pointer parameter.  The store holds
    the two objects they point to: the fixture and the chain configuration. *)
Record Store `{Collaborators} : Type := mkStore {
  this : TransactionTest;
  config : ChainConfig
}.

(** A call either returns or panics. *)
Inductive outcome (A : Type) : Type :=
| Return (a : A)
| Panic.

Arguments Return {A} a.
Arguments Panic {A}.

Definition M `{Collaborators} (A : Type) : Type := Store -> outcome A * Store.

Definition ret `{Collaborators} {A : Type} (a : A) : M A :=
  fun s => (Return a, s).

Definition bind `{Collaborators} {A B : Type} (m : M A) (k : A -> M B) : M B :=
  fun s =>
    match m s with
    | (Return a, s') => k a s'
    | (Panic, s') => (Panic, s')
    end.

(** Reading through a pointer into the store. *)
Definition load `{Collaborators} {A : Type} (f : Store -> A) : M A :=
  fun s => (Return (f s), s).

(** Writing a whole object of the store.  The harness never does; the
    operation is here so that leaving the store alone is a property of
    [Run] and not of the monad. *)
Definition store_this `{Collaborators} (t : TransactionTest) : M unit :=
  fun s => (Return tt, {| this := t; config := config s |}).

(** Following a pointer that may be nil: a nil pointer dereference panics. *)
Definition deref `{Collaborators} {A : Type} (p : option A) : M A :=
  fun s =>
    match p with
    | Some a => (Return a, s)
    | None => (Panic, s)
    end.

(** A computation that leaves the store as it found it. *)
Definition readonly `{Collaborators} {A : Type} (m : M A) : Prop :=
  forall s, snd (m s) = s.

Declare Scope harness_scope.
Delimit Scope harness_scope with harness.

Notation "x <- m ;; k" := (bind m (fun x => k))
  (at level 61, m at next level, right associativity) : harness_scope.

Local Open Scope harness_scope.

(** ** [ttTransaction.verify] *)

(** The checks of [verify] once the receiver is known not to be nil,
    in the order of the source.  [nil] is [None]. *)
Definition verify_fields `{Collaborators}
    (t : ttTransaction) (signer : Signer) (tx : Transaction) : option error :=
  if negb (bytes_Equal (tx_Data tx) (tt_Data t)) then
    Some (errors_New ("Tx input data mismatch: got " ++ fmt.x_bytes (tx_Data tx)
                      ++ " want " ++ fmt.x_bytes (tt_Data t)))
  else if negb (N.eqb (tx_Gas tx) (tt_GasLimit t)) then
    Some (errors_New ("GasLimit mismatch: got " ++ fmt.d_uint64 (tx_Gas tx)
                      ++ ", want " ++ fmt.d_uint64 (tt_GasLimit t)))
  else if negb (Z.eqb (big.Cmp (tx_GasPrice tx) (tt_GasPrice t)) 0) then
    Some (errors_New ("GasPrice mismatch: got " ++ fmt.v_big (tx_GasPrice tx)
                      ++ ", want " ++ fmt.v_big (tt_GasPrice t)))
  else if negb (N.eqb (tx_Nonce tx) (tt_Nonce t)) then
    Some (errors_New ("Nonce mismatch: got " ++ fmt.v_uint64 (tx_Nonce tx)
                      ++ ", want " ++ fmt.v_uint64 (tt_Nonce t)))
  else
    let '(v, r, s) := RawSignatureValues tx in
    if negb (Z.eqb (big.Cmp r (tt_R t)) 0) then
      Some (errors_New ("R mismatch: got " ++ fmt.v_big r
                        ++ ", want " ++ fmt.v_big (tt_R t)))
    else if negb (Z.eqb (big.Cmp s (tt_S t)) 0) then
      Some (errors_New ("S mismatch: got " ++ fmt.v_big s
                        ++ ", want " ++ fmt.v_big (tt_S t)))
    else if negb (Z.eqb (big.Cmp v (tt_V t)) 0) then
      Some (errors_New ("V mismatch: got " ++ fmt.v_big v
                        ++ ", want " ++ fmt.v_big (tt_V t)))
    else
      match
        match tx_To tx with
        | None =>
            if negb (Address_eqb (tt_To t) common.zero) then
              Some (errors_New
                      ("To mismatch when recipient is nil (contract creation): "
                       ++ x_Address (tt_To t)))
            else None
        | Some to =>
            if negb (Address_eqb to (tt_To t)) then
              Some (errors_New ("To mismatch: got " ++ x_Address to
                                ++ ", want " ++ x_Address (tt_To t)))
            else None
        end
      with
      | Some err => Some err
      | None =>
          if negb (Z.eqb (big.Cmp (tx_Value tx) (tt_Value t)) 0) then
            Some (errors_New ("Value mismatch: got " ++ fmt.x_big (tx_Value tx)
                              ++ ", want " ++ fmt.x_big (tt_Value t)))
          else None
      end.

(** [func (tt *ttTransaction) verify(signer, tx) error].  The receiver is
    a pointer; the first thing the body does with it is to read [tt.Data],
    which panics on a nil receiver. *)
Definition verify `{Collaborators}
    (p : option ttTransaction) (signer : Signer) (tx : Transaction)
    : M (option error) :=
  t <- deref p ;;
  ret (verify_fields t signer tx).

(** ** [TransactionTest.Run] *)

(** [func (tt *TransactionTest) Run(config *params.ChainConfig) error],
    run on the store that holds [*tt] and [*config]. *)
Definition Run `{Collaborators} : M (option error) :=
  rlp <- load (fun s => json_RLP (json (this s))) ;;
  match rlp_DecodeBytes rlp with
  | inr err =>
      expected <- load (fun s => json_Transaction (json (this s))) ;;
      match expected with
      | None => ret None
      | Some _ =>
          ret (Some (errors_New ("RLP DEWHoding failed: " ++ foreign_Error err)))
      end
  | inl tx =>
      (* Check sender derivation. *)
      cfg <- load config ;;
      number <- load (fun s => json_BlockNumber (json (this s))) ;;
      let signer := types_MakeSigner cfg (big.SetUint64 number) in
      match types_Sender signer tx with
      | inr err => ret (Some (foreignError err))
      | inl sender =>
          want <- load (fun s => json_Sender (json (this s))) ;;
          if negb (Address_eqb sender (BytesToAddress (slice_bytes want))) then
            ret (Some (errors_New ("Sender mismatch: got " ++ x_Address sender
                                   ++ ", want " ++ x_hexBytes want)))
          else
            (* Check decoded fields. *)
            expected <- load (fun s => json_Transaction (json (this s))) ;;
            err <- verify expected signer tx ;;
            want <- load (fun s => json_Sender (json (this s))) ;;
            if isNil want && isNil err then
              ret (Some (errors_New "field validations succeeded but should fail"))
            else
              want <- load (fun s => json_Sender (json (this s))) ;;
              if negb (isNil want) && negb (isNil err) then
                ret (Some (errors_New
                             ("field validations failed after RLP DEWHoding: "
                              ++ s_error err)))
              else ret None
      end
  end.

(** ** What the specification calls field equality *)

(** The fields that [verify] looks at, named as in [ttTransaction]. *)
Inductive field : Type :=
| F_Data | F_GasLimit | F_GasPrice | F_Nonce | F_R | F_S | F_V | F_To | F_Value.

(** The recipient rule: a transaction without recipient agrees with the
    all-zero address of the fixture, any other with its own address. *)
Definition recipient_agrees (t : ttTransaction) (tx : Transaction) : Prop :=
  match tx_To tx with
  | None => tt_To t = common.zero
  | Some to => to = tt_To t
  end.

(** Agreement of a decoded transaction with a fixture on one field: the
    same bytes for [Data], the same number for the numeric fields. *)
Definition agrees (f : field) (t : ttTransaction) (tx : Transaction) : Prop :=
  match f with
  | F_Data => tx_Data tx = tt_Data t
  | F_GasLimit => tx_Gas tx = tt_GasLimit t
  | F_GasPrice => tx_GasPrice tx = tt_GasPrice t
  | F_Nonce => tx_Nonce tx = tt_Nonce t
  | F_R => tx_R tx = tt_R t
  | F_S => tx_S tx = tt_S t
  | F_V => tx_V tx = tt_V t
  | F_To => recipient_agrees t tx
  | F_Value => tx_Value tx = tt_Value t
  end.

(** The message that names a field and renders what was decoded (got)
    and what the fixture expects (want). *)
Definition mismatch `{Collaborators}
    (f : field) (t : ttTransaction) (tx : Transaction) : string :=
  match f with
  | F_Data =>
      "Tx input data mismatch: got " ++ fmt.x_bytes (tx_Data tx)
      ++ " want " ++ fmt.x_bytes (tt_Data t)
  | F_GasLimit =>
      "GasLimit mismatch: got " ++ fmt.d_uint64 (tx_Gas tx)
      ++ ", want " ++ fmt.d_uint64 (tt_GasLimit t)
  | F_GasPrice =>
      "GasPrice mismatch: got " ++ fmt.v_big (tx_GasPrice tx)
      ++ ", want " ++ fmt.v_big (tt_GasPrice t)
  | F_Nonce =>
      "Nonce mismatch: got " ++ fmt.v_uint64 (tx_Nonce tx)
      ++ ", want " ++ fmt.v_uint64 (tt_Nonce t)
  | F_R =>
      "R mismatch: got " ++ fmt.v_big (tx_R tx) ++ ", want " ++ fmt.v_big (tt_R t)
  | F_S =>
      "S mismatch: got " ++ fmt.v_big (tx_S tx) ++ ", want " ++ fmt.v_big (tt_S t)
  | F_V =>
      "V mismatch: got " ++ fmt.v_big (tx_V tx) ++ ", want " ++ fmt.v_big (tt_V t)
  | F_To =>
      match tx_To tx with
      | None =>
          "To mismatch when recipient is nil (contract creation): "
          ++ x_Address (tt_To t)
      | Some to =>
          "To mismatch: got " ++ x_Address to ++ ", want " ++ x_Address (tt_To t)
      end
  | F_Value =>
      "Value mismatch: got " ++ fmt.x_big (tx_Value tx)
      ++ ", want " ++ fmt.x_big (tt_Value t)
  end.

(** The test [verify] makes on one field: [true] when it finds a mismatch. *)
Definition differs (f : field) (t : ttTransaction) (tx : Transaction) : bool :=
  match f with
  | F_Data => negb (bytes_Equal (tx_Data tx) (tt_Data t))
  | F_GasLimit => negb (N.eqb (tx_Gas tx) (tt_GasLimit t))
  | F_GasPrice => negb (Z.eqb (big.Cmp (tx_GasPrice tx) (tt_GasPrice t)) 0)
  | F_Nonce => negb (N.eqb (tx_Nonce tx) (tt_Nonce t))
  | F_R => negb (Z.eqb (big.Cmp (tx_R tx) (tt_R t)) 0)
  | F_S => negb (Z.eqb (big.Cmp (tx_S tx) (tt_S t)) 0)
  | F_V => negb (Z.eqb (big.Cmp (tx_V tx) (tt_V t)) 0)
  | F_To =>
      match tx_To tx with
      | None => negb (Address_eqb (tt_To t) common.zero)
      | Some to => negb (Address_eqb to (tt_To t))
      end
  | F_Value => negb (Z.eqb (big.Cmp (tx_Value tx) (tt_Value t)) 0)
  end.

(** The order in which [verify] goes through the fields. *)
Definition order : list field :=
  [F_Data; F_GasLimit; F_GasPrice; F_Nonce; F_R; F_S; F_V; F_To; F_Value].

(** The fixture of a run: the object behind the receiver's [json]. *)
Definition fixture `{Collaborators} (s : Store) : ttJSON := json (this s).

(** The signer of a run: the one [types.MakeSigner] selects for the chain
    configuration and the block number of the fixture. *)
Definition signer_of `{Collaborators} (s : Store) : Signer :=
  types_MakeSigner (config s) (big.SetUint64 (json_BlockNumber (json (this s)))).

(** ** A sample instance of the collaborators, and sample fixtures *)

Module Sample.

(** Fork heights as in section 3 of the specification: the height at
    which replay protection starts, if any, and the chain id. *)
Record chain : Type := mkchain {
  replayProtectionBlock : option Z;
  chainId : Z
}.

Inductive signer : Type :=
| Base
| ReplayProtected (id : Z).

Inductive failure : Type :=
| ErrTooFewElements
| ErrInvalidSig.

Definition failure_text (e : failure) : string :=
  match e with
  | ErrTooFewElements => "rlp: too few elements"
  | ErrInvalidSig => "invalid transaction v, r, s values"
  end.

Definition MakeSigner (c : chain) (number : big.Int) : signer :=
  match replayProtectionBlock c with
  | Some h => if (h <=? number)%Z then ReplayProtected (chainId c) else Base
  | None => Base
  end.

Definition alice : Address := BytesToAddress [x0a; x11; xce].
Definition bob : Address := BytesToAddress [x0b; x0b].

Definition transfer : Transaction :=
  {| tx_Nonce := 3; tx_GasPrice := 1; tx_Gas := 2000; tx_To := Some bob;
     tx_Value := 10; tx_Data := [x55; x44];
     tx_V := 28; tx_R := 7; tx_S := 9 |}.

Definition creation : Transaction :=
  {| tx_Nonce := 0; tx_GasPrice := 1; tx_Gas := 53000; tx_To := None;
     tx_Value := 0; tx_Data := [x60; x00];
     tx_V := 27; tx_R := 7; tx_S := 9 |}.

(** A transfer whose signature values are zero. *)
Definition unsigned : Transaction :=
  {| tx_Nonce := 3; tx_GasPrice := 1; tx_Gas := 2000; tx_To := Some bob;
     tx_Value := 10; tx_Data := [x55; x44];
     tx_V := 28; tx_R := 0; tx_S := 0 |}.

(** A transfer whose signature stands for the all-zero address. *)
Definition burnt : Transaction :=
  {| tx_Nonce := 3; tx_GasPrice := 1; tx_Gas := 2000; tx_To := Some bob;
     tx_Value := 10; tx_Data := [x55; x44];
     tx_V := 28; tx_R := 8; tx_S := 9 |}.

(** A table in place of the decoder: four byte strings stand for the
    four transactions above; the encoding of the empty list, [0xc0],
    and everything else is refused. *)
Definition DecodeBytes (b : bytes) : Transaction + failure :=
  match b with
  | [xf8; x01] => inl transfer
  | [xf8; x02] => inl creation
  | [xf8; x03] => inl unsigned
  | [xf8; x04] => inl burnt
  | _ => inr ErrTooFewElements
  end.

(** A table in place of signature recovery: zero [r] or [s] is
    refused, [r = 7] stands for a signature of [alice], any other for
    one that recovers to the all-zero address. *)
Definition Sender (_ : signer) (tx : Transaction) : Address + failure :=
  if (tx_R tx =? 0)%Z || (tx_S tx =? 0)%Z then inr ErrInvalidSig
  else if (tx_R tx =? 7)%Z then inl alice
  else inl common.zero.

#[global] Instance collaborators : Collaborators := {|
  ChainConfig := chain;
  Signer := signer;
  foreign := failure;
  foreign_Error := failure_text;
  rlp_DecodeBytes := DecodeBytes;
  types_MakeSigner := MakeSigner;
  types_Sender := Sender;
  x_Address := fmt.x_bytes;
  x_hexBytes := fun b => fmt.x_bytes (slice_bytes b)
|}.

Definition mainnet : chain :=
  {| replayProtectionBlock := Some 2675000%Z; chainId := 1 |}.

(** The fields a fixture expects of [transfer]. *)
Definition transfer_fields : ttTransaction :=
  {| tt_Data := [x55; x44]; tt_GasLimit := 2000; tt_GasPrice := 1;
     tt_Nonce := 3; tt_Value := 10; tt_R := 7; tt_S := 9; tt_V := 28;
     tt_To := bob |}.

(** The same with a wrong gas limit. *)
Definition wrong_gas : ttTransaction :=
  {| tt_Data := [x55; x44]; tt_GasLimit := 2001; tt_GasPrice := 1;
     tt_Nonce := 3; tt_Value := 10; tt_R := 7; tt_S := 9; tt_V := 28;
     tt_To := bob |}.

(** The fields a fixture expects of [burnt]. *)
Definition burnt_fields : ttTransaction :=
  {| tt_Data := [x55; x44]; tt_GasLimit := 2000; tt_GasPrice := 1;
     tt_Nonce := 3; tt_Value := 10; tt_R := 8; tt_S := 9; tt_V := 28;
     tt_To := bob |}.

(** The fields a fixture expects of [creation]: the all-zero recipient. *)
Definition creation_fields : ttTransaction :=
  {| tt_Data := [x60; x00]; tt_GasLimit := 53000; tt_GasPrice := 1;
     tt_Nonce := 0; tt_Value := 0; tt_R := 7; tt_S := 9; tt_V := 27;
     tt_To := common.zero |}.

(** The fields of [creation] with a recipient that is not all zero. *)
Definition creation_to_bob : ttTransaction :=
  {| tt_Data := [x60; x00]; tt_GasLimit := 53000; tt_GasPrice := 1;
     tt_Nonce := 0; tt_Value := 0; tt_R := 7; tt_S := 9; tt_V := 27;
     tt_To := bob |}.

(** The fields of [transfer] with another recipient. *)
Definition transfer_to_alice : ttTransaction :=
  {| tt_Data := [x55; x44]; tt_GasLimit := 2000; tt_GasPrice := 1;
     tt_Nonce := 3; tt_Value := 10; tt_R := 7; tt_S := 9; tt_V := 28;
     tt_To := alice |}.

Definition store (number : uint64) (rlp : bytes) (sender : slice)
    (expected : option ttTransaction) : Store :=
  {| this := {| json := {| json_BlockNumber := number; json_RLP := rlp;
                           json_Sender := sender;
                           json_Transaction := expected |} |};
     config := mainnet |}.

End Sample.

(** ** Package [bitutil]: sparse bitset compression ([compress.go]) *)

Module bitutil.

Local Open Scope list_scope.
Local Open Scope nat_scope.

(** The four error values of the package. *)
Inductive error : Type :=
| errMissingData
| errUnreferencedData
| errExceededTarget
| errZeroContent.

(** Conversion of an unsigned number to [byte]: its low eight bits. *)
Definition byte_of_N (n : N) : byte :=
  match Byte.of_N (n mod 256) with
  | Some b => b
  | None => x00
  end.

(** [a | b] and [a & b] on bytes. *)
Definition byte_or (a b : byte) : byte :=
  byte_of_N (N.lor (Byte.to_N a) (Byte.to_N b)).

Definition byte_and (a b : byte) : byte :=
  byte_of_N (N.land (Byte.to_N a) (Byte.to_N b)).

(** [1 << byte(7-i%8)], a constant of type [byte]. *)
Definition mask (i : nat) : byte :=
  byte_of_N (N.shiftl 1 (N.of_nat (7 - i mod 8))).

(** [l[i] = f(l[i])].  Every use below comes with [i < len(l)], so that
    the panic of Go on an index out of range has no counterpart here. *)
Fixpoint update (l : bytes) (i : nat) (f : byte -> byte) : bytes :=
  match l, i with
  | [], _ => []
  | c :: l', 0 => f c :: l'
  | c :: l', S i' => c :: update l' i' f
  end.

(** [l[i]], read where [i < len(l)] is known. *)
Definition index (l : bytes) (i : nat) : byte := nth i l x00.

(** [b != 0] *)
Definition nonzero (b : byte) : bool := negb (Byte.eqb b x00).

(** [b & (1 << byte(7-i%8)) != 0] *)
Definition test (b : byte) (i : nat) : bool :=
  negb (Byte.eqb (byte_and b (mask i)) x00).

(** The loop of [bitsetEncodeBytes] over [data], from index [i] on: a
    non-zero byte is appended to [nonZeroBytes] and sets bit [i] of
    [nonZeroBitset]. *)
Fixpoint gather (data : bytes) (i : nat) (nonZeroBitset nonZeroBytes : bytes)
    : bytes * bytes :=
  match data with
  | [] => (nonZeroBitset, nonZeroBytes)
  | b :: data' =>
      if nonzero b then
        gather data' (S i)
          (update nonZeroBitset (i / 8) (fun c => byte_or c (mask i)))
          (nonZeroBytes ++ [b])
      else gather data' (S i) nonZeroBitset nonZeroBytes
  end.

(** [bitsetEncodeBytes], with a bound on the depth of the recursion.  The
    recursive call is on the bitset, which is shorter than [data]. *)
Fixpoint bitsetEncode (fuel : nat) (data : bytes) : bytes :=
  match fuel with
  | 0 => []
  | S fuel' =>
      (* Empty slices get compressed to nil *)
      if List.length data =? 0 then []
      (* One byte slices compress to nil or retain the single byte *)
      else if List.length data =? 1 then
        if negb (nonzero (index data 0)) then [] else data
      else
        (* Calculate the bitset of set bytes, and gather the non-zero bytes *)
        let '(nonZeroBitset, nonZeroBytes) :=
          gather data 0 (repeat x00 ((List.length data + 7) / 8)) [] in
        if List.length nonZeroBytes =? 0 then []
        else bitsetEncode fuel' nonZeroBitset ++ nonZeroBytes
  end.

(** [func bitsetEncodeBytes(data []byte) []byte]; [len(data)] rounds are
    enough ([bitsetEncodeBytes_eq]). *)
Definition bitsetEncodeBytes (data : bytes) : bytes :=
  bitsetEncode (List.length data) data.

(** [func CompressBytes(data []byte) []byte] *)
Definition CompressBytes (data : bytes) : bytes :=
  let out := bitsetEncodeBytes data in
  if List.length out <? List.length data then out else data.

(** The loop of [bitsetDecodePartialBytes] over the bits [i], [i+1], ...
    of the bitset, [n] of them: a set bit moves [data[ptr]] to
    [decomp[i]]. *)
Fixpoint scatter (n i : nat) (nonZeroBitset data decomp : bytes) (ptr : nat)
    : bytes * nat * option error :=
  match n with
  | 0 => (decomp, ptr, None)
  | S n' =>
      if test (index nonZeroBitset (i / 8)) i then
        (* Make sure we have enough data to push into the correct slot *)
        if List.length data <=? ptr then ([], 0, Some errMissingData)
        else if List.length decomp <=? i then ([], 0, Some errExceededTarget)
        (* Make sure the data is valid and push into the slot *)
        else if negb (nonzero (index data ptr)) then ([], 0, Some errZeroContent)
        else scatter n' (S i) nonZeroBitset data
               (update decomp i (fun _ => index data ptr)) (S ptr)
      else scatter n' (S i) nonZeroBitset data decomp ptr
  end.

(** [bitsetDecodePartialBytes], with a bound on the depth of the
    recursion.  The recursive call is on a smaller target. *)
Fixpoint bitsetDecodePartial (fuel : nat) (data : bytes) (target : nat)
    : bytes * nat * option error :=
  match fuel with
  | 0 => ([], 0, None)
  | S fuel' =>
      (* Sanity check 0 targets to avoid infinite recursion *)
      if target =? 0 then ([], 0, None)
      else
        (* Handle the zero and single byte corner cases *)
        let decomp := repeat x00 target in
        if List.length data =? 0 then (decomp, 0, None)
        else if target =? 1 then
          let decomp := update decomp 0 (fun _ => index data 0) in
          if nonzero (index data 0) then (decomp, 1, None)
          else (decomp, 0, None)
        else
          (* Decompress the bitset of set bytes and distribute the non zero bytes *)
          match bitsetDecodePartial fuel' data ((target + 7) / 8) with
          | (_, ptr, Some err) => ([], ptr, Some err)
          | (nonZeroBitset, ptr, None) =>
              scatter (8 * List.length nonZeroBitset) 0 nonZeroBitset data decomp ptr
          end
  end.

(** [func bitsetDecodePartialBytes(data []byte, target int) ([]byte, int, error)],
    on a target that is not negative; [target + 1] rounds are enough
    ([bitsetDecodePartialBytes_eq]). *)
Definition bitsetDecodePartialBytes (data : bytes) (target : nat)
    : bytes * nat * option error :=
  bitsetDecodePartial (S target) data target.

(** [func bitsetDecodeBytes(data []byte, target int) ([]byte, error)] *)
Definition bitsetDecodeBytes (data : bytes) (target : nat) : bytes * option error :=
  match bitsetDecodePartialBytes data target with
  | (_, _, Some err) => ([], Some err)
  | (out, size, None) =>
      if negb (size =? List.length data) then ([], Some errUnreferencedData)
      else (out, None)
  end.

(** [func DecompressBytes(data []byte, target int) ([]byte, error)].  The
    target is an [int]; the first test lets none below [len(data)]
    through, so the decoder is reached with a positive target only. *)
Definition DecompressBytes (data : bytes) (target : Z) : bytes * option error :=
  if (target <? Z.of_nat (List.length data))%Z then ([], Some errExceededTarget)
  else if (Z.of_nat (List.length data) =? target)%Z then (data, None)
  else bitsetDecodeBytes data (Z.to_nat target).

(** Bit [i] of a bitset, most significant bit of each byte first. *)
Definition getbit (bs : bytes) (i : nat) : bool := test (index bs (i / 8)) i.

End bitutil.

(** ** Package [proto]: the decoders of wire values ([decode.go]) *)

Module proto.

Local Open Scope list_scope.
Local Open Scope N_scope.

(** The errors the decoders below return: [io.ErrUnexpectedEOF],
    [errOverflow], and the value [fmt.Errorf] makes of a message. *)
Inductive error : Type :=
| ErrUnexpectedEOF
| errOverflow
| errorString (s : string).

(** Arithmetic of [uint64]: results are taken modulo 2^64. *)
Definition shl64 (x s : N) : uint64 := N.shiftl x s mod 2 ^ 64.
Definition add64 (x y : uint64) : uint64 := (x + y) mod 2 ^ 64.
Definition sub64 (x y : uint64) : uint64 := (x + 2 ^ 64 - y mod 2 ^ 64) mod 2 ^ 64.

(** [l[i]] as a number, read where [i < len(l)] is known. *)
Definition at_ (l : bytes) (i : nat) : N := Byte.to_N (nth i l x00).

(** The loop of [DecodeVarint] from the round with the given [shift] on;
    [shift] runs through 0, 7, ..., 63, which makes ten rounds. *)
Fixpoint DecodeVarint_loop (rounds : nat) (shift : N) (buf : bytes)
    (x : uint64) (n : nat) : uint64 * nat :=
  match rounds with
  | O => (0, O)
  | S rounds' =>
      if (List.length buf <=? n)%nat then (0, O)
      else
        let b := at_ buf n in
        let n := S n in
        let x := N.lor x (shl64 (N.land b 0x7F) shift) in
        if N.land b 0x80 =? 0 then (x, n)
        else DecodeVarint_loop rounds' (shift + 7) buf x n
  end.

(** [func DecodeVarint(buf []byte) (x uint64, n int)] *)
Definition DecodeVarint (buf : bytes) : uint64 * nat :=
  DecodeVarint_loop 10 0 buf 0 O.

(** The part of [Buffer] the decoders use.  [index] is an [int] that the
    decoders keep between 0 and [len(buf)]; with it in [nat], the tests
    [i < 0] and [end < p.index], which catch an overflow of the addition
    before them, are never true. *)
Record Buffer : Type := mkBuffer {
  buf : bytes;
  index : nat
}.

(** [p.index = i] *)
Definition set_index (p : Buffer) (i : nat) : Buffer :=
  {| buf := buf p; index := i |}.

(** The loop of [DecodeVarintSlow]. *)
Fixpoint DecodeVarintSlow_loop (rounds : nat) (shift : N) (p : Buffer)
    (i : nat) (x : uint64) : uint64 * option error * Buffer :=
  match rounds with
  | O => (x, Some errOverflow, p)
  | S rounds' =>
      if (List.length (buf p) <=? i)%nat then (x, Some ErrUnexpectedEOF, p)
      else
        let b := at_ (buf p) i in
        let i := S i in
        let x := N.lor x (shl64 (N.land b 0x7F) shift) in
        if b <? 0x80 then (x, None, set_index p i)
        else DecodeVarintSlow_loop rounds' (shift + 7) p i x
  end.

(** [func (p *Buffer) DecodeVarintSlow() (x uint64, err error)]: the
    results and the buffer after the call. *)
Definition DecodeVarintSlow (p : Buffer) : uint64 * option error * Buffer :=
  DecodeVarintSlow_loop 10 0 p (index p) 0.

(** The rounds that [Buffer.DecodeVarint] writes out one after the other,
    for the shifts 7, 14, ..., 63.  After the last of them the source
    returns the overflow error without the subtraction, which would take
    away nothing. *)
Fixpoint DecodeVarint_rounds (shifts : list N) (p : Buffer) (i : nat)
    (x : uint64) : uint64 * option error * Buffer :=
  match shifts with
  | [] => (0, Some errOverflow, p)
  | s :: shifts' =>
      let b := at_ (buf p) i in
      let i := S i in
      let x := add64 x (shl64 b s) in
      if N.land b 0x80 =? 0 then (x, None, set_index p i)
      else DecodeVarint_rounds shifts' p i (sub64 x (shl64 0x80 s))
  end.

(** [func (p *Buffer) DecodeVarint() (x uint64, err error)] *)
Definition Buffer_DecodeVarint (p : Buffer) : uint64 * option error * Buffer :=
  let i := index p in
  if (List.length (buf p) <=? i)%nat then (0, Some ErrUnexpectedEOF, p)
  else if at_ (buf p) i <? 0x80 then
    (at_ (buf p) i, None, set_index p (S (index p)))
  else if (List.length (buf p) - i <? 10)%nat then DecodeVarintSlow p
  else
    (* we already checked the first byte *)
    DecodeVarint_rounds [7; 14; 21; 28; 35; 42; 49; 56; 63] p (S i)
      (sub64 (at_ (buf p) i) 0x80).

(** [func (p *Buffer) DecodeFixed64() (x uint64, err error)] *)
Definition DecodeFixed64 (p : Buffer) : uint64 * option error * Buffer :=
  let i := (index p + 8)%nat in
  if (List.length (buf p) <? i)%nat then (0, Some ErrUnexpectedEOF, p)
  else
    let x := at_ (buf p) (i - 8) in
    let x := N.lor x (shl64 (at_ (buf p) (i - 7)) 8) in
    let x := N.lor x (shl64 (at_ (buf p) (i - 6)) 16) in
    let x := N.lor x (shl64 (at_ (buf p) (i - 5)) 24) in
    let x := N.lor x (shl64 (at_ (buf p) (i - 4)) 32) in
    let x := N.lor x (shl64 (at_ (buf p) (i - 3)) 40) in
    let x := N.lor x (shl64 (at_ (buf p) (i - 2)) 48) in
    let x := N.lor x (shl64 (at_ (buf p) (i - 1)) 56) in
    (x, None, set_index p i).

(** [func (p *Buffer) DecodeFixed32() (x uint64, err error)] *)
Definition DecodeFixed32 (p : Buffer) : uint64 * option error * Buffer :=
  let i := (index p + 4)%nat in
  if (List.length (buf p) <? i)%nat then (0, Some ErrUnexpectedEOF, p)
  else
    let x := at_ (buf p) (i - 4) in
    let x := N.lor x (shl64 (at_ (buf p) (i - 3)) 8) in
    let x := N.lor x (shl64 (at_ (buf p) (i - 2)) 16) in
    let x := N.lor x (shl64 (at_ (buf p) (i - 1)) 24) in
    (x, None, set_index p i).

(** Conversions between unsigned and signed integers of [w] bits, kept in
    [N] and [Z]: the bits stay, the reading changes. *)
Definition to_signed (w : N) (x : N) : Z :=
  if x <? 2 ^ (w - 1) then Z.of_N x else (Z.of_N x - 2 ^ Z.of_N w)%Z.

Definition to_unsigned (w : N) (z : Z) : N := Z.to_N (z mod 2 ^ Z.of_N w).

(** [uint64((int64(x&1) << 63) >> 63)]: the shift to the left is one of
    [int64] and wraps, the shift to the right keeps the sign. *)
Definition sign64 (x : uint64) : uint64 :=
  to_unsigned 64
    (Z.shiftr (to_signed 64 (to_unsigned 64 (Z.shiftl (Z.of_N (N.land x 1)) 63))) 63).

(** [uint32((int32(x&1) << 31) >> 31)] *)
Definition sign32 (x : uint64) : N :=
  to_unsigned 32
    (Z.shiftr (to_signed 32 (to_unsigned 32 (Z.shiftl (Z.of_N (N.land x 1)) 31))) 31).

(** [func (p *Buffer) DecodeZigzag64() (x uint64, err error)] *)
Definition DecodeZigzag64 (p : Buffer) : uint64 * option error * Buffer :=
  match Buffer_DecodeVarint p with
  | (x, Some err, p') => (x, Some err, p')
  | (x, None, p') => (N.lxor (N.shiftr x 1) (sign64 x), None, p')
  end.

(** [func (p *Buffer) DecodeZigzag32() (x uint64, err error)] *)
Definition DecodeZigzag32 (p : Buffer) : uint64 * option error * Buffer :=
  match Buffer_DecodeVarint p with
  | (x, Some err, p') => (x, Some err, p')
  | (x, None, p') =>
      (N.lxor (N.shiftr (x mod 2 ^ 32) 1) (sign32 x), None, p')
  end.

(** [copy(dst, src)]: the first [min(len(dst), len(src))] bytes of [dst]
    are replaced. *)
Definition copy (dst src : bytes) : bytes :=
  let n := Nat.min (List.length dst) (List.length src) in
  firstn n src ++ skipn n dst.

(** [func (p *Buffer) DecodeRawBytes(alloc bool) (buf []byte, err error)],
    with an [int] of 64 bits: a length of 2^63 or more is a negative
    [int]. *)
Definition DecodeRawBytes (p : Buffer) (alloc : bool)
    : bytes * option error * Buffer :=
  match Buffer_DecodeVarint p with
  | (_, Some err, p) => ([], Some err, p)
  | (n, None, p) =>
      let nb := to_signed 64 n in
      if (nb <? 0)%Z then
        ([], Some (errorString ("proto: bad byte length "
                                ++ DecimalString.NilZero.string_of_int (Z.to_int nb))), p)
      else
        let nb := Z.to_nat nb in
        let end_ := (index p + nb)%nat in
        if (List.length (buf p) <? end_)%nat then ([], Some ErrUnexpectedEOF, p)
        else if negb alloc then
          (firstn nb (skipn (index p) (buf p)), None,
           set_index p (index p + nb))
        else
          (copy (repeat x00 nb) (skipn (index p) (buf p)), None,
           set_index p (index p + nb))
  end.

(** [func (p *Buffer) DecodeStringBytes() (s string, err error)]; a Go
    string is its bytes. *)
Definition DecodeStringBytes (p : Buffer) : bytes * option error * Buffer :=
  match DecodeRawBytes p false with
  | (_, Some err, p) => ([], Some err, p)
  | (b, None, p) => (b, None, p)
  end.

(** The number a sequence of bytes stands for in base 128, least
    significant first, the high bit of each byte left out; and the number
    it stands for in base 256. *)
Definition base128 (l : list N) : N :=
  fold_right (fun b acc => b mod 128 + 128 * acc) 0 l.

(** The bytes of a buffer that are still to be read, [p.buf[p.index:]]. *)
Definition unread (p : Buffer) : bytes := skipn (index p) (buf p).

(** The first byte, among the first ten, that has its high bit clear ends
    a varint; [terminator l m] says that it is the byte [m] of [l]. *)
Definition terminator (l : bytes) (m : nat) : Prop :=
  (m < 10)%nat /\ (m < List.length l)%nat /\
  (forall k, (k < m)%nat -> 128 <= at_ l k) /\ at_ l m < 128.

(** The value of the varint that ends with the byte [m] of [l]. *)
Definition varint_value (l : bytes) (m : nat) : uint64 :=
  base128 (map Byte.to_N (firstn (S m) l)) mod 2 ^ 64.

(** The shifts of the rounds of [Buffer.DecodeVarint] from round [n] on. *)
Definition shifts (n len : nat) : list N :=
  map (fun k => 7 * N.of_nat k) (seq n len).

Definition base256 (l : list N) : N :=
  fold_right (fun b acc => b + 256 * acc) 0 l.

(** The wire types, constants of the package that are declared outside
    [decode.go]. *)
Class WireTypes : Type := {
  WireVarint : Z;
  WireFixed64 : Z;
  WireBytes : Z;
  WireStartGroup : Z;
  WireEndGroup : Z;
  WireFixed32 : Z
}.

(** [fmt.Sprintf("%d", n)] for an [int]. *)
Definition d_int (n : Z) : string :=
  DecimalString.NilZero.string_of_int (Z.to_int n).

(** [func (o *Buffer) skip(t reflect.Type, tag, wire int) error], with a
    bound on the number of calls and rounds: [skip] is the function,
    [skip_group] the loop of its case [WireStartGroup].  Without fuel the
    result is [None].  Of the type [t] only its rendering by [%s] is
    used. *)
Fixpoint skip `{WireTypes} (fuel : nat) (o : Buffer) (t : string)
    (tag wire : Z) {struct fuel} : option (option error * Buffer) :=
  match fuel with
  | O => None
  | S fuel' =>
      if (wire =? WireVarint)%Z then
        let '(_, err, o) := Buffer_DecodeVarint o in Some (err, o)
      else if (wire =? WireFixed64)%Z then
        let '(_, err, o) := DecodeFixed64 o in Some (err, o)
      else if (wire =? WireBytes)%Z then
        let '(_, err, o) := DecodeRawBytes o false in Some (err, o)
      else if (wire =? WireFixed32)%Z then
        let '(_, err, o) := DecodeFixed32 o in Some (err, o)
      else if (wire =? WireStartGroup)%Z then skip_group fuel' o t
      else
        Some (Some (errorString ("proto: can't skip unknown wire type "
                                 ++ d_int wire ++ " for " ++ t)%string), o)
  end
with skip_group `{WireTypes} (fuel : nat) (o : Buffer) (t : string)
    {struct fuel} : option (option error * Buffer) :=
  match fuel with
  | O => None
  | S fuel' =>
      match Buffer_DecodeVarint o with
      | (_, Some err, o) => Some (Some err, o)
      | (u, None, o) =>
          let fwire := Z.of_N (N.land u 0x7) in
          if (fwire =? WireEndGroup)%Z then Some (None, o)
          else
            let ftag := Z.of_N (N.shiftr u 3) in
            match skip fuel' o t ftag fwire with
            | None => None
            | Some (Some err, o) => Some (Some err, o)
            | Some (None, o) => skip_group fuel' o t
            end
      end
  end.

(** The number of bytes that are still to be read. *)
Definition remaining (o : Buffer) : nat := List.length (buf o) - index o.

(** [skip] with the fuel that every buffer gets by with: a round of the
    loop takes a byte at least. *)
Definition Buffer_skip `{WireTypes} (o : Buffer) (t : string) (tag wire : Z)
    : option (option error * Buffer) :=
  skip (2 * remaining o + 2) o t tag wire.

(** The values the wire types have in the protocol buffer encoding. *)
Definition wire_format : WireTypes := {|
  WireVarint := 0;
  WireFixed64 := 1;
  WireBytes := 2;
  WireStartGroup := 3;
  WireEndGroup := 4;
  WireFixed32 := 5
|}.

(** What a call may do to the buffer: the bytes stay, the index does not
    go back and does not leave the buffer, and a call without an error
    has moved it forward. *)
Definition advances (o o' : Buffer) (e : option error) : Prop :=
  buf o' = buf o /\
  (index o <= index o')%nat /\
  (index o' = index o \/ index o' <= List.length (buf o))%nat /\
  (e = None -> index o < index o' /\ index o' <= List.length (buf o))%nat.

End proto.

(** * Properties *)

(** ** Comparisons *)

Lemma bytes_Equal_eq (a b : bytes) : bytes_Equal a b = true <-> a = b.
Proof.
  revert b; induction a as [|x a IH]; intros [|y b]; simpl;
    try (split; [discriminate | discriminate]); try tauto.
  rewrite andb_true_iff, IH. split.
  - intros [Hxy ->]. apply Byte.byte_dec_bl in Hxy. now subst.
  - intros [= -> ->]. split; [now apply Byte.byte_dec_lb | reflexivity].
Qed.

Lemma bytes_Equal_neq (a b : bytes) : bytes_Equal a b = false <-> a <> b.
Proof.
  rewrite <- bytes_Equal_eq. destruct (bytes_Equal a b); split; congruence.
Qed.

Lemma Address_eqb_eq (a b : Address) : Address_eqb a b = true <-> a = b.
Proof. apply bytes_Equal_eq. Qed.

Lemma Address_eqb_neq (a b : Address) : Address_eqb a b = false <-> a <> b.
Proof. apply bytes_Equal_neq. Qed.

Lemma Cmp_eq (x y : big.Int) : (big.Cmp x y =? 0)%Z = true <-> x = y.
Proof.
  unfold big.Cmp. destruct (Z.compare_spec x y); simpl; split;
    intros; (congruence || lia).
Qed.

Lemma Cmp_neq (x y : big.Int) : (big.Cmp x y =? 0)%Z = false <-> x <> y.
Proof.
  rewrite <- Cmp_eq. destruct (big.Cmp x y =? 0)%Z; split; congruence.
Qed.

(** The address made from any slice has 20 bytes. *)
Lemma BytesToAddress_length (b : bytes) :
  List.length (BytesToAddress b) = AddressLength.
Proof.
  unfold BytesToAddress, AddressLength.
  destruct (Nat.ltb_spec 20 (List.length b)) as [Hlt|Hle];
    rewrite length_app, repeat_length; [rewrite length_skipn|]; lia.
Qed.

(** The nil slice and the empty slice make the all-zero address. *)
Lemma BytesToAddress_nil : BytesToAddress (slice_bytes None) = common.zero.
Proof. reflexivity. Qed.

(** A slice of 20 bytes is the address it makes. *)
Lemma BytesToAddress_exact (b : bytes) :
  List.length b = AddressLength -> BytesToAddress b = b.
Proof.
  unfold BytesToAddress, AddressLength. intros Hb. rewrite Hb. simpl.
  rewrite Hb. reflexivity.
Qed.

(** A slice longer than 20 bytes loses its first bytes. *)
Example BytesToAddress_crops :
  BytesToAddress (x01 :: x02 :: repeat x03 20) = repeat x03 20.
Proof. reflexivity. Qed.

Example BytesToAddress_pads :
  BytesToAddress [x0b; x0b] = (repeat x00 18 ++ [x0b; x0b])%list.
Proof. reflexivity. Qed.

Example x_bytes_5544 : fmt.x_bytes [x55; x44] = "5544".
Proof. reflexivity. Qed.

Example d_uint64_2000 : fmt.d_uint64 2000 = "2000".
Proof. reflexivity. Qed.

Example v_big_zero : fmt.v_big 0 = "0".
Proof. reflexivity. Qed.

Example x_big_255 : fmt.x_big 255 = "ff".
Proof. reflexivity. Qed.

(** Numbers are compared as numbers. *)
Example Cmp_samples :
  big.Cmp 7 7 = 0%Z /\ big.Cmp 7 9 = (-1)%Z /\ big.Cmp 9 7 = 1%Z.
Proof. repeat split. Qed.

(** ** The store *)

Lemma readonly_ret `{Collaborators} {A : Type} (a : A) : readonly (ret a).
Proof. intros s. reflexivity. Qed.

Lemma readonly_load `{Collaborators} {A : Type} (f : Store -> A) :
  readonly (load f).
Proof. intros s. reflexivity. Qed.

Lemma readonly_deref `{Collaborators} {A : Type} (p : option A) :
  readonly (deref p).
Proof. intros s. destruct p; reflexivity. Qed.

Lemma readonly_bind `{Collaborators} {A B : Type} (m : M A) (k : A -> M B) :
  readonly m -> (forall a, readonly (k a)) -> readonly (m <- m ;; k m).
Proof.
  intros Hm Hk s. unfold bind. specialize (Hm s).
  destruct (m s) as [[a|] s']; simpl in *; subst; [apply Hk | reflexivity].
Qed.

(** Not every computation of the monad is read-only. *)
Lemma store_this_writes :
  ~ @readonly Sample.collaborators _
      (store_this {| json := mkttJSON 1 [] None None |}).
Proof.
  intros Hro.
  specialize (Hro (Sample.store 0 [] None None)). discriminate Hro.
Qed.

Lemma verify_readonly `{Collaborators}
    (p : option ttTransaction) (signer : Signer) (tx : Transaction) :
  readonly (verify p signer tx).
Proof.
  unfold verify. apply readonly_bind; [apply readonly_deref|].
  intros t. apply readonly_ret.
Qed.

Create HintDb harness.

#[local] Hint Resolve readonly_ret readonly_load readonly_deref verify_readonly
  : harness.

Ltac readonly_step :=
  match goal with
  | |- readonly (bind _ _) => apply readonly_bind; [|intros ?]
  | |- readonly (match ?x with _ => _ end) => destruct x
  | |- readonly (if ?b then _ else _) => destruct b
  | |- readonly _ => solve [auto with harness]
  end.

Lemma Run_readonly `{Collaborators} : readonly Run.
Proof. unfold Run. repeat readonly_step. Qed.

(** [verify] on a receiver that is not nil returns what the checks give. *)
Lemma verify_Some `{Collaborators}
    (t : ttTransaction) (signer : Signer) (tx : Transaction) (s : Store) :
  verify (Some t) signer tx s = (Return (verify_fields t signer tx), s).
Proof. reflexivity. Qed.

Lemma verify_nil `{Collaborators}
    (signer : Signer) (tx : Transaction) (s : Store) :
  verify None signer tx s = (Panic, s).
Proof. reflexivity. Qed.

(** ** The paths of [Run] *)

Section Paths.

Context `{Collaborators}.

Variable s : Store.

(** Decoding fails: the outcome hangs on the expected transaction only. *)
Lemma Run_decode_fails (e : foreign) :
  rlp_DecodeBytes (json_RLP (fixture s)) = inr e ->
  Run s =
  (Return (match json_Transaction (fixture s) with
           | None => None
           | Some _ =>
               Some (errors_New ("RLP DEWHoding failed: " ++ foreign_Error e))
           end), s).
Proof.
  unfold fixture. intros Hd. unfold Run, bind, load. cbn beta iota.
  rewrite Hd. cbn beta iota.
  destruct (json_Transaction (json (this s))); reflexivity.
Qed.

(** Sender derivation fails: its error is returned as it is. *)
Lemma Run_sender_fails (tx : Transaction) (e : foreign) :
  rlp_DecodeBytes (json_RLP (fixture s)) = inl tx ->
  types_Sender (signer_of s) tx = inr e ->
  Run s = (Return (Some (foreignError e)), s).
Proof.
  unfold fixture. unfold signer_of. intros Hd Hs.
  unfold Run, bind, load. cbn beta iota.
  rewrite Hd. cbn beta iota zeta. rewrite Hs. reflexivity.
Qed.

(** The derived sender is not the address of the fixture's sender bytes. *)
Lemma Run_sender_differs (tx : Transaction) (a : Address) :
  rlp_DecodeBytes (json_RLP (fixture s)) = inl tx ->
  types_Sender (signer_of s) tx = inl a ->
  a <> BytesToAddress (slice_bytes (json_Sender (fixture s))) ->
  Run s =
  (Return (Some (errors_New ("Sender mismatch: got " ++ x_Address a
                             ++ ", want " ++ x_hexBytes (json_Sender (fixture s))))),
   s).
Proof.
  unfold fixture. unfold signer_of. intros Hd Hs Hne.
  apply Address_eqb_neq in Hne.
  unfold Run, bind, load. cbn beta iota.
  rewrite Hd. cbn beta iota zeta. rewrite Hs. cbn beta iota.
  rewrite Hne. reflexivity.
Qed.

(** The sender comparison passes and the fixture has an expected
    transaction: the outcome is what the two last tests of [Run] make of
    the presence of a sender and of the result of [verify]. *)
Lemma Run_verifies (tx : Transaction) (a : Address) (t : ttTransaction) :
  rlp_DecodeBytes (json_RLP (fixture s)) = inl tx ->
  types_Sender (signer_of s) tx = inl a ->
  a = BytesToAddress (slice_bytes (json_Sender (fixture s))) ->
  json_Transaction (fixture s) = Some t ->
  Run s =
  (Return
     (let err := verify_fields t (signer_of s) tx in
      if isNil (json_Sender (fixture s)) && isNil err then
        Some (errors_New "field validations succeeded but should fail")
      else if negb (isNil (json_Sender (fixture s))) && negb (isNil err) then
        Some (errors_New ("field validations failed after RLP DEWHoding: "
                          ++ s_error err))
      else None), s).
Proof.
  unfold fixture. unfold signer_of. intros Hd Hs He Ht.
  apply Address_eqb_eq in He.
  unfold Run, bind, load. cbn beta iota.
  rewrite Hd. cbn beta iota zeta. rewrite Hs. cbn beta iota.
  rewrite He. cbn [negb]. cbn beta iota. rewrite Ht, verify_Some.
  cbn beta iota.
  destruct (isNil (json_Sender (json (this s))) && isNil _); [reflexivity|].
  destruct (negb _ && negb _); reflexivity.
Qed.

(** The sender comparison passes and the fixture has no expected
    transaction: [verify] is called on a nil receiver. *)
Lemma Run_verifies_nil (tx : Transaction) (a : Address) :
  rlp_DecodeBytes (json_RLP (fixture s)) = inl tx ->
  types_Sender (signer_of s) tx = inl a ->
  a = BytesToAddress (slice_bytes (json_Sender (fixture s))) ->
  json_Transaction (fixture s) = None ->
  Run s = (Panic, s).
Proof.
  unfold fixture. unfold signer_of. intros Hd Hs He Ht.
  apply Address_eqb_eq in He.
  unfold Run, bind, load. cbn beta iota.
  rewrite Hd. cbn beta iota zeta. rewrite Hs. cbn beta iota.
  rewrite He. cbn [negb]. cbn beta iota. rewrite Ht, verify_nil.
  reflexivity.
Qed.

End Paths.

(** ** The decision table of [Run] *)

(** C2.  When the bytes of the fixture do not decode as a transaction, [Run]
    returns success if the fixture declares no expected transaction, and
    otherwise returns an error made of the decoder's message. *)
Theorem Run_decode_failure `{Collaborators} (s : Store) (e : foreign)
    (Hdecode : rlp_DecodeBytes (json_RLP (fixture s)) = inr e) :
  (json_Transaction (fixture s) = None -> Run s = (Return None, s)) /\
  (json_Transaction (fixture s) <> None ->
   Run s =
   (Return (Some (errors_New ("RLP DEWHoding failed: " ++ foreign_Error e))), s)).
Proof.
  unfold fixture in *. unfold Run, bind, load. cbn beta iota.
  rewrite Hdecode. cbn beta iota.
  destruct (json_Transaction (json (this s))) as [t|]; split; intros Ht;
    solve [reflexivity | discriminate | contradiction].
Qed.

Lemma Run_decode_failure_witness :
  (rlp_DecodeBytes (json_RLP (fixture (Sample.store 0 [xc0] None None)))
   = inr Sample.ErrTooFewElements /\
   json_Transaction (fixture (Sample.store 0 [xc0] None None)) = None /\
   Run (Sample.store 0 [xc0] None None)
   = (Return None, Sample.store 0 [xc0] None None)) /\
  (rlp_DecodeBytes
     (json_RLP (fixture (Sample.store 0 [xc0] None (Some Sample.transfer_fields))))
   = inr Sample.ErrTooFewElements /\
   json_Transaction (fixture (Sample.store 0 [xc0] None (Some Sample.transfer_fields)))
   <> None /\
   Run (Sample.store 0 [xc0] None (Some Sample.transfer_fields))
   = (Return (Some (errorString "RLP DEWHoding failed: rlp: too few elements")),
      Sample.store 0 [xc0] None (Some Sample.transfer_fields))).
Proof.
  split.
  - split; [reflexivity|]. split; [reflexivity|].
    apply (proj1 (Run_decode_failure (Sample.store 0 [xc0] None None)
                    Sample.ErrTooFewElements eq_refl)).
    reflexivity.
  - split; [reflexivity|]. split; [discriminate|].
    apply (proj2 (Run_decode_failure
                    (Sample.store 0 [xc0] None (Some Sample.transfer_fields))
                    Sample.ErrTooFewElements eq_refl)).
    discriminate.
Defined.

(** C4.  Once the bytes decode, the sender is derived with the signer made
    from the chain configuration and the block number of the fixture, before
    any field is looked at: an error of the derivation is returned as it is,
    and a declared sender whose address differs from the derived one gives the
    sender-mismatch error, whose message renders both.  Neither outcome
    depends on the expected transaction, which may even be missing. *)
Theorem Run_sender_derivation `{Collaborators} (s : Store) (tx : Transaction)
    (Hdecode : rlp_DecodeBytes (json_RLP (fixture s)) = inl tx) :
  (forall e : foreign,
     types_Sender
       (types_MakeSigner (config s)
          (big.SetUint64 (json_BlockNumber (fixture s)))) tx = inr e ->
     Run s = (Return (Some (foreignError e)), s)) /\
  (forall (a : Address) (b : bytes),
     types_Sender
       (types_MakeSigner (config s)
          (big.SetUint64 (json_BlockNumber (fixture s)))) tx = inl a ->
     json_Sender (fixture s) = Some b ->
     a <> BytesToAddress b ->
     Run s =
     (Return (Some (errors_New ("Sender mismatch: got " ++ x_Address a
                                ++ ", want " ++ x_hexBytes (Some b)))), s)).
Proof.
  split.
  - intros e Hs. now apply Run_sender_fails with tx.
  - intros a b Hs Hb Hne.
    rewrite (Run_sender_differs s tx a Hdecode Hs); rewrite Hb; auto.
Qed.

Lemma Run_sender_derivation_witness :
  (rlp_DecodeBytes (json_RLP (fixture (Sample.store 0 [xf8; x03] None None)))
   = inl Sample.unsigned /\
   Run (Sample.store 0 [xf8; x03] None None)
   = (Return (Some (foreignError Sample.ErrInvalidSig)),
      Sample.store 0 [xf8; x03] None None)) /\
  (rlp_DecodeBytes
     (json_RLP (fixture (Sample.store 0 [xf8; x01] (Some Sample.bob) None)))
   = inl Sample.transfer /\
   Sample.alice <> BytesToAddress Sample.bob /\
   Run (Sample.store 0 [xf8; x01] (Some Sample.bob) None)
   = (Return
        (Some
           (errorString
              ("Sender mismatch: got 00000000000000000000000000000000000a11ce"
               ++ ", want 0000000000000000000000000000000000000b0b"))),
      Sample.store 0 [xf8; x01] (Some Sample.bob) None)).
Proof.
  split.
  - split; [reflexivity|].
    apply (proj1 (Run_sender_derivation (Sample.store 0 [xf8; x03] None None)
                    Sample.unsigned eq_refl) Sample.ErrInvalidSig).
    reflexivity.
  - split; [reflexivity|]. split; [discriminate|].
    apply (proj2 (Run_sender_derivation
                    (Sample.store 0 [xf8; x01] (Some Sample.bob) None)
                    Sample.transfer eq_refl) Sample.alice Sample.bob).
    + reflexivity.
    + reflexivity.
    + discriminate.
Defined.

(** C8.  When the bytes decode, the derived sender is the address of the
    fixture's sender bytes, and the fixture declares no transaction object,
    [Run] calls [verify] on a nil receiver; reading [tt.Data] there panics,
    and so does [Run]: it returns neither success nor an error. *)
Theorem Run_nil_transaction_panics `{Collaborators}
    (s : Store) (tx : Transaction) (a : Address)
    (Hdecode : rlp_DecodeBytes (json_RLP (fixture s)) = inl tx)
    (Hsender : types_Sender (signer_of s) tx = inl a)
    (Hmatch : a = BytesToAddress (slice_bytes (json_Sender (fixture s))))
    (Hnil : json_Transaction (fixture s) = None) :
  verify (json_Transaction (fixture s)) (signer_of s) tx s = (Panic, s) /\
  Run s = (Panic, s) /\
  (forall r : option error, Run s <> (Return r, s)).
Proof.
  pose proof (Run_verifies_nil s tx a Hdecode Hsender Hmatch Hnil) as HR.
  split; [rewrite Hnil; apply verify_nil|].
  split; [exact HR|].
  intros r. rewrite HR. discriminate.
Qed.

Lemma Run_nil_transaction_panics_witness :
  rlp_DecodeBytes
    (json_RLP (fixture (Sample.store 0 [xf8; x01] (Some Sample.alice) None)))
  = inl Sample.transfer /\
  json_Transaction (fixture (Sample.store 0 [xf8; x01] (Some Sample.alice) None))
  = None /\
  Run (Sample.store 0 [xf8; x01] (Some Sample.alice) None)
  = (Panic, Sample.store 0 [xf8; x01] (Some Sample.alice) None).
Proof.
  split; [reflexivity|]. split; [reflexivity|].
  apply (Run_nil_transaction_panics
           (Sample.store 0 [xf8; x01] (Some Sample.alice) None)
           Sample.transfer Sample.alice eq_refl eq_refl eq_refl eq_refl).
Defined.

(** C3, as the specification has it, fails.  The fixture below decodes and
    declares the sender that is derived, but no transaction object: [Run]
    calls [verify] on the nil pointer and panics.  It returns neither
    success nor an error. *)
Lemma Run_sender_matches_counterexample :
  rlp_DecodeBytes
    (json_RLP (fixture (Sample.store 0 [xf8; x01] (Some Sample.alice) None)))
  = inl Sample.transfer /\
  json_Sender (fixture (Sample.store 0 [xf8; x01] (Some Sample.alice) None))
  = Some Sample.alice /\
  types_Sender
    (signer_of (Sample.store 0 [xf8; x01] (Some Sample.alice) None))
    Sample.transfer
  = inl (BytesToAddress Sample.alice) /\
  verify
    (json_Transaction
       (fixture (Sample.store 0 [xf8; x01] (Some Sample.alice) None)))
    Sample.Base Sample.transfer
    (Sample.store 0 [xf8; x01] (Some Sample.alice) None)
  = (Panic, Sample.store 0 [xf8; x01] (Some Sample.alice) None) /\
  Run (Sample.store 0 [xf8; x01] (Some Sample.alice) None)
  = (Panic, Sample.store 0 [xf8; x01] (Some Sample.alice) None) /\
  Run (Sample.store 0 [xf8; x01] (Some Sample.alice) None)
  <> (Return None, Sample.store 0 [xf8; x01] (Some Sample.alice) None) /\
  (forall e : error,
     Run (Sample.store 0 [xf8; x01] (Some Sample.alice) None)
     <> (Return (Some e), Sample.store 0 [xf8; x01] (Some Sample.alice) None)).
Proof. repeat split; discriminate. Qed.

(** C3, amended.  When the bytes decode, the fixture declares a sender whose
    address is the one derived with the signer of the fixture's block
    number, and the fixture declares a transaction object, the call of
    [verify] on the decoded transaction and the fixture's expected fields
    returns, nil or an error; [Run] returns success exactly when it returns
    nil, and otherwise [Run] returns an error whose message is the message
    of that error after a fixed prefix. *)
Theorem Run_sender_matches `{Collaborators}
    (s : Store) (tx : Transaction) (a : Address) (b : bytes)
    (t : ttTransaction)
    (Hdecode : rlp_DecodeBytes (json_RLP (fixture s)) = inl tx)
    (Hdeclared : json_Sender (fixture s) = Some b)
    (Hsender : types_Sender (signer_of s) tx = inl a)
    (Hmatch : a = BytesToAddress b)
    (Hexpected : json_Transaction (fixture s) = Some t) :
  exists r : option error,
    verify (json_Transaction (fixture s)) (signer_of s) tx s = (Return r, s) /\
    (Run s = (Return None, s) <-> r = None) /\
    (forall e : error,
       r = Some e ->
       Run s =
       (Return (Some (errors_New ("field validations failed after RLP DEWHoding: "
                                  ++ Error e))), s)).
Proof.
  assert (Hm : a = BytesToAddress (slice_bytes (json_Sender (fixture s))))
    by (rewrite Hdeclared; exact Hmatch).
  exists (verify_fields t (signer_of s) tx).
  rewrite (Run_verifies s tx a t Hdecode Hsender Hm Hexpected).
  rewrite Hexpected, verify_Some, Hdeclared. cbn zeta. cbn [isNil negb andb].
  split; [reflexivity|].
  destruct (verify_fields t (signer_of s) tx) as [e|];
    cbn [isNil negb s_error].
  - split; [split; discriminate|]. intros e' [= <-]. reflexivity.
  - split; [split; reflexivity|]. discriminate.
Qed.

Lemma Run_sender_matches_witness :
  Run (Sample.store 0 [xf8; x01] (Some Sample.alice) (Some Sample.transfer_fields))
  = (Return None,
     Sample.store 0 [xf8; x01] (Some Sample.alice) (Some Sample.transfer_fields))
  /\
  Run (Sample.store 0 [xf8; x01] (Some Sample.alice) (Some Sample.wrong_gas))
  = (Return
       (Some
          (errorString
             ("field validations failed after RLP DEWHoding: "
              ++ "GasLimit mismatch: got 2000, want 2001"))),
     Sample.store 0 [xf8; x01] (Some Sample.alice) (Some Sample.wrong_gas)).
Proof.
  split.
  - destruct (Run_sender_matches
                (Sample.store 0 [xf8; x01] (Some Sample.alice)
                   (Some Sample.transfer_fields))
                Sample.transfer Sample.alice Sample.alice Sample.transfer_fields
                eq_refl eq_refl eq_refl eq_refl eq_refl)
      as (r & Hverify & Hsuccess & _).
    apply Hsuccess. injection Hverify as <-. reflexivity.
  - destruct (Run_sender_matches
                (Sample.store 0 [xf8; x01] (Some Sample.alice)
                   (Some Sample.wrong_gas))
                Sample.transfer Sample.alice Sample.alice Sample.wrong_gas
                eq_refl eq_refl eq_refl eq_refl eq_refl)
      as (r & Hverify & _ & Hfails).
    apply (Hfails (errorString "GasLimit mismatch: got 2000, want 2001")).
    injection Hverify as <-. reflexivity.
Defined.

(** C7.  When the fixture declares no sender, the bytes decode and sender
    derivation succeeds, the derived sender is compared with the address
    made from the nil sender bytes, which is twenty zero bytes.  A derived
    sender other than that address gives the sender-mismatch error, whatever
    the expected transaction is; [verify] is reached only with the all-zero
    derived sender, and with it [Run] goes on to [verify]. *)
Theorem Run_absent_sender_is_zero `{Collaborators}
    (s : Store) (tx : Transaction) (a : Address)
    (Hdecode : rlp_DecodeBytes (json_RLP (fixture s)) = inl tx)
    (Habsent : json_Sender (fixture s) = None)
    (Hsender : types_Sender (signer_of s) tx = inl a) :
  BytesToAddress (slice_bytes (json_Sender (fixture s))) = repeat x00 20 /\
  (a <> repeat x00 20 ->
   Run s =
   (Return (Some (errors_New ("Sender mismatch: got " ++ x_Address a
                              ++ ", want " ++ x_hexBytes None))), s)) /\
  (Run s = (x <- verify (json_Transaction (fixture s)) (signer_of s) tx ;;
            ret (if isNil x
                 then Some (errors_New "field validations succeeded but should fail")
                 else None)) s ->
   a = repeat x00 20) /\
  (a = repeat x00 20 ->
   Run s = (x <- verify (json_Transaction (fixture s)) (signer_of s) tx ;;
            ret (if isNil x
                 then Some (errors_New "field validations succeeded but should fail")
                 else None)) s).
Proof.
  assert (Hzero : BytesToAddress (slice_bytes (json_Sender (fixture s)))
                  = repeat x00 20) by (rewrite Habsent; reflexivity).
  assert (Hne : a <> repeat x00 20 ->
                Run s =
                (Return (Some (errors_New ("Sender mismatch: got " ++ x_Address a
                                           ++ ", want " ++ x_hexBytes None))), s)).
  { intros Ha. rewrite (Run_sender_differs s tx a Hdecode Hsender).
    - rewrite Habsent. reflexivity.
    - rewrite Hzero. exact Ha. }
  assert (Heq : a = repeat x00 20 ->
                Run s =
                (x <- verify (json_Transaction (fixture s)) (signer_of s) tx ;;
                 ret (if isNil x
                      then Some (errors_New
                                   "field validations succeeded but should fail")
                      else None)) s).
  { intros Ha. rewrite <- Hzero in Ha.
    destruct (json_Transaction (fixture s)) as [t|] eqn:Ht.
    - rewrite (Run_verifies s tx a t Hdecode Hsender Ha Ht).
      rewrite Habsent. unfold bind. rewrite verify_Some. cbn zeta.
      cbn [isNil negb andb].
      destruct (verify_fields t (signer_of s) tx); reflexivity.
    - rewrite (Run_verifies_nil s tx a Hdecode Hsender Ha Ht).
      unfold bind. rewrite verify_nil. reflexivity. }
  repeat split; auto.
  intros HR.
  destruct (list_eq_dec Byte.byte_eq_dec a (repeat x00 20)) as [Ha|Ha];
    [exact Ha|exfalso].
  rewrite (Hne Ha) in HR. unfold bind, ret in HR.
  destruct (json_Transaction (fixture s)) as [t|].
  - rewrite verify_Some in HR.
    destruct (verify_fields t (signer_of s) tx); discriminate HR.
  - rewrite verify_nil in HR. discriminate HR.
Qed.

Lemma Run_absent_sender_is_zero_witness :
  (BytesToAddress
     (slice_bytes (json_Sender (fixture (Sample.store 0 [xf8; x01] None None))))
   = repeat x00 20 /\
   Sample.alice <> repeat x00 20 /\
   Run (Sample.store 0 [xf8; x01] None None)
   = (Return
        (Some
           (errorString
              "Sender mismatch: got 00000000000000000000000000000000000a11ce, want ")),
      Sample.store 0 [xf8; x01] None None)) /\
  (types_Sender
     (signer_of (Sample.store 0 [xf8; x04] None (Some Sample.wrong_gas)))
     Sample.burnt = inl (repeat x00 20) /\
   Run (Sample.store 0 [xf8; x04] None (Some Sample.wrong_gas))
   = (Return None, Sample.store 0 [xf8; x04] None (Some Sample.wrong_gas))) /\
  (types_Sender (signer_of (Sample.store 0 [xf8; x04] None None)) Sample.burnt
   = inl (repeat x00 20) /\
   Run (Sample.store 0 [xf8; x04] None None)
   = (Panic, Sample.store 0 [xf8; x04] None None)).
Proof.
  split; [|split].
  - split.
    + exact (proj1 (Run_absent_sender_is_zero
                      (Sample.store 0 [xf8; x01] None None)
                      Sample.transfer Sample.alice eq_refl eq_refl eq_refl)).
    + split; [discriminate|].
      apply (proj1 (proj2 (Run_absent_sender_is_zero
                             (Sample.store 0 [xf8; x01] None None)
                             Sample.transfer Sample.alice
                             eq_refl eq_refl eq_refl))).
      discriminate.
  - split; [reflexivity|].
    rewrite (proj2 (proj2 (proj2 (Run_absent_sender_is_zero
                                    (Sample.store 0 [xf8; x04] None
                                       (Some Sample.wrong_gas))
                                    Sample.burnt (repeat x00 20)
                                    eq_refl eq_refl eq_refl))) eq_refl).
    reflexivity.
  - split; [reflexivity|].
    rewrite (proj2 (proj2 (proj2 (Run_absent_sender_is_zero
                                    (Sample.store 0 [xf8; x04] None None)
                                    Sample.burnt (repeat x00 20)
                                    eq_refl eq_refl eq_refl))) eq_refl).
    reflexivity.
Defined.


(** The comparison of line 84 is made for a fixture without a sender too,
    where it is one with the all-zero address (C7).  It stands before the
    two tests that [Run] has for such a fixture, and keeps a run with
    another derived sender from them: of the two fixtures below, the first
    fails validation and the second passes it, and [Run] returns the
    sender-mismatch error for both. *)
Example Run_absent_sender_compared :
  (verify (Some Sample.wrong_gas) Sample.Base Sample.transfer
     (Sample.store 0 [xf8; x01] None (Some Sample.wrong_gas))
   = (Return (Some (errorString "GasLimit mismatch: got 2000, want 2001")),
      Sample.store 0 [xf8; x01] None (Some Sample.wrong_gas)) /\
   Run (Sample.store 0 [xf8; x01] None (Some Sample.wrong_gas))
   = (Return
        (Some
           (errorString
              "Sender mismatch: got 00000000000000000000000000000000000a11ce, want ")),
      Sample.store 0 [xf8; x01] None (Some Sample.wrong_gas))) /\
  (verify (Some Sample.transfer_fields) Sample.Base Sample.transfer
     (Sample.store 0 [xf8; x01] None (Some Sample.transfer_fields))
   = (Return None, Sample.store 0 [xf8; x01] None (Some Sample.transfer_fields)) /\
   Run (Sample.store 0 [xf8; x01] None (Some Sample.transfer_fields))
   = (Return
        (Some
           (errorString
              "Sender mismatch: got 00000000000000000000000000000000000a11ce, want ")),
      Sample.store 0 [xf8; x01] None (Some Sample.transfer_fields))).
Proof. repeat split. Qed.



(** ** Field validation *)

Lemma differs_agrees (f : field) (t : ttTransaction) (tx : Transaction) :
  differs f t tx = false <-> agrees f t tx.
Proof.
  destruct f; simpl; unfold recipient_agrees;
    try destruct (tx_To tx) as [to|];
    rewrite negb_false_iff;
    first [ apply bytes_Equal_eq | apply N.eqb_eq | apply Cmp_eq
          | apply Address_eqb_eq ].
Qed.

Lemma differs_disagrees (f : field) (t : ttTransaction) (tx : Transaction) :
  differs f t tx = true <-> ~ agrees f t tx.
Proof.
  rewrite <- differs_agrees. destruct (differs f t tx); split; congruence.
Qed.

(** [verify] reports the first field, in its order, whose test finds a
    mismatch, and returns nil when no test does. *)
Lemma verify_fields_scan `{Collaborators}
    (t : ttTransaction) (signer : Signer) (tx : Transaction) :
  verify_fields t signer tx =
  match find (fun f => differs f t tx) order with
  | Some f => Some (errors_New (mismatch f t tx))
  | None => None
  end.
Proof.
  unfold verify_fields, order, RawSignatureValues.
  cbn [find differs].
  destruct (tx_To tx) as [to|] eqn:Eto;
    repeat match goal with
           | |- context [if negb ?b then _ else _] => destruct b; cbn [negb]
           end;
    cbn [mismatch]; rewrite ?Eto; reflexivity.
Qed.

Lemma order_complete (f : field) : In f order.
Proof. destruct f; simpl; tauto. Qed.

Lemma verify_fields_nil_iff `{Collaborators}
    (t : ttTransaction) (signer : Signer) (tx : Transaction) :
  verify_fields t signer tx = None <-> forall f, agrees f t tx.
Proof.
  rewrite verify_fields_scan.
  destruct (find (fun f => differs f t tx) order) as [f|] eqn:Hfind.
  - apply find_some in Hfind. destruct Hfind as [_ Hf].
    apply differs_disagrees in Hf.
    split; [discriminate | intros Hall; now destruct Hf].
  - split; [intros _ f | reflexivity].
    apply differs_agrees.
    exact (find_none _ _ Hfind f (order_complete f)).
Qed.

Lemma verify_fields_single `{Collaborators}
    (t : ttTransaction) (signer : Signer) (tx : Transaction) (f : field) :
  ~ agrees f t tx ->
  (forall g, g <> f -> agrees g t tx) ->
  verify_fields t signer tx = Some (errors_New (mismatch f t tx)).
Proof.
  intros Hf Hothers. rewrite verify_fields_scan.
  apply differs_disagrees in Hf.
  assert (Hg : forall g, g <> f -> differs g t tx = false)
    by (intros g Hne; apply differs_agrees, Hothers, Hne).
  unfold order.
  destruct f; cbn [find];
    repeat (first [ rewrite Hf | rewrite Hg by discriminate ]);
    reflexivity.
Qed.

Lemma verify_fields_names_field `{Collaborators}
    (t : ttTransaction) (signer : Signer) (tx : Transaction) (e : error) :
  verify_fields t signer tx = Some e ->
  exists f, ~ agrees f t tx /\ e = errors_New (mismatch f t tx).
Proof.
  rewrite verify_fields_scan.
  destruct (find (fun f => differs f t tx) order) as [f|] eqn:Hfind;
    [|discriminate].
  intros [= <-]. exists f. split; [|reflexivity].
  apply differs_disagrees. now apply find_some in Hfind.
Qed.

(** C6.  [verify] returns nil exactly when the decoded transaction agrees
    with the expected fields on every field: the same bytes for the data, the
    same number for gas limit, gas price, nonce, r, s, v and value (numbers
    are compared as numbers, whatever width they were written in), and the
    recipient rule.  A discrepancy in a single field makes it return an
    error whose message names that field and renders the decoded and the
    expected value, and every error it returns is of that kind. *)
Theorem verify_field_equality `{Collaborators}
    (t : ttTransaction) (signer : Signer) (tx : Transaction) (s : Store) :
  (verify (Some t) signer tx s = (Return None, s) <->
   forall f, agrees f t tx) /\
  (forall f,
     ~ agrees f t tx ->
     (forall g, g <> f -> agrees g t tx) ->
     verify (Some t) signer tx s =
     (Return (Some (errors_New (mismatch f t tx))), s)) /\
  (forall e,
     verify (Some t) signer tx s = (Return (Some e), s) ->
     exists f, ~ agrees f t tx /\ e = errors_New (mismatch f t tx)).
Proof.
  rewrite verify_Some. repeat split.
  - intros [= Hnil]. exact (proj1 (verify_fields_nil_iff t signer tx) Hnil).
  - intros Hall. now rewrite (proj2 (verify_fields_nil_iff t signer tx) Hall).
  - intros f Hf Hothers.
    now rewrite (verify_fields_single t signer tx f Hf Hothers).
  - intros e [= He]. now apply verify_fields_names_field with signer.
Qed.

Lemma verify_field_equality_witness :
  (~ agrees F_GasLimit Sample.wrong_gas Sample.transfer /\
   (forall g, g <> F_GasLimit -> agrees g Sample.wrong_gas Sample.transfer) /\
   verify (Some Sample.wrong_gas) Sample.Base Sample.transfer
     (Sample.store 0 [xf8; x01] (Some Sample.alice) (Some Sample.wrong_gas))
   = (Return (Some (errorString "GasLimit mismatch: got 2000, want 2001")),
      Sample.store 0 [xf8; x01] (Some Sample.alice) (Some Sample.wrong_gas))) /\
  (exists f,
     ~ agrees f Sample.wrong_gas Sample.transfer /\
     errorString "GasLimit mismatch: got 2000, want 2001"
     = errors_New (mismatch f Sample.wrong_gas Sample.transfer)) /\
  ((forall f, agrees f Sample.transfer_fields Sample.transfer) /\
   verify (Some Sample.transfer_fields) Sample.Base Sample.transfer
     (Sample.store 0 [xf8; x01] (Some Sample.alice) (Some Sample.transfer_fields))
   = (Return None,
      Sample.store 0 [xf8; x01] (Some Sample.alice)
        (Some Sample.transfer_fields))).
Proof.
  assert (Hf : ~ agrees F_GasLimit Sample.wrong_gas Sample.transfer)
    by discriminate.
  assert (Hg : forall g, g <> F_GasLimit ->
                         agrees g Sample.wrong_gas Sample.transfer)
    by (intros g Hne; destruct g; solve [reflexivity | now destruct Hne]).
  assert (Hall : forall f, agrees f Sample.transfer_fields Sample.transfer)
    by (intros f; destruct f; reflexivity).
  split; [|split].
  - split; [exact Hf|]. split; [exact Hg|].
    exact (proj1 (proj2 (verify_field_equality Sample.wrong_gas Sample.Base
                           Sample.transfer
                           (Sample.store 0 [xf8; x01] (Some Sample.alice)
                              (Some Sample.wrong_gas))))
             F_GasLimit Hf Hg).
  - exact (proj2 (proj2 (verify_field_equality (H:=Sample.collaborators)
                           Sample.wrong_gas Sample.Base Sample.transfer
                           (Sample.store 0 [xf8; x01] (Some Sample.alice)
                              (Some Sample.wrong_gas))))
             (errorString "GasLimit mismatch: got 2000, want 2001") eq_refl).
  - split; [exact Hall|].
    exact (proj2 (proj1 (verify_field_equality (H:=Sample.collaborators)
                           Sample.transfer_fields Sample.Base Sample.transfer
                           (Sample.store 0 [xf8; x01] (Some Sample.alice)
                              (Some Sample.transfer_fields))))
             Hall).
Defined.

(** C5.  With the other fields in agreement: for a decoded transaction
    without recipient, [verify] succeeds exactly when the recipient of the
    fixture is the all-zero 20-byte value, and fails otherwise with the
    message of the no-recipient check, in which no decoded address takes
    part; for a decoded transaction with a recipient, [verify] succeeds
    exactly when the two addresses are equal. *)
Theorem verify_recipient `{Collaborators}
    (t : ttTransaction) (signer : Signer) (tx : Transaction) (s : Store)
    (Hothers : forall f, f <> F_To -> agrees f t tx) :
  (tx_To tx = None ->
   (verify (Some t) signer tx s = (Return None, s) <->
    tt_To t = repeat x00 20) /\
   (tt_To t <> repeat x00 20 ->
    verify (Some t) signer tx s =
    (Return (Some (errors_New
                     ("To mismatch when recipient is nil (contract creation): "
                      ++ x_Address (tt_To t)))), s))) /\
  (forall to : Address,
     tx_To tx = Some to ->
     (verify (Some t) signer tx s = (Return None, s) <-> to = tt_To t) /\
     (to <> tt_To t ->
      verify (Some t) signer tx s =
      (Return (Some (errors_New ("To mismatch: got " ++ x_Address to
                                 ++ ", want " ++ x_Address (tt_To t)))), s))).
Proof.
  rewrite verify_Some.
  assert (Hiff : verify_fields t signer tx = None <-> recipient_agrees t tx).
  { rewrite verify_fields_nil_iff. split.
    - intros Hall. exact (Hall F_To).
    - intros Hto f. destruct f; try (apply Hothers; discriminate). exact Hto. }
  assert (Hfail : ~ recipient_agrees t tx ->
                  verify_fields t signer tx
                  = Some (errors_New (mismatch F_To t tx)))
    by (intros Hto; now apply verify_fields_single).
  unfold recipient_agrees in Hiff, Hfail. cbn [mismatch] in Hfail.
  split.
  - intros Hnone. rewrite Hnone in Hiff, Hfail. split.
    + rewrite <- Hiff. split; [now intros [= ->] | now intros ->].
    + intros Hne. now rewrite (Hfail Hne).
  - intros to Hsome. rewrite Hsome in Hiff, Hfail. split.
    + rewrite <- Hiff. split; [now intros [= ->] | now intros ->].
    + intros Hne. now rewrite (Hfail Hne).
Qed.

Lemma verify_recipient_witness :
  ((forall f, f <> F_To -> agrees f Sample.creation_fields Sample.creation) /\
   tx_To Sample.creation = None /\
   tt_To Sample.creation_fields = repeat x00 20 /\
   verify (Some Sample.creation_fields) Sample.Base Sample.creation
     (Sample.store 0 [xf8; x02] (Some Sample.alice) (Some Sample.creation_fields))
   = (Return None,
      Sample.store 0 [xf8; x02] (Some Sample.alice)
        (Some Sample.creation_fields))) /\
  ((forall f, f <> F_To -> agrees f Sample.creation_to_bob Sample.creation) /\
   tt_To Sample.creation_to_bob <> repeat x00 20 /\
   verify (Some Sample.creation_to_bob) Sample.Base Sample.creation
     (Sample.store 0 [xf8; x02] (Some Sample.alice) (Some Sample.creation_to_bob))
   = (Return
        (Some
           (errorString
              ("To mismatch when recipient is nil (contract creation): "
               ++ "0000000000000000000000000000000000000b0b"))),
      Sample.store 0 [xf8; x02] (Some Sample.alice)
        (Some Sample.creation_to_bob))) /\
  ((forall f, f <> F_To -> agrees f Sample.transfer_to_alice Sample.transfer) /\
   tx_To Sample.transfer = Some Sample.bob /\
   Sample.bob <> tt_To Sample.transfer_to_alice /\
   verify (Some Sample.transfer_to_alice) Sample.Base Sample.transfer
     (Sample.store 0 [xf8; x01] (Some Sample.alice)
        (Some Sample.transfer_to_alice))
   = (Return
        (Some
           (errorString
              ("To mismatch: got 0000000000000000000000000000000000000b0b"
               ++ ", want 00000000000000000000000000000000000a11ce"))),
      Sample.store 0 [xf8; x01] (Some Sample.alice)
        (Some Sample.transfer_to_alice))).
Proof.
  assert (H1 : forall f, f <> F_To ->
                         agrees f Sample.creation_fields Sample.creation)
    by (intros f Hne; destruct f; solve [reflexivity | now destruct Hne]).
  assert (H2 : forall f, f <> F_To ->
                         agrees f Sample.creation_to_bob Sample.creation)
    by (intros f Hne; destruct f; solve [reflexivity | now destruct Hne]).
  assert (H3 : forall f, f <> F_To ->
                         agrees f Sample.transfer_to_alice Sample.transfer)
    by (intros f Hne; destruct f; solve [reflexivity | now destruct Hne]).
  split; [|split].
  - split; [exact H1|]. split; [reflexivity|]. split; [reflexivity|].
    apply (proj1 (proj1 (verify_recipient (H:=Sample.collaborators)
                           Sample.creation_fields Sample.Base Sample.creation
                           (Sample.store 0 [xf8; x02] (Some Sample.alice)
                              (Some Sample.creation_fields)) H1)
                    eq_refl)).
    reflexivity.
  - split; [exact H2|]. split; [discriminate|].
    apply (proj2 (proj1 (verify_recipient (H:=Sample.collaborators)
                           Sample.creation_to_bob Sample.Base Sample.creation
                           (Sample.store 0 [xf8; x02] (Some Sample.alice)
                              (Some Sample.creation_to_bob)) H2)
                    eq_refl)).
    discriminate.
  - split; [exact H3|]. split; [reflexivity|]. split; [discriminate|].
    apply (proj2 (proj2 (verify_recipient (H:=Sample.collaborators)
                           Sample.transfer_to_alice Sample.Base Sample.transfer
                           (Sample.store 0 [xf8; x01] (Some Sample.alice)
                              (Some Sample.transfer_to_alice)) H3)
                    Sample.bob eq_refl)).
    discriminate.
Defined.

(** ** Error values *)

(** C9, as the specification has it, fails.  The error [Run] returns for a
    wrong gas limit, and the one it returns for bytes that do not decode when
    a transaction is expected, are values made by [fmt.Errorf]: each holds a
    message and nothing else.  The field name and the two values are in the
    text only, and of the decoder's error there is its text only. *)
Lemma Run_error_context_counterexample :
  (Run (Sample.store 0 [xf8; x01] (Some Sample.alice) (Some Sample.wrong_gas))
   = (Return
        (Some
           (errorString
              ("field validations failed after RLP DEWHoding: "
               ++ "GasLimit mismatch: got 2000, want 2001"))),
      Sample.store 0 [xf8; x01] (Some Sample.alice) (Some Sample.wrong_gas)) /\
   message_only
     (errorString
        ("field validations failed after RLP DEWHoding: "
         ++ "GasLimit mismatch: got 2000, want 2001")) = true) /\
  (Run (Sample.store 0 [xc0] None (Some Sample.transfer_fields))
   = (Return (Some (errorString "RLP DEWHoding failed: rlp: too few elements")),
      Sample.store 0 [xc0] None (Some Sample.transfer_fields)) /\
   message_only (errorString "RLP DEWHoding failed: rlp: too few elements")
   = true).
Proof. repeat split. Qed.

(** C9, amended.  An error returned by [Run] is either the error of sender
    derivation, returned as the collaborator made it, or a value that holds a
    message and nothing else.  The message is one of four texts: the
    rendering of the decoder's error after a fixed prefix; the renderings of
    the derived sender and of the fixture's sender bytes; the fixed text for
    an unexpected success; or, after a fixed prefix, the message [verify]
    has for a field that does not agree. *)
Theorem Run_errors_are_messages `{Collaborators}
    (s s' : Store) (e : error)
    (Hrun : Run s = (Return (Some e), s')) :
  (exists (tx : Transaction) (fe : foreign),
     rlp_DecodeBytes (json_RLP (fixture s)) = inl tx /\
     types_Sender (signer_of s) tx = inr fe /\
     e = foreignError fe) \/
  (message_only e = true /\
   ((exists fe : foreign,
       rlp_DecodeBytes (json_RLP (fixture s)) = inr fe /\
       Error e = "RLP DEWHoding failed: " ++ foreign_Error fe) \/
    (exists (tx : Transaction) (a : Address),
       rlp_DecodeBytes (json_RLP (fixture s)) = inl tx /\
       types_Sender (signer_of s) tx = inl a /\
       Error e = "Sender mismatch: got " ++ x_Address a
                 ++ ", want " ++ x_hexBytes (json_Sender (fixture s))) \/
    Error e = "field validations succeeded but should fail" \/
    (exists (tx : Transaction) (t : ttTransaction) (f : field),
       rlp_DecodeBytes (json_RLP (fixture s)) = inl tx /\
       json_Transaction (fixture s) = Some t /\
       ~ agrees f t tx /\
       Error e = "field validations failed after RLP DEWHoding: "
                 ++ mismatch f t tx))).
Proof.
  destruct (rlp_DecodeBytes (json_RLP (fixture s))) as [tx|fe] eqn:Hd.
  - destruct (types_Sender (signer_of s) tx) as [a|fe] eqn:Hs.
    + destruct (list_eq_dec Byte.byte_eq_dec a
                  (BytesToAddress (slice_bytes (json_Sender (fixture s)))))
        as [Ha|Ha].
      * destruct (json_Transaction (fixture s)) as [t|] eqn:Ht.
        -- rewrite (Run_verifies s tx a t Hd Hs Ha Ht) in Hrun. cbn zeta in Hrun.
           destruct (verify_fields t (signer_of s) tx) as [ve|] eqn:Hv;
             destruct (json_Sender (fixture s));
             cbn [isNil negb andb s_error] in Hrun;
             try discriminate Hrun; injection Hrun as <- _.
           ++ right. split; [reflexivity|]. right. right. right.
              destruct (verify_fields_names_field _ _ _ _ Hv) as (f & Hf & ->).
              exists tx, t, f. auto.
           ++ right. split; [reflexivity|]. right. right. left. reflexivity.
        -- rewrite (Run_verifies_nil s tx a Hd Hs Ha Ht) in Hrun.
           discriminate Hrun.
      * rewrite (Run_sender_differs s tx a Hd Hs Ha) in Hrun.
        injection Hrun as <- _.
        right. split; [reflexivity|]. right. left. exists tx, a. auto.
    + rewrite (Run_sender_fails s tx fe Hd Hs) in Hrun.
      injection Hrun as <- _. left. exists tx, fe. auto.
  - rewrite (Run_decode_fails s fe Hd) in Hrun.
    destruct (json_Transaction (fixture s)); try discriminate Hrun.
    injection Hrun as <- _.
    right. split; [reflexivity|]. left. exists fe. auto.
Qed.

Lemma Run_errors_are_messages_witness :
  Run (Sample.store 0 [xf8; x01] (Some Sample.alice) (Some Sample.wrong_gas))
  = (Return
       (Some
          (errorString
             ("field validations failed after RLP DEWHoding: "
              ++ "GasLimit mismatch: got 2000, want 2001"))),
     Sample.store 0 [xf8; x01] (Some Sample.alice) (Some Sample.wrong_gas)) /\
  ((exists (tx : Transaction) (fe : foreign),
      rlp_DecodeBytes
        (json_RLP (fixture (Sample.store 0 [xf8; x01] (Some Sample.alice)
                              (Some Sample.wrong_gas)))) = inl tx /\
      types_Sender
        (signer_of (Sample.store 0 [xf8; x01] (Some Sample.alice)
                      (Some Sample.wrong_gas))) tx = inr fe /\
      errorString
        ("field validations failed after RLP DEWHoding: "
         ++ "GasLimit mismatch: got 2000, want 2001") = foreignError fe) \/
   message_only
     (errorString
        ("field validations failed after RLP DEWHoding: "
         ++ "GasLimit mismatch: got 2000, want 2001")) = true).
Proof.
  split; [reflexivity|].
  destruct (Run_errors_are_messages
              (Sample.store 0 [xf8; x01] (Some Sample.alice)
                 (Some Sample.wrong_gas))
              (Sample.store 0 [xf8; x01] (Some Sample.alice)
                 (Some Sample.wrong_gas))
              (errorString
                 ("field validations failed after RLP DEWHoding: "
                  ++ "GasLimit mismatch: got 2000, want 2001"))
              eq_refl) as [Hforeign|[Hmessage _]].
  - left. exact Hforeign.
  - right. exact Hmessage.
Defined.

(** * Further properties of the harness *)

Lemma find_skip {A : Type} (p : A -> bool) (before l : list A) :
  (forall x, In x before -> p x = false) ->
  find p (before ++ l)%list = find p l.
Proof.
  induction before as [|a before IH]; intros Hall; [reflexivity|].
  cbn [app find]. rewrite (Hall a) by (left; reflexivity).
  apply IH. intros x Hx. apply Hall. now right.
Qed.

(** X1. [verify] goes through the fields in the order data, gas limit, gas
    price, nonce, r, s, v, recipient, value, and reports the first
    mismatch it meets: when the fields before [f] agree and [f] does not,
    the error is the one of [f], whatever the fields after [f] hold. *)
Theorem verify_reports_first_mismatch `{Collaborators}
    (t : ttTransaction) (signer : Signer) (tx : Transaction) (s : Store)
    (before after : list field) (f : field)
    (Horder : order = (before ++ f :: after)%list)
    (Hbefore : forall g, In g before -> agrees g t tx)
    (Hf : ~ agrees f t tx) :
  verify (Some t) signer tx s
  = (Return (Some (errors_New (mismatch f t tx))), s).
Proof.
  rewrite verify_Some, verify_fields_scan, Horder.
  rewrite find_skip by (intros g Hg; apply differs_agrees, Hbefore, Hg).
  cbn [find]. now rewrite (proj2 (differs_disagrees f t tx) Hf).
Qed.

Lemma verify_reports_first_mismatch_witness :
  order = ([F_Data] ++ F_GasLimit :: [F_GasPrice; F_Nonce; F_R; F_S; F_V; F_To;
                                      F_Value])%list /\
  ~ agrees F_GasLimit
      (mkttTransaction [x55; x44] 2001 1 3 11 7 9 28 Sample.alice)
      Sample.transfer /\
  ~ agrees F_Value
      (mkttTransaction [x55; x44] 2001 1 3 11 7 9 28 Sample.alice)
      Sample.transfer /\
  verify (Some (mkttTransaction [x55; x44] 2001 1 3 11 7 9 28 Sample.alice))
    Sample.Base Sample.transfer (Sample.store 0 [] None None)
  = (Return (Some (errorString "GasLimit mismatch: got 2000, want 2001")),
     Sample.store 0 [] None None).
Proof.
  split; [reflexivity|]. split; [discriminate|]. split; [discriminate|].
  apply (verify_reports_first_mismatch (H:=Sample.collaborators)
           (mkttTransaction [x55; x44] 2001 1 3 11 7 9 28 Sample.alice)
           Sample.Base Sample.transfer (Sample.store 0 [] None None)
           [F_Data] [F_GasPrice; F_Nonce; F_R; F_S; F_V; F_To; F_Value]
           F_GasLimit eq_refl).
  - intros g [<-|[]]. reflexivity.
  - discriminate.
Defined.

(** X2. [Run] returns success in two situations and in no other: the bytes do
    not decode and no transaction is expected; or the bytes decode, the
    sender is derived and equals the address of the fixture's sender bytes,
    a transaction is expected, and [verify] fails when the fixture has no
    sender and succeeds when it has one. *)
Theorem Run_success_iff `{Collaborators} (s : Store) :
  Run s = (Return None, s) <->
  (exists e : foreign,
     rlp_DecodeBytes (json_RLP (fixture s)) = inr e /\
     json_Transaction (fixture s) = None) \/
  (exists (tx : Transaction) (t : ttTransaction),
     rlp_DecodeBytes (json_RLP (fixture s)) = inl tx /\
     types_Sender (signer_of s) tx
     = inl (BytesToAddress (slice_bytes (json_Sender (fixture s)))) /\
     json_Transaction (fixture s) = Some t /\
     isNil (json_Sender (fixture s))
     = negb (isNil (verify_fields t (signer_of s) tx))).
Proof.
  destruct (rlp_DecodeBytes (json_RLP (fixture s))) as [tx|fe] eqn:Hd.
  - destruct (types_Sender (signer_of s) tx) as [a|fe] eqn:Hs.
    + destruct (list_eq_dec Byte.byte_eq_dec a
                  (BytesToAddress (slice_bytes (json_Sender (fixture s)))))
        as [Ha|Ha].
      * destruct (json_Transaction (fixture s)) as [t|] eqn:Ht.
        -- rewrite (Run_verifies s tx a t Hd Hs Ha Ht). cbn zeta.
           split.
           ++ intros HR. right. exists tx, t.
              repeat split; [congruence|].
              destruct (json_Sender (fixture s));
                destruct (verify_fields t (signer_of s) tx);
                cbn [isNil negb andb] in *; try discriminate HR; reflexivity.
           ++ intros [(e & He & _)|(tx' & t' & Htx & _ & Ht' & Hv)];
                [discriminate He|].
              injection Htx as <-. injection Ht' as <-.
              destruct (json_Sender (fixture s));
                destruct (verify_fields t (signer_of s) tx);
                cbn [isNil negb andb] in *; try discriminate Hv; reflexivity.
        -- rewrite (Run_verifies_nil s tx a Hd Hs Ha Ht).
           split; [discriminate|].
           intros [(e & He & _)|(tx' & t' & _ & _ & Ht' & _)]; discriminate.
      * rewrite (Run_sender_differs s tx a Hd Hs Ha).
        split; [discriminate|].
        intros [(e & He & _)|(tx' & t' & Htx & Hs' & _)]; [discriminate He|].
        injection Htx as <-. congruence.
    + rewrite (Run_sender_fails s tx fe Hd Hs).
      split; [discriminate|].
      intros [(e & He & _)|(tx' & t' & Htx & Hs' & _)]; [discriminate He|].
      injection Htx as <-. congruence.
  - rewrite (Run_decode_fails s fe Hd).
    destruct (json_Transaction (fixture s)) as [t|] eqn:Ht.
    + split; [discriminate|].
      intros [(e & _ & Hn)|(tx' & t' & Htx & _)]; discriminate.
    + split; [|reflexivity]. intros _. left. now exists fe.
Qed.

(** X3. [Run] panics in one situation and in no other: the bytes decode, the
    sender is derived and equals the address of the fixture's sender bytes,
    and the fixture has no transaction object.  In particular it does not
    panic on a fixture that declares a transaction. *)
Theorem Run_panics_iff `{Collaborators} (s : Store) :
  Run s = (Panic, s) <->
  exists tx : Transaction,
    rlp_DecodeBytes (json_RLP (fixture s)) = inl tx /\
    types_Sender (signer_of s) tx
    = inl (BytesToAddress (slice_bytes (json_Sender (fixture s)))) /\
    json_Transaction (fixture s) = None.
Proof.
  destruct (rlp_DecodeBytes (json_RLP (fixture s))) as [tx|fe] eqn:Hd.
  - destruct (types_Sender (signer_of s) tx) as [a|fe] eqn:Hs.
    + destruct (list_eq_dec Byte.byte_eq_dec a
                  (BytesToAddress (slice_bytes (json_Sender (fixture s)))))
        as [Ha|Ha].
      * destruct (json_Transaction (fixture s)) as [t|] eqn:Ht.
        -- rewrite (Run_verifies s tx a t Hd Hs Ha Ht).
           split; [discriminate|]. intros (tx' & _ & _ & Hn). discriminate Hn.
        -- rewrite (Run_verifies_nil s tx a Hd Hs Ha Ht).
           split; [|reflexivity]. intros _. exists tx. repeat split. congruence.
      * rewrite (Run_sender_differs s tx a Hd Hs Ha).
        split; [discriminate|]. intros (tx' & Htx & Hs' & _).
        injection Htx as <-. congruence.
    + rewrite (Run_sender_fails s tx fe Hd Hs).
      split; [discriminate|]. intros (tx' & Htx & Hs' & _).
      injection Htx as <-. congruence.
  - rewrite (Run_decode_fails s fe Hd).
    split; [|intros (tx' & Htx & _); discriminate Htx].
    destruct (json_Transaction (fixture s)); discriminate.
Qed.

(** X4. A sender that is present but empty is not an absent sender.  Take
    two fixtures that declare the same transaction object and differ in the
    sender only, nil in one and empty in the other, whose bytes decode to a
    transaction whose derived sender is the address of the empty bytes.
    [Run] succeeds on the one with the nil sender exactly when it does not
    succeed on the other, and it succeeds on the one with the empty sender
    exactly when [verify] returns nil. *)
Theorem Run_nil_sender_is_not_empty_sender `{Collaborators}
    (number : uint64) (rlp : bytes) (t : ttTransaction) (cfg : ChainConfig)
    (tx : Transaction)
    (Hdecode : rlp_DecodeBytes rlp = inl tx)
    (Hsender : types_Sender (types_MakeSigner cfg (big.SetUint64 number)) tx
               = inl (BytesToAddress [])) :
  let absent := {| this := {| json := mkttJSON number rlp None (Some t) |};
                   config := cfg |} in
  let empty := {| this := {| json := mkttJSON number rlp (Some []) (Some t) |};
                  config := cfg |} in
  (Run absent = (Return None, absent) <-> Run empty <> (Return None, empty)) /\
  (Run empty = (Return None, empty) <->
   verify (Some t) (types_MakeSigner cfg (big.SetUint64 number)) tx empty
   = (Return None, empty)).
Proof.
  intros absent empty.
  rewrite (Run_verifies absent tx (BytesToAddress []) t Hdecode Hsender
             eq_refl eq_refl).
  rewrite (Run_verifies empty tx (BytesToAddress []) t Hdecode Hsender
             eq_refl eq_refl).
  rewrite verify_Some.
  change (signer_of absent) with (types_MakeSigner cfg (big.SetUint64 number)).
  change (signer_of empty) with (types_MakeSigner cfg (big.SetUint64 number)).
  unfold absent, empty, fixture.
  cbn [this json json_Sender isNil negb andb]. cbn zeta.
  destruct (verify_fields t (types_MakeSigner cfg (big.SetUint64 number)) tx);
    cbn [isNil negb andb]; split; split; intros Hx;
    solve [reflexivity | discriminate | congruence].
Qed.

Lemma Run_nil_sender_is_not_empty_sender_witness :
  Run (Sample.store 0 [xf8; x04] None (Some Sample.burnt_fields))
  <> (Return None, Sample.store 0 [xf8; x04] None (Some Sample.burnt_fields)) /\
  Run (Sample.store 0 [xf8; x04] (Some []) (Some Sample.burnt_fields))
  = (Return None, Sample.store 0 [xf8; x04] (Some []) (Some Sample.burnt_fields)).
Proof.
  pose proof (Run_nil_sender_is_not_empty_sender (H:=Sample.collaborators)
                0 [xf8; x04] Sample.burnt_fields Sample.mainnet Sample.burnt
                eq_refl eq_refl) as [H1 H2].
  assert (He : Run (Sample.store 0 [xf8; x04] (Some []) (Some Sample.burnt_fields))
               = (Return None,
                  Sample.store 0 [xf8; x04] (Some []) (Some Sample.burnt_fields)))
    by (apply H2; reflexivity).
  split; [|exact He].
  intros Ha. apply (proj1 H1 Ha). exact He.
Defined.

(** ** Sparse bitset compression of package [bitutil] *)

Section BitutilProperties.

Import bitutil.
Local Open Scope list_scope.

Lemma to_N_byte_of_N (n : N) : Byte.to_N (byte_of_N n) = (n mod 256)%N.
Proof.
  unfold byte_of_N.
  destruct (Byte.of_N (n mod 256)) as [b|] eqn:Hb.
  - now apply Byte.to_of_N.
  - apply Byte.of_N_None_iff in Hb.
    pose proof (N.mod_upper_bound n 256). lia.
Qed.

Lemma to_N_inj (a b : byte) : Byte.to_N a = Byte.to_N b -> a = b.
Proof.
  intros H. pose proof (Byte.of_to_N a) as Ha. rewrite H, Byte.of_to_N in Ha.
  congruence.
Qed.

Lemma to_N_high (b : byte) (k : N) : (8 <= k)%N -> N.testbit (Byte.to_N b) k = false.
Proof.
  intros Hk. pose proof (Byte.to_N_bounded b) as Hb.
  destruct (N.eq_dec (Byte.to_N b) 0) as [->|Hz]; [apply N.bits_0|].
  apply N.bits_above_log2.
  assert (N.log2 (Byte.to_N b) < 8)%N; [|lia].
  apply N.log2_lt_pow2; [lia|]. change (2 ^ 8)%N with 256%N. lia.
Qed.

Lemma to_N_or (a b : byte) : Byte.to_N (byte_or a b) = N.lor (Byte.to_N a) (Byte.to_N b).
Proof.
  unfold byte_or. rewrite to_N_byte_of_N. change 256%N with (2 ^ 8)%N.
  apply N.bits_inj. intros k.
  destruct (N.lt_ge_cases k 8) as [Hk|Hk].
  - now rewrite N.mod_pow2_bits_low.
  - rewrite N.mod_pow2_bits_high by exact Hk.
    now rewrite N.lor_spec, !to_N_high.
Qed.

Lemma to_N_and (a b : byte) : Byte.to_N (byte_and a b) = N.land (Byte.to_N a) (Byte.to_N b).
Proof.
  unfold byte_and. rewrite to_N_byte_of_N. change 256%N with (2 ^ 8)%N.
  apply N.bits_inj. intros k.
  destruct (N.lt_ge_cases k 8) as [Hk|Hk].
  - now rewrite N.mod_pow2_bits_low.
  - rewrite N.mod_pow2_bits_high by exact Hk.
    now rewrite N.land_spec, !to_N_high.
Qed.

Lemma to_N_mask (i : nat) : Byte.to_N (mask i) = (2 ^ N.of_nat (7 - i mod 8))%N.
Proof.
  unfold mask. rewrite to_N_byte_of_N, N.shiftl_1_l.
  apply N.mod_small. change 256%N with (2 ^ 8)%N.
  apply N.pow_lt_mono_r; lia.
Qed.

Lemma test_testbit (b : byte) (i : nat) :
  test b i = N.testbit (Byte.to_N b) (N.of_nat (7 - i mod 8)).
Proof.
  unfold test.
  assert (H : N.land (Byte.to_N b) (2 ^ N.of_nat (7 - i mod 8))
              = if N.testbit (Byte.to_N b) (N.of_nat (7 - i mod 8))
                then (2 ^ N.of_nat (7 - i mod 8))%N else 0%N).
  { apply N.bits_inj. intros k. rewrite N.land_spec, N.pow2_bits_eqb.
    destruct (N.eqb_spec (N.of_nat (7 - i mod 8)) k) as [<-|Hne].
    - rewrite andb_true_r.
      destruct (N.testbit (Byte.to_N b) _); [now rewrite N.pow2_bits_true | now rewrite N.bits_0].
    - rewrite andb_false_r.
      destruct (N.testbit (Byte.to_N b) _); [now rewrite N.pow2_bits_false | now rewrite N.bits_0]. }
  destruct (Byte.eqb (byte_and b (mask i)) x00) eqn:He.
  - apply Byte.byte_dec_bl in He. apply (f_equal Byte.to_N) in He.
    rewrite to_N_and, to_N_mask, H in He.
    destruct (N.testbit (Byte.to_N b) _); [|reflexivity].
    exfalso. change (Byte.to_N x00) with 0%N in He.
    pose proof (N.pow_nonzero 2 (N.of_nat (7 - i mod 8))). lia.
  - simpl. destruct (N.testbit (Byte.to_N b) _) eqn:Ht; [reflexivity|].
    exfalso. apply Byte.eqb_false in He. apply He. apply to_N_inj.
    now rewrite to_N_and, to_N_mask, H.
Qed.

Lemma test_or_mask (b : byte) (i j : nat) :
  test (byte_or b (mask j)) i = (i mod 8 =? j mod 8)%nat || test b i.
Proof.
  rewrite !test_testbit, to_N_or, N.lor_spec, to_N_mask, N.pow2_bits_eqb.
  rewrite orb_comm. f_equal.
  pose proof (Nat.mod_upper_bound i 8). pose proof (Nat.mod_upper_bound j 8).
  destruct (Nat.eqb_spec (i mod 8) (j mod 8)) as [He|Hne].
  - rewrite He. apply N.eqb_refl.
  - apply N.eqb_neq. lia.
Qed.

Lemma test_x00 (i : nat) : test x00 i = false.
Proof. rewrite test_testbit. apply N.bits_0. Qed.

Lemma nonzero_false (b : byte) : nonzero b = false <-> b = x00.
Proof.
  unfold nonzero. rewrite negb_false_iff. split.
  - apply Byte.byte_dec_bl.
  - intros ->. reflexivity.
Qed.

Lemma update_length (l : bytes) (i : nat) (f : byte -> byte) :
  List.length (update l i f) = List.length l.
Proof.
  revert i; induction l as [|c l IH]; intros [|i]; simpl; auto.
Qed.

Lemma index_update (l : bytes) (i j : nat) (f : byte -> byte) :
  (j < List.length l)%nat ->
  index (update l j f) i = if (i =? j)%nat then f (index l j) else index l i.
Proof.
  unfold index. revert i j; induction l as [|c l IH]; intros i j Hj; simpl in Hj.
  - lia.
  - destruct j as [|j]; destruct i as [|i]; simpl; auto.
    apply IH. lia.
Qed.

Lemma index_repeat (n i : nat) : index (repeat x00 n) i = x00.
Proof.
  unfold index. revert i; induction n as [|n IH]; intros [|i]; simpl; auto.
Qed.

Lemma getbit_repeat (n i : nat) : getbit (repeat x00 n) i = false.
Proof. unfold getbit. rewrite index_repeat. apply test_x00. Qed.

Lemma divmod_eq (i j : nat) :
  (i / 8 = j / 8 -> i mod 8 = j mod 8 -> i = j)%nat.
Proof.
  intros Hd Hm. rewrite (Nat.div_mod_eq i 8), (Nat.div_mod_eq j 8). lia.
Qed.

Lemma getbit_set (bs : bytes) (i j : nat) :
  (j / 8 < List.length bs)%nat ->
  getbit (update bs (j / 8) (fun c => byte_or c (mask j))) i
  = (i =? j)%nat || getbit bs i.
Proof.
  intros Hj. unfold getbit. rewrite index_update by exact Hj.
  destruct (Nat.eqb_spec (i / 8) (j / 8)) as [Hd|Hd].
  - rewrite test_or_mask, Hd. f_equal.
    destruct (Nat.eqb_spec (i mod 8) (j mod 8)) as [Hm|Hm];
      destruct (Nat.eqb_spec i j) as [He|He]; auto;
      try (subst; now destruct Hm).
    destruct He. now apply divmod_eq.
  - destruct (Nat.eqb_spec i j) as [He|He]; [subst; now destruct Hd | reflexivity].
Qed.

Lemma index_cons (b : byte) (l : bytes) (i : nat) :
  index (b :: l) (S i) = index l i.
Proof. reflexivity. Qed.

Ltac decide_tests :=
  repeat first
    [ rewrite (proj2 (Nat.leb_le _ _)) by lia
    | rewrite (proj2 (Nat.leb_gt _ _)) by lia
    | rewrite (proj2 (Nat.ltb_lt _ _)) by lia
    | rewrite (proj2 (Nat.ltb_ge _ _)) by lia
    | rewrite (proj2 (Nat.eqb_eq _ _)) by lia
    | rewrite (proj2 (Nat.eqb_neq _ _)) by lia ].

Lemma gather_spec (data : bytes) : forall (i : nat) (bs nz : bytes),
  (i + List.length data <= 8 * List.length bs)%nat ->
  List.length (fst (gather data i bs nz)) = List.length bs /\
  snd (gather data i bs nz) = (nz ++ filter nonzero data)%list /\
  forall k,
    getbit (fst (gather data i bs nz)) k
    = getbit bs k
      || ((i <=? k)%nat && (k <? i + List.length data)%nat
          && nonzero (index data (k - i))).
Proof.
  induction data as [|b data IH]; intros i bs nz Hlen;
    cbn [gather filter List.length fst snd] in *.
  - repeat split; [now rewrite app_nil_r|].
    intros k. destruct (Nat.le_gt_cases i k); decide_tests;
      now rewrite ?andb_false_r, ?andb_false_l, orb_false_r.
  - destruct (nonzero b) eqn:Hb.
    + assert (Hi : (i / 8 < List.length bs)%nat)
        by (apply Nat.Div0.div_lt_upper_bound; lia).
      destruct (IH (S i) (update bs (i / 8) (fun c => byte_or c (mask i)))
                  (nz ++ [b])%list) as (H1 & H2 & H3).
      { rewrite update_length. lia. }
      rewrite update_length in H1. split; [exact H1|]. split.
      * rewrite H2, <- app_assoc. reflexivity.
      * intros k. rewrite H3, getbit_set by exact Hi.
        destruct (Nat.lt_trichotomy k i) as [Hlt|[->|Hgt]].
        -- decide_tests. now rewrite !andb_false_l, !orb_false_r.
        -- rewrite Nat.sub_diag. change (index (b :: data) 0) with b. rewrite Hb.
           decide_tests. cbn [andb orb]. now rewrite orb_true_r.
        -- replace (k - i)%nat with (S (k - S i)) by lia. rewrite index_cons.
           replace (i + S (List.length data))%nat
             with (S i + List.length data)%nat by lia.
           decide_tests. reflexivity.
    + destruct (IH (S i) bs nz) as (H1 & H2 & H3); [lia|].
      split; [exact H1|]. split; [exact H2|].
      intros k. rewrite H3.
      destruct (Nat.lt_trichotomy k i) as [Hlt|[->|Hgt]].
      * decide_tests. reflexivity.
      * rewrite Nat.sub_diag. change (index (b :: data) 0) with b. rewrite Hb.
        decide_tests. now rewrite !andb_false_r, ?andb_false_l.
      * replace (k - i)%nat with (S (k - S i)) by lia. rewrite index_cons.
        replace (i + S (List.length data))%nat
          with (S i + List.length data)%nat by lia.
        decide_tests. reflexivity.
Qed.

Lemma firstn_S_index (l : bytes) (i : nat) :
  (i < List.length l)%nat -> firstn (S i) l = (firstn i l ++ [index l i])%list.
Proof.
  revert i; induction l as [|c l IH]; intros i Hi; simpl in Hi; [lia|].
  destruct i as [|i]; [reflexivity|].
  rewrite !firstn_cons, index_cons, IH by lia. reflexivity.
Qed.

Lemma split_at (l : bytes) (i : nat) :
  (i < List.length l)%nat ->
  l = (firstn i l ++ index l i :: skipn (S i) l)%list.
Proof.
  intros Hi.
  transitivity (firstn (S i) l ++ skipn (S i) l)%list;
    [symmetry; apply firstn_skipn|].
  rewrite firstn_S_index by exact Hi. now rewrite <- app_assoc.
Qed.

Lemma index_app_r (l1 l2 : bytes) (i : nat) :
  index (l1 ++ l2) (List.length l1 + i) = index l2 i.
Proof.
  unfold index. rewrite app_nth2 by lia. f_equal. lia.
Qed.

Lemma index_app_l (l1 l2 : bytes) (i : nat) :
  (i < List.length l1)%nat -> index (l1 ++ l2) i = index l1 i.
Proof. intros Hi. unfold index. now apply app_nth1. Qed.

Lemma filter_prefix_index (l : bytes) (i : nat) :
  (i < List.length l)%nat -> nonzero (index l i) = true ->
  index (filter nonzero l) (List.length (filter nonzero (firstn i l))) = index l i /\
  (List.length (filter nonzero (firstn i l)) < List.length (filter nonzero l))%nat.
Proof.
  intros Hi Hnz.
  assert (Hf : filter nonzero l
               = (filter nonzero (firstn i l)
                  ++ index l i :: filter nonzero (skipn (S i) l))%list).
  { rewrite (split_at l i Hi) at 1. rewrite filter_app. cbn [filter].
    now rewrite Hnz. }
  rewrite Hf. split.
  - rewrite <- (Nat.add_0_r (List.length (filter nonzero (firstn i l)))).
    rewrite index_app_r. reflexivity.
  - rewrite length_app. cbn [List.length]. lia.
Qed.

Lemma update_middle (l1 l2 : bytes) (c v : byte) (i : nat) :
  List.length l1 = i ->
  update (l1 ++ c :: l2) i (fun _ => v) = (l1 ++ v :: l2)%list.
Proof.
  intros <-. induction l1 as [|a l1 IH]; simpl; [reflexivity | now rewrite IH].
Qed.

Lemma scatter_spec (orig pre rest nonZeroBitset : bytes) :
  (List.length orig <= 8 * List.length nonZeroBitset)%nat ->
  (forall k, getbit nonZeroBitset k
             = (k <? List.length orig)%nat && nonzero (index orig k)) ->
  forall n i,
    (i + n = 8 * List.length nonZeroBitset)%nat ->
    scatter n i nonZeroBitset (pre ++ filter nonzero orig ++ rest)
      (firstn i orig ++ repeat x00 (List.length orig - i))
      (List.length pre + List.length (filter nonzero (firstn i orig)))
    = (orig, (List.length pre + List.length (filter nonzero orig))%nat, None).
Proof.
  intros Hlen Hbits. induction n as [|n IH]; intros i Hi; cbn [scatter].
  - rewrite firstn_all2 by lia.
    replace (List.length orig - i)%nat with 0%nat by lia.
    cbn [repeat]. now rewrite app_nil_r.
  - fold (getbit nonZeroBitset i). rewrite Hbits.
    rewrite <- (IH (S i)) by lia.
    destruct (Nat.lt_ge_cases i (List.length orig)) as [Hlt|Hge].
    + decide_tests. cbn [andb].
      rewrite (firstn_S_index orig i Hlt), filter_app. cbn [filter].
      replace (List.length orig - i)%nat with (S (List.length orig - S i)) by lia.
      cbn [repeat].
      destruct (nonzero (index orig i)) eqn:Hnz.
      * destruct (filter_prefix_index orig i Hlt Hnz) as [Hidx Hcount].
        rewrite !length_app, firstn_length_le by lia.
        cbn [List.length]. rewrite repeat_length.
        decide_tests.
        rewrite index_app_r, index_app_l, Hidx, Hnz by exact Hcount.
        cbn [negb].
        rewrite update_middle by (apply firstn_length_le; lia).
        rewrite <- app_assoc. cbn [app]. f_equal. lia.
      * apply nonzero_false in Hnz. rewrite Hnz.
        rewrite app_nil_r, <- app_assoc. reflexivity.
    + decide_tests. cbn [andb].
      rewrite !firstn_all2 by lia.
      replace (List.length orig - i)%nat with 0%nat by lia.
      replace (List.length orig - S i)%nat with 0%nat by lia.
      reflexivity.
Qed.

Lemma bitset_size (n : nat) : (n <= 8 * ((n + 7) / 8))%nat.
Proof.
  pose proof (Nat.div_mod_eq (n + 7) 8). pose proof (Nat.mod_upper_bound (n + 7) 8).
  lia.
Qed.

Lemma bitset_shorter (n : nat) : (2 <= n -> (n + 7) / 8 < n)%nat.
Proof.
  intros Hn. apply Nat.Div0.div_lt_upper_bound. lia.
Qed.

Lemma gather_length (data : bytes) :
  List.length (fst (gather data 0 (repeat x00 ((List.length data + 7) / 8)) []))
  = ((List.length data + 7) / 8)%nat.
Proof.
  destruct (gather_spec data 0 (repeat x00 ((List.length data + 7) / 8)) [])
    as (H1 & _).
  - rewrite repeat_length. apply bitset_size.
  - now rewrite H1, repeat_length.
Qed.

Lemma bitsetEncode_fuel (fuel1 : nat) : forall (fuel2 : nat) (data : bytes),
  (List.length data <= fuel1)%nat -> (List.length data <= fuel2)%nat ->
  bitsetEncode fuel1 data = bitsetEncode fuel2 data.
Proof.
  induction fuel1 as [|fuel1 IH]; intros fuel2 data H1 H2.
  - destruct data; [|simpl in H1; lia]. destruct fuel2; reflexivity.
  - destruct fuel2 as [|fuel2].
    + destruct data; [reflexivity | simpl in H2; lia].
    + cbn [bitsetEncode].
      destruct (Nat.eqb_spec (List.length data) 0) as [|H0]; [reflexivity|].
      destruct (Nat.eqb_spec (List.length data) 1) as [|H01]; [reflexivity|].
      pose proof (gather_length data) as Hg.
      destruct (gather data 0 (repeat x00 ((List.length data + 7) / 8)) [])
        as [bs nz]. cbn [fst] in Hg.
      destruct (List.length nz =? 0)%nat; [reflexivity|].
      pose proof (bitset_shorter (List.length data)).
      rewrite (IH fuel2 bs) by lia. reflexivity.
Qed.

(** The equation of [bitsetEncodeBytes]: its body, with the recursive
    call. *)
Lemma bitsetEncodeBytes_eq (data : bytes) :
  bitsetEncodeBytes data =
  if (List.length data =? 0)%nat then []
  else if (List.length data =? 1)%nat then
    if negb (nonzero (index data 0)) then [] else data
  else
    let '(nonZeroBitset, nonZeroBytes) :=
      gather data 0 (repeat x00 ((List.length data + 7) / 8)) [] in
    if (List.length nonZeroBytes =? 0)%nat then []
    else (bitsetEncodeBytes nonZeroBitset ++ nonZeroBytes)%list.
Proof.
  unfold bitsetEncodeBytes at 1.
  destruct data as [|b data]; [reflexivity|].
  cbn [List.length bitsetEncode].
  change (S (List.length data)) with (List.length (b :: data)).
  destruct (Nat.eqb_spec (List.length (b :: data)) 0) as [|H0]; [reflexivity|].
  destruct (Nat.eqb_spec (List.length (b :: data)) 1) as [|H01]; [reflexivity|].
  pose proof (gather_length (b :: data)) as Hg.
  destruct (gather (b :: data) 0 (repeat x00 ((List.length (b :: data) + 7) / 8)) [])
    as [bs nz]. cbn [fst] in Hg.
  destruct (List.length nz =? 0)%nat; [reflexivity|].
  pose proof (bitset_shorter (List.length (b :: data))).
  unfold bitsetEncodeBytes.
  rewrite (bitsetEncode_fuel (List.length data) (List.length bs) bs);
    [reflexivity | cbn [List.length] in *; lia | lia].
Qed.

Lemma bitsetDecodePartial_fuel (fuel1 : nat) :
  forall (fuel2 : nat) (data : bytes) (target : nat),
  (target < fuel1)%nat -> (target < fuel2)%nat ->
  bitsetDecodePartial fuel1 data target = bitsetDecodePartial fuel2 data target.
Proof.
  induction fuel1 as [|fuel1 IH]; intros fuel2 data target H1 H2; [lia|].
  destruct fuel2 as [|fuel2]; [lia|].
  cbn [bitsetDecodePartial].
  destruct (Nat.eqb_spec target 0) as [|H0]; [reflexivity|].
  destruct (List.length data =? 0)%nat; [reflexivity|].
  destruct (Nat.eqb_spec target 1) as [|H01]; [reflexivity|].
  pose proof (bitset_shorter target).
  rewrite (IH fuel2 data ((target + 7) / 8)) by lia. reflexivity.
Qed.

(** The equation of [bitsetDecodePartialBytes]. *)
Lemma bitsetDecodePartialBytes_eq (data : bytes) (target : nat) :
  bitsetDecodePartialBytes data target =
  if (target =? 0)%nat then ([], 0%nat, None)
  else
    let decomp := repeat x00 target in
    if (List.length data =? 0)%nat then (decomp, 0%nat, None)
    else if (target =? 1)%nat then
      let decomp := update decomp 0 (fun _ => index data 0) in
      if nonzero (index data 0) then (decomp, 1%nat, None)
      else (decomp, 0%nat, None)
    else
      match bitsetDecodePartialBytes data ((target + 7) / 8) with
      | (_, ptr, Some err) => ([], ptr, Some err)
      | (nonZeroBitset, ptr, None) =>
          scatter (8 * List.length nonZeroBitset) 0 nonZeroBitset data decomp ptr
      end.
Proof.
  unfold bitsetDecodePartialBytes at 1. cbn [bitsetDecodePartial].
  destruct (Nat.eqb_spec target 0) as [|H0]; [reflexivity|].
  destruct (List.length data =? 0)%nat; [reflexivity|].
  destruct (Nat.eqb_spec target 1) as [|H01]; [reflexivity|].
  pose proof (bitset_shorter target).
  unfold bitsetDecodePartialBytes.
  rewrite (bitsetDecodePartial_fuel target (S ((target + 7) / 8))) by lia.
  reflexivity.
Qed.

Lemma filter_nonzero_witness (data : bytes) :
  filter nonzero data <> [] ->
  exists k, (k < List.length data)%nat /\ nonzero (index data k) = true.
Proof.
  induction data as [|b data IH]; cbn [filter]; [congruence|].
  destruct (nonzero b) eqn:Hb.
  - intros _. exists 0%nat. split; [simpl; lia | exact Hb].
  - intros Hne. destruct (IH Hne) as (k & Hk & Hnz).
    exists (S k). split; [simpl; lia | now rewrite index_cons].
Qed.

Lemma filter_nonzero_index (bs : bytes) (j : nat) :
  nonzero (index bs j) = true -> filter nonzero bs <> [].
Proof.
  revert j; induction bs as [|b bs IH]; intros j Hj.
  - unfold index in Hj. destruct j; discriminate Hj.
  - cbn [filter]. destruct (nonzero b) eqn:Hb; [discriminate|].
    destruct j as [|j]; [change (index (b :: bs) 0) with b in Hj; congruence|].
    rewrite index_cons in Hj. now apply IH with j.
Qed.

Lemma getbit_nonzero (bs : bytes) (k : nat) :
  getbit bs k = true -> filter nonzero bs <> [].
Proof.
  unfold getbit. intros Hk. apply filter_nonzero_index with (k / 8)%nat.
  destruct (nonzero (index bs (k / 8))) eqn:Hnz; [reflexivity|].
  apply nonzero_false in Hnz. rewrite Hnz, test_x00 in Hk. discriminate Hk.
Qed.

(** What the loop of [bitsetEncodeBytes] computes. *)
Lemma gather_bitset (data : bytes) :
  let r := gather data 0 (repeat x00 ((List.length data + 7) / 8)) [] in
  List.length (fst r) = ((List.length data + 7) / 8)%nat /\
  snd r = filter nonzero data /\
  forall k, getbit (fst r) k
            = (k <? List.length data)%nat && nonzero (index data k).
Proof.
  destruct (gather_spec data 0 (repeat x00 ((List.length data + 7) / 8)) [])
    as (H1 & H2 & H3).
  - rewrite repeat_length. apply bitset_size.
  - cbn zeta. rewrite repeat_length in H1. repeat split; auto.
    intros k. rewrite H3, getbit_repeat, Nat.sub_0_r. reflexivity.
Qed.

Lemma decode_encode (n : nat) : forall (data rest : bytes),
  (List.length data <= n)%nat ->
  filter nonzero data <> [] ->
  bitsetDecodePartialBytes (bitsetEncodeBytes data ++ rest) (List.length data)
  = (data, List.length (bitsetEncodeBytes data), None).
Proof.
  induction n as [|n IH]; intros data rest Hn Hnz.
  - destruct data; [now destruct Hnz | simpl in Hn; lia].
  - rewrite bitsetEncodeBytes_eq, bitsetDecodePartialBytes_eq.
    destruct (Nat.eqb_spec (List.length data) 0) as [H0|H0].
    { destruct data; [now destruct Hnz | discriminate H0]. }
    destruct (Nat.eqb_spec (List.length data) 1) as [H1|H1].
    { destruct data as [|b [|c data]]; try discriminate H1.
      change (index [b] 0) with b. cbn [filter] in Hnz.
      destruct (nonzero b) eqn:Hb; [|now destruct Hnz].
      cbn [negb app List.length Nat.eqb repeat update].
      change (index (b :: rest) 0) with b. rewrite Hb. reflexivity. }
    destruct (gather_bitset data) as (Hlen & Hsnd & Hbits).
    destruct (gather data 0 (repeat x00 ((List.length data + 7) / 8)) [])
      as [bs nz]. cbn [fst snd] in Hlen, Hsnd, Hbits. subst nz.
    destruct (Nat.eqb_spec (List.length (filter nonzero data)) 0) as [Hz|Hz].
    { destruct (filter nonzero data); [now destruct Hnz | discriminate Hz]. }
    assert (Hbs : filter nonzero bs <> []).
    { destruct (filter_nonzero_witness data Hnz) as (k & Hk & Hk').
      apply getbit_nonzero with k. rewrite Hbits, Hk'.
      now rewrite (proj2 (Nat.ltb_lt _ _) Hk). }
    pose proof (bitset_shorter (List.length data)) as Hshort.
    rewrite <- app_assoc.
    destruct (Nat.eqb_spec
                (List.length (bitsetEncodeBytes bs ++ filter nonzero data ++ rest)) 0)
      as [He|He].
    { rewrite !length_app in He. lia. }
    rewrite <- Hlen.
    rewrite (IH bs (filter nonzero data ++ rest)) by (try exact Hbs; lia).
    pose proof (scatter_spec data (bitsetEncodeBytes bs) rest bs) as Hsc.
    specialize (Hsc ltac:(rewrite Hlen; apply bitset_size) Hbits
                  (8 * List.length bs)%nat 0%nat eq_refl).
    cbn [firstn filter List.length app] in Hsc.
    rewrite Nat.sub_0_r, Nat.add_0_r in Hsc.
    cbn zeta. rewrite Hsc, length_app. reflexivity.
Qed.

Lemma filter_nonzero_nil (data : bytes) :
  filter nonzero data = [] <-> data = repeat x00 (List.length data).
Proof.
  induction data as [|b data IH]; cbn [filter List.length repeat]; [tauto|].
  destruct (nonzero b) eqn:Hb.
  - split; [discriminate|]. intros [= -> _]. discriminate Hb.
  - apply nonzero_false in Hb. subst b. rewrite IH. split; congruence.
Qed.

Lemma bitsetEncodeBytes_nil_iff (data : bytes) :
  bitsetEncodeBytes data = [] <-> filter nonzero data = [].
Proof.
  rewrite bitsetEncodeBytes_eq.
  destruct (Nat.eqb_spec (List.length data) 0) as [H0|H0].
  { destruct data; [tauto | discriminate H0]. }
  destruct (Nat.eqb_spec (List.length data) 1) as [H1|H1].
  { destruct data as [|b [|c data]]; try discriminate H1.
    change (index [b] 0) with b. cbn [filter].
    destruct (nonzero b); cbn [negb]; split; congruence. }
  destruct (gather_bitset data) as (_ & Hsnd & _).
  destruct (gather data 0 (repeat x00 ((List.length data + 7) / 8)) [])
    as [bs nz]. cbn [snd] in Hsnd. subst nz.
  destruct (filter nonzero data) as [|c nz]; cbn [List.length Nat.eqb];
    [tauto|].
  split; [|discriminate].
  intros He. apply (f_equal (@List.length byte)) in He.
  rewrite length_app in He. simpl in He. lia.
Qed.

Lemma scatter_inv (n : nat) :
  forall (i : nat) (bs data decomp : bytes) (ptr : nat) (out : bytes) (size : nat),
  (ptr <= List.length data)%nat ->
  scatter n i bs data decomp ptr = (out, size, None) ->
  List.length out = List.length decomp /\ (size <= List.length data)%nat.
Proof.
  induction n as [|n IH]; intros i bs data decomp ptr out size Hptr;
    cbn [scatter].
  - intros [= <- <-]. auto.
  - destruct (test (index bs (i / 8)) i); [|now apply IH].
    destruct (Nat.leb_spec (List.length data) ptr); [discriminate|].
    destruct (List.length decomp <=? i)%nat; [discriminate|].
    destruct (negb (nonzero (index data ptr))); [discriminate|].
    intros Hs. apply IH in Hs; [|lia]. now rewrite update_length in Hs.
Qed.

Lemma bitsetDecodePartial_inv (fuel : nat) :
  forall (data : bytes) (target : nat) (out : bytes) (size : nat),
  (target < fuel)%nat ->
  bitsetDecodePartial fuel data target = (out, size, None) ->
  List.length out = target /\ (size <= List.length data)%nat.
Proof.
  induction fuel as [|fuel IH]; intros data target out size Hf; [lia|].
  cbn [bitsetDecodePartial].
  destruct (Nat.eqb_spec target 0) as [->|H0].
  { intros [= <- <-]. split; [reflexivity | lia]. }
  destruct (Nat.eqb_spec (List.length data) 0) as [Hd|Hd].
  { intros [= <- <-]. rewrite repeat_length. split; [reflexivity | lia]. }
  destruct (Nat.eqb_spec target 1) as [->|H1].
  { destruct (nonzero (index data 0)); intros [= <- <-];
      (split; [reflexivity | lia]). }
  pose proof (bitset_shorter target) as Hshort.
  destruct (bitsetDecodePartial fuel data ((target + 7) / 8))
    as [[bs ptr] [err|]] eqn:Hrec; [discriminate|].
  apply IH in Hrec; [|lia]. destruct Hrec as [_ Hptr].
  intros Hs. apply scatter_inv in Hs; [|exact Hptr].
  now rewrite repeat_length in Hs.
Qed.

(** The loop of the decoder on a stream whose last non-zero bytes are
    missing. *)
Lemma scatter_truncated (orig pre kept dropped nonZeroBitset : bytes) :
  (List.length orig <= 8 * List.length nonZeroBitset)%nat ->
  (forall k, getbit nonZeroBitset k
             = (k <? List.length orig)%nat && nonzero (index orig k)) ->
  filter nonzero orig = (kept ++ dropped)%list ->
  dropped <> [] ->
  forall n i,
    (i + n = 8 * List.length nonZeroBitset)%nat ->
    (List.length (filter nonzero (firstn i orig)) <= List.length kept)%nat ->
    scatter n i nonZeroBitset (pre ++ kept)
      (firstn i orig ++ repeat x00 (List.length orig - i))
      (List.length pre + List.length (filter nonzero (firstn i orig)))
    = ([], 0%nat, Some errMissingData).
Proof.
  intros Hlen Hbits Hsplit Hdropped.
  assert (Hmore : (List.length kept < List.length (filter nonzero orig))%nat).
  { rewrite Hsplit, length_app. destruct dropped; [now destruct Hdropped|].
    simpl. lia. }
  induction n as [|n IH]; intros i Hi Hcount; cbn [scatter].
  - rewrite firstn_all2 in Hcount by lia. lia.
  - fold (getbit nonZeroBitset i). rewrite Hbits.
    destruct (Nat.lt_ge_cases i (List.length orig)) as [Hlt|Hge].
    + decide_tests. cbn [andb].
      pose proof (firstn_S_index orig i Hlt) as HS.
      destruct (nonzero (index orig i)) eqn:Hnz.
      * destruct (filter_prefix_index orig i Hlt Hnz) as [Hidx Hc].
        rewrite length_app.
        destruct (Nat.eq_dec (List.length (filter nonzero (firstn i orig)))
                    (List.length kept)) as [He|Hne].
        { rewrite He. decide_tests. reflexivity. }
        decide_tests.
        rewrite length_app, firstn_length_le, repeat_length by lia.
        decide_tests.
        rewrite index_app_r.
        rewrite Hsplit, index_app_l in Hidx by lia.
        rewrite Hidx, Hnz. cbn [negb].
        replace (List.length orig - i)%nat with (S (List.length orig - S i)) by lia.
        cbn [repeat].
        rewrite update_middle by (apply firstn_length_le; lia).
        rewrite <- (IH (S i)); [| lia |].
        -- rewrite HS, filter_app. cbn [filter].
           rewrite Hnz, length_app, <- app_assoc. cbn [List.length app].
           f_equal. lia.
        -- rewrite HS, filter_app. cbn [filter].
           rewrite Hnz, length_app. cbn [List.length]. lia.
      * rewrite <- (IH (S i)); [| lia |].
        -- rewrite HS, filter_app. cbn [filter].
           rewrite Hnz, app_nil_r, <- app_assoc. cbn [app].
           apply nonzero_false in Hnz. rewrite Hnz.
           replace (List.length orig - i)%nat
             with (S (List.length orig - S i)) by lia.
           reflexivity.
        -- rewrite HS, filter_app. cbn [filter]. now rewrite Hnz, app_nil_r.
    + rewrite firstn_all2 in Hcount by lia. lia.
Qed.

Lemma bitsetDecodeBytes_zero_stream (n : nat) :
  bitsetDecodeBytes [] n = (repeat x00 n, None).
Proof.
  unfold bitsetDecodeBytes. rewrite bitsetDecodePartialBytes_eq.
  destruct n; reflexivity.
Qed.

Lemma compressed_form (data : bytes) :
  (List.length (bitsetEncodeBytes data) < List.length data)%nat ->
  filter nonzero data <> [] ->
  (2 <= List.length data)%nat /\
  exists bs,
    List.length bs = ((List.length data + 7) / 8)%nat /\
    (forall k, getbit bs k
               = (k <? List.length data)%nat && nonzero (index data k)) /\
    filter nonzero bs <> [] /\
    bitsetEncodeBytes data = (bitsetEncodeBytes bs ++ filter nonzero data)%list.
Proof.
  intros Hshort Hnz. rewrite bitsetEncodeBytes_eq in *.
  destruct (Nat.eqb_spec (List.length data) 0) as [H0|H0];
    [simpl in Hshort; lia|].
  destruct (Nat.eqb_spec (List.length data) 1) as [H1|H1].
  { destruct data as [|b [|c data]]; try discriminate H1.
    change (index [b] 0) with b in *. cbn [filter] in Hnz.
    destruct (nonzero b); [simpl in Hshort; lia | now destruct Hnz]. }
  split; [lia|].
  destruct (gather_bitset data) as (Hlen & Hsnd & Hbits).
  destruct (gather data 0 (repeat x00 ((List.length data + 7) / 8)) [])
    as [bs nz]. cbn [fst snd] in Hlen, Hsnd, Hbits. subst nz.
  exists bs. repeat split; auto.
  - destruct (filter_nonzero_witness data Hnz) as (k & Hk & Hk').
    apply getbit_nonzero with k. rewrite Hbits, Hk'.
    now rewrite (proj2 (Nat.ltb_lt _ _) Hk).
  - destruct (filter nonzero data); [now destruct Hnz | reflexivity].
Qed.

(** X5. Decompressing what [CompressBytes] returns, with the length of
    the input as the target, gives the input back without an error,
    whatever the input is. *)
Theorem CompressBytes_roundtrip (data : bytes) :
  DecompressBytes (CompressBytes data) (Z.of_nat (List.length data)) = (data, None).
Proof.
  unfold CompressBytes, DecompressBytes.
  destruct (Nat.ltb_spec (List.length (bitsetEncodeBytes data)) (List.length data))
    as [Hlt|Hge].
  - rewrite (proj2 (Z.ltb_ge _ _)) by lia.
    rewrite (proj2 (Z.eqb_neq _ _)) by lia.
    rewrite Nat2Z.id.
    destruct (list_eq_dec Byte.byte_eq_dec (filter nonzero data) []) as [Hz|Hnz].
    + rewrite (proj2 (bitsetEncodeBytes_nil_iff data) Hz).
      rewrite bitsetDecodeBytes_zero_stream.
      now rewrite <- (proj1 (filter_nonzero_nil data) Hz).
    + unfold bitsetDecodeBytes.
      pose proof (decode_encode (List.length data) data [] (Nat.le_refl _) Hnz)
        as Hd.
      rewrite app_nil_r in Hd. rewrite Hd.
      now rewrite Nat.eqb_refl.
  - rewrite (proj2 (Z.ltb_ge _ _)) by lia. now rewrite Z.eqb_refl.
Qed.

(** X6. [CompressBytes] returns the empty slice exactly on the inputs
    that hold zero bytes only (the empty input among them). *)
Theorem CompressBytes_nil_iff (data : bytes) :
  CompressBytes data = [] <-> data = repeat x00 (List.length data).
Proof.
  rewrite <- filter_nonzero_nil. unfold CompressBytes.
  destruct (Nat.ltb_spec (List.length (bitsetEncodeBytes data)) (List.length data))
    as [Hlt|Hge].
  - apply bitsetEncodeBytes_nil_iff.
  - split.
    + intros ->. reflexivity.
    + intros Hz. apply bitsetEncodeBytes_nil_iff in Hz. rewrite Hz in Hge.
      destruct data; [reflexivity | simpl in Hge; lia].
Qed.

(** X7. Whenever [DecompressBytes] returns without an error, its output
    has exactly [target] bytes, on any input, well formed or not. *)
Theorem DecompressBytes_length (data : bytes) (target : Z) (out : bytes) :
  DecompressBytes data target = (out, None) ->
  Z.of_nat (List.length out) = target.
Proof.
  unfold DecompressBytes.
  destruct (Z.ltb_spec target (Z.of_nat (List.length data))); [discriminate|].
  destruct (Z.eqb_spec (Z.of_nat (List.length data)) target) as [He|Hne].
  - now intros [= <-].
  - unfold bitsetDecodeBytes, bitsetDecodePartialBytes.
    destruct (bitsetDecodePartial (S (Z.to_nat target)) data (Z.to_nat target))
      as [[o size] [err|]] eqn:Hd; [discriminate|].
    apply bitsetDecodePartial_inv in Hd; [|lia].
    destruct (negb (size =? List.length data)%nat); [discriminate|].
    intros [= <-]. lia.
Qed.

(** X8. Bytes appended to a compressed stream are refused: when the
    input has a non-zero byte and the longer stream is still shorter than
    the target, [DecompressBytes] returns [errUnreferencedData]. *)
Theorem DecompressBytes_trailing_bytes (data extra : bytes) :
  data <> repeat x00 (List.length data) ->
  extra <> [] ->
  (List.length (CompressBytes data ++ extra) < List.length data)%nat ->
  DecompressBytes (CompressBytes data ++ extra) (Z.of_nat (List.length data))
  = ([], Some errUnreferencedData).
Proof.
  intros Hnz Hextra Hlen. rewrite <- filter_nonzero_nil in Hnz.
  rewrite length_app in Hlen.
  unfold CompressBytes in *.
  destruct (Nat.ltb_spec (List.length (bitsetEncodeBytes data)) (List.length data))
    as [Hlt|Hge]; [|lia].
  unfold DecompressBytes. rewrite length_app.
  rewrite (proj2 (Z.ltb_ge _ _)) by lia.
  rewrite (proj2 (Z.eqb_neq _ _)) by lia.
  rewrite Nat2Z.id. unfold bitsetDecodeBytes.
  rewrite (decode_encode (List.length data) data extra (Nat.le_refl _) Hnz).
  rewrite length_app.
  destruct extra; [now destruct Hextra|].
  rewrite (proj2 (Nat.eqb_neq _ _)) by (simpl; lia). reflexivity.
Qed.

Lemma app_eq_app_short (a b c d : bytes) :
  (a ++ b = c ++ d)%list -> (List.length d <= List.length b)%nat ->
  exists kept, c = (a ++ kept)%list /\ b = (kept ++ d)%list.
Proof.
  revert c; induction a as [|x a IH]; intros c Heq Hlen; cbn [app] in *.
  - exists c. auto.
  - destruct c as [|y c]; cbn [app] in Heq.
    + apply (f_equal (@List.length byte)) in Heq. simpl in Heq.
      rewrite length_app in Heq. lia.
    + injection Heq as -> Heq. destruct (IH c Heq Hlen) as (kept & -> & ->).
      exists kept. auto.
Qed.

(** X9. A compressed stream that lost bytes at its end is refused: when
    compression did shorten the input and the bytes dropped are among the
    non-zero bytes that end the stream, [DecompressBytes] returns
    [errMissingData]. *)
Theorem DecompressBytes_truncated (data stream dropped : bytes) :
  CompressBytes data = (stream ++ dropped)%list ->
  dropped <> [] ->
  (List.length (CompressBytes data) < List.length data)%nat ->
  (List.length dropped <= List.length (filter nonzero data))%nat ->
  DecompressBytes stream (Z.of_nat (List.length data))
  = ([], Some errMissingData).
Proof.
  intros Hsplit Hdropped Hshort Hcut.
  assert (Henc : CompressBytes data = bitsetEncodeBytes data).
  { unfold CompressBytes in *.
    destruct (Nat.ltb_spec (List.length (bitsetEncodeBytes data))
                (List.length data)); [reflexivity | lia]. }
  rewrite Henc in *.
  assert (Hnz : filter nonzero data <> []).
  { intros Hz. apply bitsetEncodeBytes_nil_iff in Hz. rewrite Hz in Hsplit.
    symmetry in Hsplit. apply app_eq_nil in Hsplit. now destruct Hsplit. }
  destruct (compressed_form data Hshort Hnz)
    as (H2 & bs & Hlen & Hbits & Hbs & Heq).
  rewrite Heq in Hsplit.
  destruct (app_eq_app_short _ _ _ _ Hsplit Hcut) as (kept & -> & Hkept).
  assert (Hstream : (List.length (bitsetEncodeBytes bs ++ kept)
                     < List.length (bitsetEncodeBytes data))%nat).
  { rewrite Heq, Hkept, !length_app.
    destruct dropped; [now destruct Hdropped | simpl; lia]. }
  unfold DecompressBytes.
  rewrite (proj2 (Z.ltb_ge _ _)) by lia.
  rewrite (proj2 (Z.eqb_neq _ _)) by lia.
  rewrite Nat2Z.id. unfold bitsetDecodeBytes.
  rewrite bitsetDecodePartialBytes_eq.
  rewrite (proj2 (Nat.eqb_neq _ _)) by lia.
  assert (Hpre : bitsetEncodeBytes bs <> [])
    by (intros He; now apply bitsetEncodeBytes_nil_iff in He).
  destruct (Nat.eqb_spec (List.length (bitsetEncodeBytes bs ++ kept)) 0) as [He|He].
  { rewrite length_app in He.
    destruct (bitsetEncodeBytes bs); [now destruct Hpre | simpl in He; lia]. }
  rewrite (proj2 (Nat.eqb_neq _ _)) by lia. cbn zeta.
  rewrite <- Hlen.
  rewrite (decode_encode (List.length bs) bs kept (Nat.le_refl _) Hbs).
  pose proof (scatter_truncated data (bitsetEncodeBytes bs) kept dropped bs) as Hsc.
  specialize (Hsc ltac:(rewrite Hlen; apply bitset_size) Hbits Hkept Hdropped
                (8 * List.length bs)%nat 0%nat eq_refl).
  cbn [firstn filter List.length app] in Hsc.
  rewrite Nat.sub_0_r, Nat.add_0_r in Hsc.
  rewrite Hsc by lia. reflexivity.
Qed.

(** X10. The form the package documents for the encoding, for an input of
    two bytes or more that has a non-zero byte: the encoding of the
    bitset, which has [(len(data)+7)/8] bytes and, most significant bit
    first, bit [i] set exactly when [data[i]] is not zero, followed by the
    non-zero bytes of the input in their order. *)
Theorem bitsetEncodeBytes_recursive_form (data : bytes) :
  (2 <= List.length data)%nat ->
  data <> repeat x00 (List.length data) ->
  exists nonZeroBitset,
    List.length nonZeroBitset = ((List.length data + 7) / 8)%nat /\
    (forall i, getbit nonZeroBitset i
               = (i <? List.length data)%nat && nonzero (index data i)) /\
    bitsetEncodeBytes data
    = (bitsetEncodeBytes nonZeroBitset ++ filter nonzero data)%list.
Proof.
  intros H2 Hnz. rewrite <- filter_nonzero_nil in Hnz.
  rewrite bitsetEncodeBytes_eq.
  rewrite (proj2 (Nat.eqb_neq _ _)) by lia.
  rewrite (proj2 (Nat.eqb_neq _ _)) by lia.
  destruct (gather_bitset data) as (Hlen & Hsnd & Hbits).
  destruct (gather data 0 (repeat x00 ((List.length data + 7) / 8)) [])
    as [bs nz]. cbn [fst snd] in Hlen, Hsnd, Hbits. subst nz.
  exists bs. repeat split; auto.
  destruct (filter nonzero data); [now destruct Hnz | reflexivity].
Qed.

Lemma bitsetEncodeBytes_recursive_form_witness :
  exists nonZeroBitset,
    List.length nonZeroBitset = 2%nat /\
    (forall i, getbit nonZeroBitset i
               = (i <? 12)%nat
                 && nonzero (index [x00; x00; x01; x00; x00; x00; x00; x00;
                                    x00; x02; x00; x00] i)) /\
    bitsetEncodeBytes [x00; x00; x01; x00; x00; x00; x00; x00;
                       x00; x02; x00; x00]
    = (bitsetEncodeBytes nonZeroBitset ++ [x01; x02])%list.
Proof.
  apply (bitsetEncodeBytes_recursive_form
           [x00; x00; x01; x00; x00; x00; x00; x00; x00; x02; x00; x00]).
  - simpl; lia.
  - discriminate.
Defined.

Lemma DecompressBytes_length_witness :
  DecompressBytes [xc0; x20; x40; x01; x02] 12
  = ([x00; x00; x01; x00; x00; x00; x00; x00; x00; x02; x00; x00], None) /\
  Z.of_nat (List.length [x00; x00; x01; x00; x00; x00; x00; x00;
                         x00; x02; x00; x00]) = 12%Z.
Proof.
  split; [reflexivity|].
  apply (DecompressBytes_length [xc0; x20; x40; x01; x02] 12
           [x00; x00; x01; x00; x00; x00; x00; x00; x00; x02; x00; x00]).
  reflexivity.
Defined.

Lemma DecompressBytes_trailing_bytes_witness :
  CompressBytes [x00; x00; x01; x00; x00; x00; x00; x00; x00; x02; x00; x00]
  = [xc0; x20; x40; x01; x02] /\
  DecompressBytes [xc0; x20; x40; x01; x02; x07] 12
  = ([], Some errUnreferencedData).
Proof.
  split; [reflexivity|].
  apply (DecompressBytes_trailing_bytes
           [x00; x00; x01; x00; x00; x00; x00; x00; x00; x02; x00; x00] [x07]).
  - discriminate.
  - discriminate.
  - vm_compute. lia.
Defined.

Lemma DecompressBytes_truncated_witness :
  CompressBytes [x00; x00; x01; x00; x00; x00; x00; x00; x00; x02; x00; x00]
  = ([xc0; x20; x40; x01] ++ [x02])%list /\
  DecompressBytes [xc0; x20; x40; x01] 12 = ([], Some errMissingData).
Proof.
  split; [reflexivity|].
  apply (DecompressBytes_truncated
           [x00; x00; x01; x00; x00; x00; x00; x00; x00; x02; x00; x00]
           [xc0; x20; x40; x01] [x02]).
  - reflexivity.
  - discriminate.
  - vm_compute. lia.
  - vm_compute. lia.
Defined.

(** Two bitsets of one length with the same bits are the same bytes. *)
Lemma test_ext (b b' : byte) :
  (forall m, (m < 8)%nat -> test b m = test b' m) -> b = b'.
Proof.
  intros Hbits. apply to_N_inj, N.bits_inj. intros n.
  destruct (N.lt_ge_cases n 8) as [Hn|Hn].
  - specialize (Hbits (7 - N.to_nat n)%nat ltac:(lia)).
    rewrite !test_testbit in Hbits.
    rewrite Nat.mod_small in Hbits by lia.
    replace (N.of_nat (7 - (7 - N.to_nat n))) with n in Hbits by lia.
    exact Hbits.
  - now rewrite !to_N_high.
Qed.

Lemma test_mod (b : byte) (i : nat) : test b (i mod 8) = test b i.
Proof. now rewrite !test_testbit, Nat.Div0.mod_mod. Qed.

Lemma getbit_ext (bs bs' : bytes) :
  List.length bs = List.length bs' ->
  (forall k, getbit bs k = getbit bs' k) -> bs = bs'.
Proof.
  intros Hlen Hbits. apply (nth_ext _ _ x00 x00 Hlen). intros j Hj.
  apply test_ext. intros m Hm.
  specialize (Hbits (8 * j + m)%nat). unfold getbit, index in Hbits.
  replace ((8 * j + m) / 8)%nat with j in Hbits
    by (apply (Nat.div_unique _ 8 j m); lia).
  rewrite <- (test_mod _ (8 * j + m)) in Hbits.
  rewrite <- (test_mod (nth j bs' x00) (8 * j + m)) in Hbits.
  replace ((8 * j + m) mod 8)%nat with m in Hbits
    by (apply (Nat.mod_unique _ 8 j m); lia).
  exact Hbits.
Qed.

Lemma getbit_in_range (bs : bytes) (k : nat) :
  getbit bs k = true -> (k < 8 * List.length bs)%nat.
Proof.
  unfold getbit, index. intros Hk.
  destruct (Nat.lt_ge_cases (k / 8) (List.length bs)) as [Hlt|Hge].
  - pose proof (Nat.div_mod_eq k 8). pose proof (Nat.mod_upper_bound k 8). lia.
  - rewrite nth_overflow, test_x00 in Hk by exact Hge. discriminate Hk.
Qed.

Lemma filter_zero_tail (l : bytes) : forall i,
  (forall k, (i <= k)%nat -> index l k = x00) ->
  filter nonzero (skipn i l) = [].
Proof.
  induction l as [|c l IH]; intros i Hz; [now destruct i|].
  destruct i as [|i].
  - cbn [skipn filter]. pose proof (Hz 0%nat (Nat.le_refl _)) as H0.
    change (index (c :: l) 0) with c in H0. subst c.
    change (nonzero x00) with false. cbn iota.
    apply (IH 0%nat). intros k _. rewrite <- index_cons with (b := x00).
    apply Hz. lia.
  - cbn [skipn]. apply IH. intros k Hk. rewrite <- index_cons with (b := c).
    apply Hz. lia.
Qed.

Lemma skipn_index (l : bytes) (i : nat) :
  (i < List.length l)%nat -> skipn i l = index l i :: skipn (S i) l.
Proof.
  revert i; induction l as [|c l IH]; intros i Hi; simpl in Hi; [lia|].
  destruct i as [|i]; [reflexivity|].
  cbn [skipn]. rewrite index_cons. apply IH. lia.
Qed.

Lemma skipn_beyond (l : bytes) (i : nat) :
  (List.length l <= i)%nat -> skipn i l = skipn (S i) l.
Proof. intros Hi. now rewrite !skipn_all2 by lia. Qed.

Lemma index_beyond (l : bytes) (i : nat) :
  (List.length l <= i)%nat -> index l i = x00.
Proof. intros Hi. unfold index. now apply nth_overflow. Qed.

(** What a run of the decoder's loop without an error says about its
    result: the bytes written are the bytes read, they are not zero, and
    they sit at the bits that are set. *)
Lemma scatter_sound (bs data : bytes) (n : nat) :
  forall (i : nat) (decomp : bytes) (ptr : nat) (out : bytes) (ptr' : nat),
  scatter n i bs data decomp ptr = (out, ptr', None) ->
  (forall k, (i <= k)%nat -> index decomp k = x00) ->
  List.length out = List.length decomp /\
  (forall k, (k < i)%nat -> index out k = index decomp k) /\
  (forall k, (i <= k)%nat ->
             nonzero (index out k) = getbit bs k && (k <? i + n)%nat) /\
  (forall k, (i <= k < i + n)%nat -> getbit bs k = true ->
             (k < List.length decomp)%nat) /\
  firstn ptr' data = firstn ptr data ++ filter nonzero (skipn i out).
Proof.
  induction n as [|n IH]; intros i decomp ptr out ptr' Hrun Hzero;
    cbn [scatter] in Hrun.
  - injection Hrun as <- <-.
    split; [reflexivity|]. split; [reflexivity|]. split; [|split].
    + intros k Hk. rewrite (Hzero k Hk), (proj2 (Nat.ltb_ge _ _)) by lia.
      now rewrite andb_false_r.
    + intros k Hk. lia.
    + now rewrite (filter_zero_tail decomp i Hzero), app_nil_r.
  - fold (getbit bs i) in Hrun. destruct (getbit bs i) eqn:Hbit.
    + destruct (Nat.leb_spec (List.length data) ptr) as [|Hptr];
        [discriminate|].
      destruct (Nat.leb_spec (List.length decomp) i) as [|Hi]; [discriminate|].
      destruct (nonzero (index data ptr)) eqn:Hnz; [|discriminate].
      cbn [negb] in Hrun.
      apply IH in Hrun;
        [|intros k Hk; rewrite index_update by exact Hi;
          rewrite (proj2 (Nat.eqb_neq _ _)) by lia; apply Hzero; lia].
      destruct Hrun as (Hlen & Hbefore & Hafter & Hin & Hread).
      rewrite update_length in Hlen, Hin.
      assert (Hout : index out i = index data ptr).
      { rewrite (Hbefore i) by lia. rewrite index_update by exact Hi.
        now rewrite Nat.eqb_refl. }
      split; [exact Hlen|]. split; [|split; [|split]].
      * intros k Hk. rewrite (Hbefore k) by lia.
        rewrite index_update by exact Hi.
        now rewrite (proj2 (Nat.eqb_neq _ _)) by lia.
      * intros k Hk. destruct (Nat.eq_dec k i) as [->|Hne].
        -- rewrite Hout, Hnz, Hbit, (proj2 (Nat.ltb_lt _ _)) by lia.
           reflexivity.
        -- rewrite (Hafter k) by lia.
           now replace (S i + n)%nat with (i + S n)%nat by lia.
      * intros k Hk Hset. destruct (Nat.eq_dec k i) as [->|Hne]; [exact Hi|].
        apply Hin; [lia | exact Hset].
      * rewrite Hread, (firstn_S_index data ptr Hptr), <- app_assoc.
        rewrite (skipn_index out i) by lia. cbn [filter].
        now rewrite Hout, Hnz.
    + apply IH in Hrun; [|intros k Hk; apply Hzero; lia].
      destruct Hrun as (Hlen & Hbefore & Hafter & Hin & Hread).
      assert (Hout : index out i = x00).
      { rewrite (Hbefore i) by lia. apply Hzero. lia. }
      split; [exact Hlen|]. split; [|split; [|split]].
      * intros k Hk. apply Hbefore. lia.
      * intros k Hk. destruct (Nat.eq_dec k i) as [->|Hne].
        -- now rewrite Hout, Hbit.
        -- rewrite (Hafter k) by lia.
           now replace (S i + n)%nat with (i + S n)%nat by lia.
      * intros k Hk Hset. destruct (Nat.eq_dec k i) as [->|Hne]; [congruence|].
        apply Hin; [lia | exact Hset].
      * rewrite Hread. f_equal.
        destruct (Nat.lt_ge_cases i (List.length out)) as [Hlt|Hge].
        -- rewrite (skipn_index out i Hlt). cbn [filter].
           rewrite Hout. reflexivity.
        -- now rewrite (skipn_beyond out i Hge).
Qed.

Lemma filter_nonzero_all_zero (l : bytes) (k : nat) :
  filter nonzero l = [] -> nonzero (index l k) = false.
Proof.
  intros Hz. destruct (nonzero (index l k)) eqn:Hk; [|reflexivity].
  now apply filter_nonzero_index in Hk.
Qed.

(** The bytes the decoder has read are the encoding of what it returns. *)
Lemma bitsetDecodePartial_canonical (fuel : nat) :
  forall (data : bytes) (target : nat) (out : bytes) (ptr : nat),
  (target < fuel)%nat ->
  bitsetDecodePartial fuel data target = (out, ptr, None) ->
  firstn ptr data = bitsetEncodeBytes out.
Proof.
  induction fuel as [|fuel IH]; intros data target out ptr Hf; [lia|].
  intros Hrun. pose proof (bitsetDecodePartial_inv _ _ _ _ _ Hf Hrun)
    as [Hlen Hptr].
  cbn [bitsetDecodePartial] in Hrun.
  destruct (Nat.eqb_spec target 0) as [->|H0].
  { injection Hrun as <- <-. reflexivity. }
  destruct (Nat.eqb_spec (List.length data) 0) as [Hd|Hd].
  { injection Hrun as <- <-. symmetry. apply bitsetEncodeBytes_nil_iff.
    apply filter_nonzero_nil. now rewrite repeat_length. }
  destruct (Nat.eqb_spec target 1) as [->|H1].
  { destruct data as [|b data]; [now destruct Hd|].
    change (index (b :: data) 0) with b in Hrun.
    cbn [repeat update] in Hrun. rewrite bitsetEncodeBytes_eq.
    destruct (nonzero b) eqn:Hb; injection Hrun as <- <-;
      cbn [List.length Nat.eqb]; change (index [b] 0) with b; rewrite Hb;
      reflexivity. }
  pose proof (bitset_shorter target) as Hshort.
  destruct (bitsetDecodePartial fuel data ((target + 7) / 8))
    as [[bs ptr0] [err|]] eqn:Hrec; [discriminate|].
  assert (Hfuel : ((target + 7) / 8 < fuel)%nat) by lia.
  pose proof (bitsetDecodePartial_inv _ _ _ _ _ Hfuel Hrec) as [Hbs Hptr0].
  apply IH in Hrec; [|exact Hfuel].
  apply scatter_sound in Hrun; [|intros k _; apply index_repeat].
  destruct Hrun as (_ & _ & Hbits & Hin & Hread).
  rewrite repeat_length in Hin. cbn [skipn] in Hread.
  assert (Hset : forall k, getbit bs k = true -> (k < target)%nat).
  { intros k Hk. apply Hin; [|exact Hk].
    pose proof (getbit_in_range bs k Hk). lia. }
  assert (Hnz : forall k, nonzero (index out k) = getbit bs k).
  { intros k. rewrite Hbits by lia. destruct (getbit bs k) eqn:Hk; [|reflexivity].
    apply getbit_in_range in Hk. now rewrite (proj2 (Nat.ltb_lt _ _)) by lia. }
  rewrite bitsetEncodeBytes_eq, Hlen.
  rewrite (proj2 (Nat.eqb_neq _ _) H0), (proj2 (Nat.eqb_neq _ _) H1).
  destruct (gather_bitset out) as (Hlen' & Hsnd & Hbits').
  rewrite Hlen in *.
  destruct (gather out 0 (repeat x00 ((target + 7) / 8)) []) as [bs' nz].
  cbn [fst snd] in Hlen', Hsnd, Hbits'. subst nz.
  assert (Heq : bs' = bs).
  { apply getbit_ext; [congruence|]. intros k. rewrite Hbits', Hnz.
    destruct (getbit bs k) eqn:Hk; [|apply andb_false_r].
    now rewrite (proj2 (Nat.ltb_lt _ _) (Hset k Hk)). }
  subst bs'. rewrite Hread, Hrec.
  destruct (filter nonzero out) as [|c nz] eqn:Hf0.
  - cbn [List.length Nat.eqb]. rewrite app_nil_r.
    apply bitsetEncodeBytes_nil_iff, filter_nonzero_nil.
    apply getbit_ext; [now rewrite repeat_length|].
    intros k. rewrite getbit_repeat, <- Hnz.
    now apply filter_nonzero_all_zero.
  - reflexivity.
Qed.

(** X20. The decoder accepts the encoder's stream and no other: whenever
    [DecompressBytes] returns without an error on an input that is not of
    the target's length, the input is what [CompressBytes] makes of the
    output. *)
Theorem DecompressBytes_canonical (data : bytes) (target : Z) (out : bytes) :
  DecompressBytes data target = (out, None) ->
  Z.of_nat (List.length data) <> target ->
  CompressBytes out = data.
Proof.
  unfold DecompressBytes. intros Hrun Hne.
  destruct (Z.ltb_spec target (Z.of_nat (List.length data))); [discriminate|].
  rewrite (proj2 (Z.eqb_neq _ _) Hne) in Hrun.
  unfold bitsetDecodeBytes, bitsetDecodePartialBytes in Hrun.
  destruct (bitsetDecodePartial (S (Z.to_nat target)) data (Z.to_nat target))
    as [[o size] [err|]] eqn:Hd; [discriminate|].
  destruct (Nat.eqb_spec size (List.length data)) as [->|]; [|discriminate].
  cbn [negb] in Hrun. injection Hrun as ->.
  pose proof (bitsetDecodePartial_inv _ _ _ _ _ (Nat.lt_succ_diag_r _) Hd)
    as [Hlen _].
  apply bitsetDecodePartial_canonical in Hd; [|lia].
  rewrite firstn_all in Hd. unfold CompressBytes. rewrite <- Hd.
  now rewrite (proj2 (Nat.ltb_lt _ _)) by lia.
Qed.

Lemma DecompressBytes_canonical_witness :
  DecompressBytes [xc0; x20; x40; x01; x02] 12
  = ([x00; x00; x01; x00; x00; x00; x00; x00; x00; x02; x00; x00], None) /\
  CompressBytes [x00; x00; x01; x00; x00; x00; x00; x00; x00; x02; x00; x00]
  = [xc0; x20; x40; x01; x02].
Proof.
  split; [reflexivity|].
  apply (DecompressBytes_canonical [xc0; x20; x40; x01; x02] 12
           [x00; x00; x01; x00; x00; x00; x00; x00; x00; x02; x00; x00]).
  - reflexivity.
  - discriminate.
Defined.

End BitutilProperties.

(** ** Decoders of package [proto] *)

Section ProtoProperties.

Import proto.
Local Open Scope list_scope.
Local Open Scope N_scope.

(** Facts about one byte, checked on the 256 bytes. *)
Lemma byte_facts (c : byte) :
  Byte.to_N c < 256 /\
  (N.land (Byte.to_N c) 0x80 =? 0) = (Byte.to_N c <? 0x80) /\
  N.land (Byte.to_N c) 0x7F = Byte.to_N c mod 128.
Proof. destruct c; repeat split. Qed.

Lemma at_bound (l : bytes) (i : nat) : at_ l i < 256.
Proof. apply byte_facts. Qed.

Lemma at_high (l : bytes) (i : nat) :
  (N.land (at_ l i) 0x80 =? 0) = (at_ l i <? 0x80).
Proof. apply byte_facts. Qed.

Lemma at_low (l : bytes) (i : nat) : N.land (at_ l i) 0x7F = at_ l i mod 128.
Proof. apply byte_facts. Qed.

Lemma at_skipn (l : bytes) (i j : nat) : at_ (skipn i l) j = at_ l (i + j).
Proof.
  unfold at_. f_equal. revert l; induction i as [|i IH]; intros l; [reflexivity|].
  destruct l as [|c l]; [now destruct j | apply IH].
Qed.

Lemma low_bits_zero (x s m : N) : x < 2 ^ s -> s <= m -> N.testbit x m = false.
Proof.
  intros Hx Hm. destruct (N.eq_dec x 0) as [->|Hz]; [apply N.bits_0|].
  apply N.bits_above_log2. apply N.lt_le_trans with s; [|exact Hm].
  apply N.log2_lt_pow2; [lia | exact Hx].
Qed.

(** Putting [y], shifted by [s], over a number below [2^s]: the bits do
    not meet, so that the disjunction is a sum. *)
Lemma lor_shl64 (x y s : N) :
  x < 2 ^ s -> s <= 64 ->
  N.lor x (shl64 y s) = x + (y * 2 ^ s) mod 2 ^ 64 /\
  x + (y * 2 ^ s) mod 2 ^ 64 < 2 ^ 64.
Proof.
  intros Hx Hs. unfold shl64. rewrite N.shiftl_mul_pow2.
  assert (Hland : N.land x ((y * 2 ^ s) mod 2 ^ 64) = 0).
  { apply N.bits_inj. intros m. rewrite N.land_spec, N.bits_0.
    destruct (N.lt_ge_cases m s) as [Hm|Hm].
    - rewrite andb_false_iff. right.
      destruct (N.lt_ge_cases m 64) as [Hm'|Hm'].
      + rewrite N.mod_pow2_bits_low by exact Hm'.
        rewrite <- N.shiftl_mul_pow2. now apply N.shiftl_spec_low.
      + now apply N.mod_pow2_bits_high.
    - rewrite (low_bits_zero x s m Hx Hm). reflexivity. }
  split.
  - rewrite <- N.lxor_lor by exact Hland.
    symmetry. now apply N.add_nocarry_lxor.
  - replace (2 ^ 64) with (2 ^ s * 2 ^ (64 - s)) at 1 2
      by (rewrite <- N.pow_add_r; f_equal; lia).
    rewrite (N.mul_comm y), N.Div0.mul_mod_distr_l.
    assert (y mod 2 ^ (64 - s) < 2 ^ (64 - s))
      by (apply N.mod_upper_bound, N.pow_nonzero; lia).
    nia.
Qed.

Lemma base128_snoc (l : list N) (b : N) :
  base128 (l ++ [b]) = base128 l + b mod 128 * 2 ^ (7 * N.of_nat (List.length l)).
Proof.
  induction l as [|a l IH]; cbn [app base128 fold_right List.length].
  - change (7 * N.of_nat 0) with 0. rewrite N.pow_0_r. lia.
  - fold (base128 (l ++ [b])). fold (base128 l). rewrite IH.
    replace (7 * N.of_nat (S (List.length l)))
      with (7 + 7 * N.of_nat (List.length l)) by lia.
    rewrite N.pow_add_r. change (2 ^ 7) with 128. lia.
Qed.

Lemma base128_bound (l : list N) : base128 l < 2 ^ (7 * N.of_nat (List.length l)).
Proof.
  induction l as [|a l IH]; cbn [base128 fold_right List.length].
  - change (7 * N.of_nat 0) with 0. rewrite N.pow_0_r. lia.
  - fold (base128 l).
    replace (7 * N.of_nat (S (List.length l)))
      with (7 + 7 * N.of_nat (List.length l)) by lia.
    rewrite N.pow_add_r. change (2 ^ 7) with 128.
    assert (a mod 128 < 128) by (apply N.mod_upper_bound; lia). nia.
Qed.

Lemma firstn_S_nth (l : bytes) (n : nat) :
  (n < List.length l)%nat -> firstn (S n) l = firstn n l ++ [nth n l x00].
Proof.
  revert n; induction l as [|c l IH]; intros n Hn; simpl in Hn; [lia|].
  destruct n as [|n]; [reflexivity|].
  rewrite !firstn_cons. cbn [nth app]. rewrite IH by lia. reflexivity.
Qed.

Lemma prefix_value (buf : bytes) (n : nat) :
  (n < List.length buf)%nat ->
  base128 (map Byte.to_N (firstn (S n) buf))
  = base128 (map Byte.to_N (firstn n buf)) + at_ buf n mod 128 * 2 ^ (7 * N.of_nat n).
Proof.
  intros Hn. rewrite firstn_S_nth, map_app by exact Hn. cbn [map].
  rewrite base128_snoc, length_map, firstn_length_le by lia. reflexivity.
Qed.

(** One round of the two loops: the seven low bits of the byte go on top
    of what is there. *)
Lemma round_value (buf : bytes) (n : nat) :
  (n < List.length buf)%nat -> (n < 10)%nat ->
  N.lor (base128 (map Byte.to_N (firstn n buf)))
    (shl64 (N.land (at_ buf n) 0x7F) (7 * N.of_nat n))
  = base128 (map Byte.to_N (firstn (S n) buf)) mod 2 ^ 64.
Proof.
  intros Hn H10.
  pose proof (base128_bound (map Byte.to_N (firstn n buf))) as Hb.
  rewrite length_map, firstn_length_le in Hb by lia.
  assert (Hs : 7 * N.of_nat n <= 64) by lia.
  rewrite at_low.
  destruct (lor_shl64 _ (at_ buf n mod 128) _ Hb Hs) as [-> Hlt].
  rewrite prefix_value by exact Hn.
  rewrite <- (N.Div0.add_mod_idemp_r _ (at_ buf n mod 128 * 2 ^ (7 * N.of_nat n))).
  symmetry. now apply N.mod_small.
Qed.

Lemma round_value_small (buf : bytes) (n : nat) :
  (n < List.length buf)%nat -> (n < 9)%nat ->
  N.lor (base128 (map Byte.to_N (firstn n buf)))
    (shl64 (N.land (at_ buf n) 0x7F) (7 * N.of_nat n))
  = base128 (map Byte.to_N (firstn (S n) buf)).
Proof.
  intros Hn H9. rewrite round_value by lia. apply N.mod_small.
  pose proof (base128_bound (map Byte.to_N (firstn (S n) buf))) as Hb.
  rewrite length_map, firstn_length_le in Hb by lia.
  apply N.lt_le_trans with (1 := Hb). apply N.pow_le_mono_r; lia.
Qed.

Lemma DecodeVarint_loop_spec (rounds : nat) : forall (n : nat) (buf : bytes),
  (n + rounds = 10)%nat ->
  (n <= List.length buf)%nat ->
  (forall k, (k < n)%nat -> 128 <= at_ buf k) ->
  let r := DecodeVarint_loop rounds (7 * N.of_nat n) buf
             (base128 (map Byte.to_N (firstn n buf))) n in
  (r = (0, O) /\
   forall k, (k < 10)%nat -> (k < List.length buf)%nat -> 128 <= at_ buf k) \/
  (exists m, (n <= m < 10)%nat /\ (m < List.length buf)%nat /\
             (forall k, (k < m)%nat -> 128 <= at_ buf k) /\
             at_ buf m < 128 /\
             r = (base128 (map Byte.to_N (firstn (S m) buf)) mod 2 ^ 64, S m)).
Proof.
  induction rounds as [|rounds IH]; intros n buf Hr Hn Hhigh; cbn [DecodeVarint_loop].
  - left. split; [reflexivity|]. intros k Hk _. apply Hhigh. lia.
  - destruct (Nat.leb_spec (List.length buf) n) as [Hlen|Hlen].
    + left. split; [reflexivity|]. intros k _ Hk. apply Hhigh. lia.
    + cbn zeta. rewrite at_high.
      destruct (N.ltb_spec (at_ buf n) 0x80) as [Hb|Hb].
      * right. exists n. repeat split; auto; try lia.
        now rewrite round_value by lia.
      * destruct rounds as [|rounds'].
        -- left. split; [reflexivity|].
           intros k Hk _. destruct (Nat.eq_dec k n) as [->|Hne]; [exact Hb|].
           apply Hhigh. lia.
        -- rewrite round_value_small by lia.
           replace (7 * N.of_nat n + 7) with (7 * N.of_nat (S n)) by lia.
           destruct (IH (S n) buf) as [[Hz Hall]|(m & Hm & Hlt & Hbefore & Hlast & Hres)];
             try lia.
           { intros k Hk. destruct (Nat.eq_dec k n) as [->|Hne]; [exact Hb|].
             apply Hhigh. lia. }
           ++ left. auto.
           ++ right. exists m. repeat split; auto; lia.
Qed.

Lemma terminator_unique (l : bytes) (m m' : nat) :
  terminator l m -> terminator l m' -> m = m'.
Proof.
  intros (_ & _ & Hb & Hl) (_ & _ & Hb' & Hl').
  destruct (Nat.lt_trichotomy m m') as [H|[H|H]]; [|exact H|].
  - specialize (Hb' m H). lia.
  - specialize (Hb m' H). lia.
Qed.

Lemma unread_length (p : Buffer) :
  List.length (unread p) = (List.length (buf p) - index p)%nat.
Proof. apply length_skipn. Qed.

Lemma at_unread (p : Buffer) (k : nat) :
  at_ (unread p) k = at_ (buf p) (index p + k).
Proof. apply at_skipn. Qed.

(** The loop of [DecodeVarintSlow] after [n] bytes with the high bit set. *)
Lemma DecodeVarintSlow_loop_spec (rounds : nat) : forall (n : nat) (p : Buffer),
  (n + rounds = 10)%nat ->
  (n <= List.length (unread p))%nat ->
  (forall k, (k < n)%nat -> 128 <= at_ (unread p) k) ->
  let r := DecodeVarintSlow_loop rounds (7 * N.of_nat n) p (index p + n)
             (base128 (map Byte.to_N (firstn n (unread p)))) in
  (exists m, (n <= m)%nat /\ terminator (unread p) m /\
             r = (varint_value (unread p) m, None,
                  set_index p (index p + S m))) \/
  (exists x, r = (x, Some ErrUnexpectedEOF, p) /\
             (List.length (unread p) < 10)%nat /\
             forall k, (k < List.length (unread p))%nat -> 128 <= at_ (unread p) k) \/
  (exists x, r = (x, Some errOverflow, p) /\
             (10 <= List.length (unread p))%nat /\
             forall k, (k < 10)%nat -> 128 <= at_ (unread p) k).
Proof.
  induction rounds as [|rounds IH]; intros n p Hr Hn Hhigh;
    cbn [DecodeVarintSlow_loop].
  - right. right. eexists. split; [reflexivity|]. split; [lia|].
    intros k Hk. apply Hhigh. lia.
  - pose proof (unread_length p) as Hlen.
    destruct (Nat.leb_spec (List.length (buf p)) (index p + n)) as [Hend|Hend].
    + right. left. eexists. split; [reflexivity|]. split; [lia|].
      intros k Hk. apply Hhigh. lia.
    + cbn zeta. rewrite <- at_unread.
      destruct (N.ltb_spec (at_ (unread p) n) 0x80) as [Hb|Hb].
      * left. exists n. split; [lia|]. split.
        -- repeat split; auto; lia.
        -- unfold varint_value. rewrite round_value by lia.
           now rewrite Nat.add_succ_r.
      * assert (Hhigh' : forall k, (k < S n)%nat -> 128 <= at_ (unread p) k).
        { intros k Hk. destruct (Nat.eq_dec k n) as [->|Hne]; [exact Hb|].
          apply Hhigh. lia. }
        destruct rounds as [|rounds'].
        { right. right. eexists. split; [reflexivity|]. split; [lia|].
          intros k Hk. apply Hhigh'. lia. }
        rewrite round_value_small by lia.
        replace (7 * N.of_nat n + 7) with (7 * N.of_nat (S n)) by lia.
        rewrite <- Nat.add_succ_r.
        destruct (IH (S n) p) as [(m & Hm & Ht & Hres)|[H|H]]; auto; try lia.
        left. exists m. split; [lia|]. auto.
Qed.

Lemma shl64_small (b s : N) :
  b < 256 -> s <= 56 -> shl64 b s = b * 2 ^ s.
Proof.
  intros Hb Hs. unfold shl64. rewrite N.shiftl_mul_pow2. apply N.mod_small.
  assert (2 ^ s <= 2 ^ 56) by (apply N.pow_le_mono_r; lia).
  change (2 ^ 64) with (256 * 2 ^ 56). nia.
Qed.

(** A written-out round that ends the varint. *)
Lemma last_round (x b s : N) :
  b < 128 -> add64 x (shl64 b s) = (x + b mod 128 * 2 ^ s) mod 2 ^ 64.
Proof.
  intros Hb. unfold add64, shl64. rewrite N.shiftl_mul_pow2.
  rewrite N.Div0.add_mod_idemp_r. now rewrite (N.mod_small b 128).
Qed.

(** A written-out round that goes on: adding the whole byte and taking the
    high bit away leaves the seven low bits. *)
Lemma next_round (x b s : N) :
  x < 2 ^ s -> s <= 56 -> 128 <= b -> b < 256 ->
  sub64 (add64 x (shl64 b s)) (shl64 0x80 s) = x + b mod 128 * 2 ^ s.
Proof.
  intros Hx Hs Hb Hb'.
  rewrite !shl64_small by lia. unfold add64, sub64.
  assert (HP : 2 ^ s <= 2 ^ 56) by (apply N.pow_le_mono_r; lia).
  assert (Hm : b mod 128 = b - 128).
  { rewrite (N.Div0.mod_eq b 128).
    assert (b / 128 = 1); [|lia].
    symmetry. apply N.div_unique with (b - 128); lia. }
  change (2 ^ 64) with (256 * 2 ^ 56) in *.
  rewrite (N.mod_small (x + b * 2 ^ s)) by nia.
  rewrite (N.mod_small (128 * 2 ^ s)) by nia.
  rewrite Hm.
  replace (x + b * 2 ^ s + 256 * 2 ^ 56 - 128 * 2 ^ s)
    with (x + (b - 128) * 2 ^ s + 1 * (256 * 2 ^ 56)) by nia.
  rewrite N.Div0.mod_add. apply N.mod_small. nia.
Qed.

Lemma DecodeVarint_rounds_spec (len : nat) : forall (n : nat) (p : Buffer),
  (n + len = 10)%nat -> (1 <= n)%nat ->
  (10 <= List.length (unread p))%nat ->
  (forall k, (k < n)%nat -> 128 <= at_ (unread p) k) ->
  let r := DecodeVarint_rounds (shifts n len) p (index p + n)
             (base128 (map Byte.to_N (firstn n (unread p)))) in
  (exists m, (n <= m)%nat /\ terminator (unread p) m /\
             r = (varint_value (unread p) m, None,
                  set_index p (index p + S m))) \/
  (r = (0, Some errOverflow, p) /\
   forall k, (k < 10)%nat -> 128 <= at_ (unread p) k).
Proof.
  induction len as [|len IH]; intros n p Hr Hn Hlen Hhigh;
    cbn [shifts seq map DecodeVarint_rounds].
  - right. split; [reflexivity|]. intros k Hk. apply Hhigh. lia.
  - fold (shifts (S n) len). cbn zeta. rewrite <- at_unread, at_high.
    pose proof (base128_bound (map Byte.to_N (firstn n (unread p)))) as Hbd.
    rewrite length_map, firstn_length_le in Hbd by lia.
    destruct (N.ltb_spec (at_ (unread p) n) 0x80) as [Hb|Hb].
    + left. exists n. split; [lia|]. split.
      * repeat split; auto; lia.
      * unfold varint_value. rewrite prefix_value by lia.
        rewrite last_round by exact Hb. now rewrite Nat.add_succ_r.
    + assert (Hhigh' : forall k, (k < S n)%nat -> 128 <= at_ (unread p) k).
      { intros k Hk. destruct (Nat.eq_dec k n) as [->|Hne]; [exact Hb|].
        apply Hhigh. lia. }
      destruct len as [|len'].
      { right. split; [reflexivity|]. intros k Hk. apply Hhigh'. lia. }
      rewrite next_round; [| exact Hbd | lia | exact Hb | apply at_bound].
      rewrite <- prefix_value by lia. rewrite <- Nat.add_succ_r.
      destruct (IH (S n) p) as [(m & Hm & Ht & Hres)|H]; auto; try lia.
      left. exists m. split; [lia|]. auto.
Qed.

(** What [DecodeVarintSlow] returns, in the three cases there are. *)
Lemma DecodeVarintSlow_spec (p : Buffer) :
  (exists m, terminator (unread p) m /\
             DecodeVarintSlow p
             = (varint_value (unread p) m, None, set_index p (index p + S m))) \/
  (exists x, DecodeVarintSlow p = (x, Some ErrUnexpectedEOF, p) /\
             (List.length (unread p) < 10)%nat /\
             forall k, (k < List.length (unread p))%nat -> 128 <= at_ (unread p) k) \/
  (exists x, DecodeVarintSlow p = (x, Some errOverflow, p) /\
             (10 <= List.length (unread p))%nat /\
             forall k, (k < 10)%nat -> 128 <= at_ (unread p) k).
Proof.
  pose proof (DecodeVarintSlow_loop_spec 10 0 p eq_refl) as H.
  cbn zeta in H. rewrite Nat.add_0_r in H.
  change (7 * N.of_nat 0) with 0 in H. cbn [firstn map base128 fold_right] in H.
  destruct H as [(m & _ & Ht & Hres)|[H|H]]; auto; try lia.
  left. exists m. auto.
Qed.

(** What [Buffer.DecodeVarint] returns, in the same three cases. *)
Lemma Buffer_DecodeVarint_spec (p : Buffer) :
  (exists m, terminator (unread p) m /\
             Buffer_DecodeVarint p
             = (varint_value (unread p) m, None, set_index p (index p + S m))) \/
  (exists x, Buffer_DecodeVarint p = (x, Some ErrUnexpectedEOF, p) /\
             (List.length (unread p) < 10)%nat /\
             forall k, (k < List.length (unread p))%nat -> 128 <= at_ (unread p) k) \/
  (exists x, Buffer_DecodeVarint p = (x, Some errOverflow, p) /\
             (10 <= List.length (unread p))%nat /\
             forall k, (k < 10)%nat -> 128 <= at_ (unread p) k).
Proof.
  unfold Buffer_DecodeVarint. cbn zeta.
  pose proof (unread_length p) as Hlen.
  pose proof (at_unread p 0) as H0. rewrite Nat.add_0_r in H0.
  destruct (Nat.leb_spec (List.length (buf p)) (index p)) as [Hend|Hend].
  { right. left. eexists. split; [reflexivity|]. split; [lia|].
    intros k Hk. lia. }
  rewrite <- H0.
  destruct (N.ltb_spec (at_ (unread p) 0) 0x80) as [Hb|Hb].
  { left. exists 0%nat. split.
    - repeat split; lia.
    - unfold varint_value.
      destruct (unread p) as [|c l] eqn:Hu; [simpl in Hlen; lia|].
      cbn [firstn map base128 fold_right].
      change (at_ (c :: l) 0) with (Byte.to_N c) in *.
      rewrite N.mul_0_r, N.add_0_r, (N.mod_small _ 128) by exact Hb.
      rewrite N.mod_small by (change (2 ^ 64) with 18446744073709551616; lia).
      now rewrite Nat.add_1_r. }
  destruct (Nat.ltb_spec (List.length (buf p) - index p) 10) as [Hshort|Hlong].
  { apply DecodeVarintSlow_spec. }
  assert (Hx : sub64 (at_ (unread p) 0) 0x80
               = base128 (map Byte.to_N (firstn 1 (unread p)))).
  { destruct (unread p) as [|c l] eqn:Hu; [simpl in Hlen; lia|].
    cbn [firstn map base128 fold_right].
    change (at_ (c :: l) 0) with (Byte.to_N c) in *.
    pose proof (next_round 0 (Byte.to_N c) 0) as Hn.
    rewrite !shl64_small, N.pow_0_r, !N.mul_1_r in Hn
      by (try apply byte_facts; lia).
    unfold add64 in Hn. rewrite N.add_0_l in Hn.
    rewrite (N.mod_small (Byte.to_N c)) in Hn
      by (pose proof (proj1 (byte_facts c));
          change (2 ^ 64) with 18446744073709551616; lia).
    rewrite Hn; [lia | lia | lia | exact Hb | apply byte_facts]. }
  rewrite Hx.
  pose proof (DecodeVarint_rounds_spec 9 1 p eq_refl (Nat.le_refl 1)) as H.
  cbn zeta in H. rewrite Nat.add_1_r in H.
  destruct H as [(m & _ & Ht & Hres)|[Hres Hall]]; try lia.
  - intros k Hk. replace k with 0%nat by lia. exact Hb.
  - left. exists m. auto.
  - right. right. exists 0. split; [exact Hres|]. split; [lia | exact Hall].
Qed.

Lemma terminator_not_all_high (l : bytes) (m : nat) :
  terminator l m ->
  ~ (forall k, (k < List.length l)%nat -> 128 <= at_ l k) /\
  ~ (forall k, (k < 10)%nat -> 128 <= at_ l k).
Proof.
  intros (H10 & Hlen & _ & Hlast). split; intros Hall.
  - specialize (Hall m Hlen). lia.
  - specialize (Hall m H10). lia.
Qed.

(** X12. [Buffer.DecodeVarint], which writes the rounds out and works with sums
    and differences, and [DecodeVarintSlow], which loops and works with
    disjunctions, agree: they return the same error, leave the buffer in the
    same state, and when there is no error they return the same number. *)
Theorem Buffer_DecodeVarint_agrees_with_slow (p : Buffer) :
  snd (fst (Buffer_DecodeVarint p)) = snd (fst (DecodeVarintSlow p)) /\
  snd (Buffer_DecodeVarint p) = snd (DecodeVarintSlow p) /\
  (snd (fst (Buffer_DecodeVarint p)) = None ->
   fst (fst (Buffer_DecodeVarint p)) = fst (fst (DecodeVarintSlow p))).
Proof.
  destruct (Buffer_DecodeVarint_spec p)
    as [(m & Ht & ->)|[(x & -> & Hlen & Hall)|(x & -> & Hlen & Hall)]];
    destruct (DecodeVarintSlow_spec p)
      as [(m' & Ht' & ->)|[(x' & -> & Hlen' & Hall')|(x' & -> & Hlen' & Hall')]];
    cbn [fst snd];
    try (exfalso; lia);
    try (exfalso;
         match goal with
         | Ht : terminator _ _ |- _ =>
             destruct (terminator_not_all_high _ _ Ht) as [H1 H2];
             solve [now apply H1 | now apply H2]
         end).
  - rewrite (terminator_unique _ _ _ Ht Ht'). auto.
  - repeat split; auto. discriminate.
  - repeat split; auto. discriminate.
Qed.

(** X11. [DecodeVarint] either finds, among the first ten bytes, a first byte
    with the high bit clear, and then returns the base-128 number of the
    bytes up to it, modulo 2^64, and their count; or it finds none and
    returns 0 and 0. *)
Theorem DecodeVarint_spec (b : bytes) :
  (exists m, terminator b m /\ DecodeVarint b = (varint_value b m, S m)) \/
  (DecodeVarint b = (0, O) /\
   forall k, (k < 10)%nat -> (k < List.length b)%nat -> 128 <= at_ b k).
Proof.
  pose proof (DecodeVarint_loop_spec 10 0 b eq_refl (Nat.le_0_l _)) as H.
  cbn zeta in H. change (7 * N.of_nat 0) with 0 in H.
  cbn [firstn map base128 fold_right] in H.
  destruct H as [H|(m & Hm & Hlt & Hbefore & Hlast & Hres)].
  - intros k Hk. lia.
  - right. exact H.
  - left. exists m. split; [|exact Hres]. repeat split; auto. lia.
Qed.

(** X13. The method reads from the unread part of its buffer what the function
    reads from a slice: when the function returns [n] bytes read, [n] not
    zero, the method returns the same number and moves the index by [n];
    when the function returns [n = 0] the method returns an error and
    leaves the index where it was. *)
Theorem Buffer_DecodeVarint_reads_like_DecodeVarint (p : Buffer) :
  (snd (DecodeVarint (unread p)) <> O ->
   Buffer_DecodeVarint p
   = (fst (DecodeVarint (unread p)), None,
      set_index p (index p + snd (DecodeVarint (unread p))))) /\
  (snd (DecodeVarint (unread p)) = O ->
   exists x e, Buffer_DecodeVarint p = (x, Some e, p)).
Proof.
  pose proof (DecodeVarint_loop_spec 10 0 (unread p) eq_refl (Nat.le_0_l _)) as H.
  cbn zeta in H. change (7 * N.of_nat 0) with 0 in H.
  cbn [firstn map base128 fold_right] in H. fold (DecodeVarint (unread p)) in H.
  destruct H as [H|(m & Hm & Hlt & Hbefore & Hlast & Hres)].
  - intros k Hk. lia.
  - destruct H as [-> Hall]. cbn [fst snd]. split; [congruence|]. intros _.
    destruct (Buffer_DecodeVarint_spec p)
      as [(m & Ht & _)|[(x & -> & _)|(x & -> & _)]]; eauto.
    exfalso. destruct Ht as (H10 & Hlen & _ & Hlast).
    specialize (Hall m H10 Hlen). lia.
  - rewrite Hres. cbn [fst snd]. split; [|discriminate]. intros _.
    assert (Ht : terminator (unread p) m) by (repeat split; auto; lia).
    destruct (Buffer_DecodeVarint_spec p)
      as [(m' & Ht' & ->)|[(x & _ & Hlen & Hall)|(x & _ & Hlen & Hall)]].
    + now rewrite (terminator_unique _ _ _ Ht' Ht).
    + exfalso. now apply (proj1 (terminator_not_all_high _ _ Ht)).
    + exfalso. now apply (proj2 (terminator_not_all_high _ _ Ht)).
Qed.

Lemma lor_byte (x b s : N) :
  x < 2 ^ s -> s <= 56 -> b < 256 ->
  N.lor x (shl64 b s) = x + b * 2 ^ s /\ x + b * 2 ^ s < 2 ^ (s + 8).
Proof.
  intros Hx Hs Hb.
  destruct (lor_shl64 x b s Hx ltac:(lia)) as [-> _].
  assert (HP : 2 ^ s <= 2 ^ 56) by (apply N.pow_le_mono_r; lia).
  rewrite N.pow_add_r. change (2 ^ 8) with 256.
  rewrite N.mod_small by (change (2 ^ 64) with (256 * 2 ^ 56); nia).
  split; [reflexivity | nia].
Qed.

Lemma unread_split (p : Buffer) (n : nat) :
  (index p + n <= List.length (buf p))%nat ->
  exists l rest, unread p = l ++ rest /\ List.length l = n.
Proof.
  intros Hn. exists (firstn n (unread p)), (skipn n (unread p)).
  split; [symmetry; apply firstn_skipn|].
  apply firstn_length_le. rewrite unread_length. lia.
Qed.

(** X14. [DecodeFixed64] reads eight bytes as a number in base 256, least
    significant byte first, and moves the index by eight; with fewer than
    eight bytes left it returns [io.ErrUnexpectedEOF] and leaves the index
    where it was. *)
Theorem DecodeFixed64_spec (p : Buffer) :
  ((index p + 8 <= List.length (buf p))%nat ->
   DecodeFixed64 p
   = (base256 (map Byte.to_N (firstn 8 (unread p))), None,
      set_index p (index p + 8))) /\
  ((List.length (buf p) < index p + 8)%nat ->
   DecodeFixed64 p = (0, Some ErrUnexpectedEOF, p)).
Proof.
  unfold DecodeFixed64. cbn zeta. split; intros Hlen.
  - rewrite (proj2 (Nat.ltb_ge _ _)) by lia.
    replace (index p + 8 - 8)%nat with (index p + 0)%nat by lia.
    replace (index p + 8 - 7)%nat with (index p + 1)%nat by lia.
    replace (index p + 8 - 6)%nat with (index p + 2)%nat by lia.
    replace (index p + 8 - 5)%nat with (index p + 3)%nat by lia.
    replace (index p + 8 - 4)%nat with (index p + 4)%nat by lia.
    replace (index p + 8 - 3)%nat with (index p + 5)%nat by lia.
    replace (index p + 8 - 2)%nat with (index p + 6)%nat by lia.
    replace (index p + 8 - 1)%nat with (index p + 7)%nat by lia.
    rewrite <- !at_unread.
    destruct (unread_split p 8 Hlen) as (l & rest & -> & Hl).
    destruct l as [|c0 [|c1 [|c2 [|c3 [|c4 [|c5 [|c6 [|c7 [|? ?]]]]]]]]];
      try discriminate Hl.
    unfold at_. cbn [app firstn map base256 fold_right nth].
    pose proof (proj1 (byte_facts c0)). pose proof (proj1 (byte_facts c1)).
    pose proof (proj1 (byte_facts c2)). pose proof (proj1 (byte_facts c3)).
    pose proof (proj1 (byte_facts c4)). pose proof (proj1 (byte_facts c5)).
    pose proof (proj1 (byte_facts c6)). pose proof (proj1 (byte_facts c7)).
    destruct (lor_byte (Byte.to_N c0) (Byte.to_N c1) 8) as [-> H8];
      [change (2 ^ 8) with 256; lia | lia | lia |].
    destruct (lor_byte _ (Byte.to_N c2) 16 H8) as [-> H16]; [lia | lia |].
    destruct (lor_byte _ (Byte.to_N c3) 24 H16) as [-> H24]; [lia | lia |].
    destruct (lor_byte _ (Byte.to_N c4) 32 H24) as [-> H32]; [lia | lia |].
    destruct (lor_byte _ (Byte.to_N c5) 40 H32) as [-> H40]; [lia | lia |].
    destruct (lor_byte _ (Byte.to_N c6) 48 H40) as [-> H48]; [lia | lia |].
    destruct (lor_byte _ (Byte.to_N c7) 56 H48) as [-> H56]; [lia | lia |].
    f_equal. f_equal.
    change (2 ^ 8) with 256. change (2 ^ 16) with (256 * 256).
    change (2 ^ 24) with (256 * 256 * 256).
    change (2 ^ 32) with (256 * 256 * 256 * 256).
    change (2 ^ 40) with (256 * 256 * 256 * 256 * 256).
    change (2 ^ 48) with (256 * 256 * 256 * 256 * 256 * 256).
    change (2 ^ 56) with (256 * 256 * 256 * 256 * 256 * 256 * 256).
    lia.
  - now rewrite (proj2 (Nat.ltb_lt _ _)) by lia.
Qed.

(** X15. [DecodeFixed32] reads four bytes in the same way; the number is below
    2^32. *)
Theorem DecodeFixed32_spec (p : Buffer) :
  ((index p + 4 <= List.length (buf p))%nat ->
   DecodeFixed32 p
   = (base256 (map Byte.to_N (firstn 4 (unread p))), None,
      set_index p (index p + 4)) /\
   base256 (map Byte.to_N (firstn 4 (unread p))) < 2 ^ 32) /\
  ((List.length (buf p) < index p + 4)%nat ->
   DecodeFixed32 p = (0, Some ErrUnexpectedEOF, p)).
Proof.
  unfold DecodeFixed32. cbn zeta. split; intros Hlen.
  - rewrite (proj2 (Nat.ltb_ge _ _)) by lia.
    replace (index p + 4 - 4)%nat with (index p + 0)%nat by lia.
    replace (index p + 4 - 3)%nat with (index p + 1)%nat by lia.
    replace (index p + 4 - 2)%nat with (index p + 2)%nat by lia.
    replace (index p + 4 - 1)%nat with (index p + 3)%nat by lia.
    rewrite <- !at_unread.
    destruct (unread_split p 4 Hlen) as (l & rest & -> & Hl).
    destruct l as [|c0 [|c1 [|c2 [|c3 [|? ?]]]]]; try discriminate Hl.
    unfold at_. cbn [app firstn map base256 fold_right nth].
    pose proof (proj1 (byte_facts c0)). pose proof (proj1 (byte_facts c1)).
    pose proof (proj1 (byte_facts c2)). pose proof (proj1 (byte_facts c3)).
    destruct (lor_byte (Byte.to_N c0) (Byte.to_N c1) 8) as [-> H8];
      [change (2 ^ 8) with 256; lia | lia | lia |].
    destruct (lor_byte _ (Byte.to_N c2) 16 H8) as [-> H16]; [lia | lia |].
    destruct (lor_byte _ (Byte.to_N c3) 24 H16) as [-> H24]; [lia | lia |].
    change (2 ^ (24 + 8)) with (2 ^ 32) in H24.
    change (2 ^ 8) with 256 in *. change (2 ^ 16) with (256 * 256) in *.
    change (2 ^ 24) with (256 * 256 * 256) in *.
    split; [f_equal; f_equal; lia|].
    eapply N.le_lt_trans; [|exact H24]. lia.
  - now rewrite (proj2 (Nat.ltb_lt _ _)) by lia.
Qed.

Lemma land_1 (x : N) : N.land x 1 = if N.even x then 0 else 1.
Proof.
  change 1 with (N.ones 1) at 1. rewrite N.land_ones. change (2 ^ 1) with 2.
  destruct (N.even x) eqn:He.
  - apply N.even_spec in He. destruct He as [k ->].
    now rewrite N.mul_comm, N.Div0.mod_mul.
  - assert (Ho : N.odd x = true) by (now rewrite <- N.negb_even, He).
    apply N.odd_spec in Ho. destruct Ho as [k ->].
    now rewrite N.add_comm, N.mul_comm, N.Div0.mod_add.
Qed.

Lemma sign64_spec (x : N) : sign64 x = if N.even x then 0 else N.ones 64.
Proof. unfold sign64. rewrite land_1. destruct (N.even x); reflexivity. Qed.

Lemma sign32_spec (x : N) : sign32 x = if N.even x then 0 else N.ones 32.
Proof. unfold sign32. rewrite land_1. destruct (N.even x); reflexivity. Qed.

Lemma lxor_ones (a w : N) :
  1 <= w -> a < 2 ^ w -> N.lxor a (N.ones w) = 2 ^ w - 1 - a.
Proof.
  intros Hw Ha. fold (N.lnot a w). rewrite N.lnot_sub_low.
  - rewrite N.ones_equiv. lia.
  - destruct (N.eq_dec a 0) as [->|Hz].
    + change (N.log2 0) with 0. lia.
    + apply N.log2_lt_pow2; lia.
Qed.

Lemma lxor_ones_lt (q w P : N) :
  1 <= w -> 2 ^ w = 2 * P -> q < P -> N.lxor q (N.ones w) = 2 * P - 1 - q.
Proof.
  intros Hw HP Hq. rewrite lxor_ones, HP; [reflexivity | exact Hw |].
  rewrite HP. lia.
Qed.

(** The number a zigzag code of [w] bits stands for: the even codes are
    the numbers from 0 up, the odd codes the numbers from -1 down. *)
Lemma zigzag_value (w y : N) (odd : bool) :
  1 <= w -> y < 2 ^ w ->
  let r := N.lxor (N.shiftr y 1) (if odd then N.ones w else 0) in
  r < 2 ^ w /\
  to_signed w r = if odd then (- Z.of_N (y / 2) - 1)%Z else Z.of_N (y / 2).
Proof.
  intros Hw Hy. cbn zeta. rewrite N.shiftr_div_pow2. change (2 ^ 1) with 2.
  assert (Hpow : 2 ^ w = 2 * 2 ^ (w - 1)).
  { rewrite <- (N.pow_1_r 2) at 2. rewrite <- N.pow_add_r. f_equal. lia. }
  assert (Hhalf : y / 2 < 2 ^ (w - 1)).
  { apply N.Div0.div_lt_upper_bound. now rewrite <- Hpow. }
  unfold to_signed.
  replace (2 ^ Z.of_N w)%Z with (Z.of_N (2 ^ w))
    by (rewrite N2Z.inj_pow; reflexivity).
  assert (Hx : N.lxor (y / 2) (N.ones w) = 2 * 2 ^ (w - 1) - 1 - y / 2)
    by (now apply lxor_ones_lt).
  destruct odd; [rewrite Hx | rewrite N.lxor_0_r]; clear Hx;
    rewrite Hpow; clear Hpow Hy;
    generalize dependent (2 ^ (w - 1)); intros P;
    generalize (y / 2); intros q Hq.
  - rewrite (proj2 (N.ltb_ge _ _)) by lia. split; lia.
  - rewrite (proj2 (N.ltb_lt _ _) Hq). split; [lia | reflexivity].
Qed.

Lemma Buffer_DecodeVarint_bound (p p' : Buffer) (x : N) :
  Buffer_DecodeVarint p = (x, None, p') -> x < 2 ^ 64.
Proof.
  destruct (Buffer_DecodeVarint_spec p)
    as [(m & Ht & ->)|[(y & -> & _)|(y & -> & _)]]; try discriminate.
  intros [= <- _]. unfold varint_value. apply N.mod_upper_bound. discriminate.
Qed.

(** X16. [DecodeZigzag64] hands an error of [DecodeVarint] on; otherwise it
    turns the varint [x] into the 64 bits of [x/2] when [x] is even and of
    [-(x/2) - 1] when [x] is odd. *)
Theorem DecodeZigzag64_spec (p p' : Buffer) (x : N) :
  (forall e, Buffer_DecodeVarint p = (x, Some e, p') ->
             DecodeZigzag64 p = (x, Some e, p')) /\
  (Buffer_DecodeVarint p = (x, None, p') ->
   exists r, DecodeZigzag64 p = (r, None, p') /\ r < 2 ^ 64 /\
             to_signed 64 r
             = if N.even x then Z.of_N (x / 2) else (- Z.of_N (x / 2) - 1)%Z).
Proof.
  unfold DecodeZigzag64. split.
  - intros e ->. reflexivity.
  - intros Hv. pose proof (Buffer_DecodeVarint_bound p p' x Hv) as Hx.
    rewrite Hv, sign64_spec. eexists. split; [reflexivity|].
    destruct (zigzag_value 64 x (negb (N.even x)) ltac:(lia) Hx) as [Hr Hs].
    destruct (N.even x); cbn [negb] in *; auto.
Qed.

(** X17. [DecodeZigzag32] works on the low 32 bits of the varint and returns a
    number below 2^32: the 32 bits of the signed value, not extended to 64
    bits. *)
Theorem DecodeZigzag32_spec (p p' : Buffer) (x : N) :
  Buffer_DecodeVarint p = (x, None, p') ->
  exists r, DecodeZigzag32 p = (r, None, p') /\ r < 2 ^ 32 /\
            to_signed 32 r
            = if N.even x then Z.of_N (x mod 2 ^ 32 / 2)
              else (- Z.of_N (x mod 2 ^ 32 / 2) - 1)%Z.
Proof.
  unfold DecodeZigzag32. intros ->. rewrite sign32_spec.
  eexists. split; [reflexivity|].
  assert (Hy : x mod 2 ^ 32 < 2 ^ 32) by (apply N.mod_upper_bound; discriminate).
  destruct (zigzag_value 32 (x mod 2 ^ 32) (negb (N.even x)) ltac:(lia) Hy)
    as [Hr Hs].
  destruct (N.even x); cbn [negb] in *; auto.
Qed.

Lemma copy_into_fresh (src : bytes) (n : nat) :
  (n <= List.length src)%nat -> copy (repeat x00 n) src = firstn n src.
Proof.
  intros Hn. unfold copy. rewrite repeat_length, Nat.min_l by exact Hn.
  rewrite skipn_all2 by (rewrite repeat_length; lia). apply app_nil_r.
Qed.

(** X18. The flag [alloc] of [DecodeRawBytes] changes neither the bytes
    returned, as values, nor the error, nor the index. *)
Theorem DecodeRawBytes_alloc (p : Buffer) :
  DecodeRawBytes p true = DecodeRawBytes p false.
Proof.
  unfold DecodeRawBytes.
  destruct (Buffer_DecodeVarint p) as [[n [e|]] p1]; [reflexivity|].
  cbn zeta. destruct (to_signed 64 n <? 0)%Z; [reflexivity|].
  destruct (Nat.ltb_spec (List.length (buf p1)) (index p1 + Z.to_nat (to_signed 64 n)))
    as [Hlt|Hge]; [reflexivity|].
  cbn [negb]. rewrite copy_into_fresh; [reflexivity|].
  rewrite length_skipn. lia.
Qed.

(** X19. [DecodeRawBytes] after a length prefix [n] has been read, the buffer
    being [p1] then: a length of 2^63 or more, which is the negative [int]
    [n - 2^64], is refused with the message that ends with this number; a
    length that goes beyond the buffer gives [io.ErrUnexpectedEOF]; in both
    cases the index stays behind the prefix.  Otherwise the next [n] bytes
    are returned and the index moves behind them. *)
Theorem DecodeRawBytes_spec (p p1 : Buffer) (n : N) (alloc : bool)
    (Hprefix : Buffer_DecodeVarint p = (n, None, p1)) :
  (2 ^ 63 <= n ->
   DecodeRawBytes p alloc
   = ([], Some (errorString ("proto: bad byte length "
                             ++ d_int (Z.of_N n - 2 ^ 64))%string), p1)) /\
  (n < 2 ^ 63 ->
   (List.length (buf p1) < index p1 + N.to_nat n)%nat ->
   DecodeRawBytes p alloc = ([], Some ErrUnexpectedEOF, p1)) /\
  (n < 2 ^ 63 ->
   (index p1 + N.to_nat n <= List.length (buf p1))%nat ->
   DecodeRawBytes p alloc
   = (firstn (N.to_nat n) (unread p1), None,
      set_index p1 (index p1 + N.to_nat n))).
Proof.
  pose proof (Buffer_DecodeVarint_bound p p1 n Hprefix) as Hn.
  assert (Hs : n < 2 ^ 63 -> to_signed 64 n = Z.of_N n).
  { intros H. unfold to_signed. change (2 ^ (64 - 1)) with (2 ^ 63).
    now rewrite (proj2 (N.ltb_lt _ _) H). }
  repeat split.
  - intros Hbig. unfold DecodeRawBytes. rewrite Hprefix. cbn zeta.
    assert (Hneg : (to_signed 64 n < 0)%Z).
    { unfold to_signed. change (2 ^ (64 - 1)) with (2 ^ 63).
      rewrite (proj2 (N.ltb_ge _ _) Hbig).
      change (2 ^ Z.of_N 64)%Z with (Z.of_N (2 ^ 64)). lia. }
    rewrite (proj2 (Z.ltb_lt _ _) Hneg).
    unfold to_signed. change (2 ^ (64 - 1)) with (2 ^ 63).
    rewrite (proj2 (N.ltb_ge _ _) Hbig). reflexivity.
  - intros Hsmall Hend. unfold DecodeRawBytes. rewrite Hprefix. cbn zeta.
    rewrite (Hs Hsmall), (proj2 (Z.ltb_ge _ _)) by lia.
    replace (Z.to_nat (Z.of_N n)) with (N.to_nat n) by lia.
    now rewrite (proj2 (Nat.ltb_lt _ _) Hend).
  - intros Hsmall Hend. unfold DecodeRawBytes. rewrite Hprefix. cbn zeta.
    rewrite (Hs Hsmall), (proj2 (Z.ltb_ge _ _)) by lia.
    replace (Z.to_nat (Z.of_N n)) with (N.to_nat n) by lia.
    rewrite (proj2 (Nat.ltb_ge _ _) Hend).
    destruct alloc; cbn [negb]; [|reflexivity].
    rewrite copy_into_fresh by (rewrite length_skipn; lia). reflexivity.
Qed.

Lemma Buffer_DecodeVarint_reads_like_DecodeVarint_witness :
  Buffer_DecodeVarint (mkBuffer [x00; xac; x02; x05] 1)
  = (300, None, mkBuffer [x00; xac; x02; x05] 3) /\
  exists x e, Buffer_DecodeVarint (mkBuffer [x00; xac] 1)
              = (x, Some e, mkBuffer [x00; xac] 1).
Proof.
  split.
  - apply (proj1 (Buffer_DecodeVarint_reads_like_DecodeVarint
                    (mkBuffer [x00; xac; x02; x05] 1))).
    discriminate.
  - apply (proj2 (Buffer_DecodeVarint_reads_like_DecodeVarint
                    (mkBuffer [x00; xac] 1))).
    reflexivity.
Defined.

Lemma DecodeFixed64_spec_witness :
  DecodeFixed64 (mkBuffer [xff; x01; x02; x03; x04; x05; x06; x07; x08] 1)
  = (0x0807060504030201, None,
     mkBuffer [xff; x01; x02; x03; x04; x05; x06; x07; x08] 9) /\
  DecodeFixed64 (mkBuffer [xff; x01; x02; x03; x04; x05; x06; x07; x08] 2)
  = (0, Some ErrUnexpectedEOF,
     mkBuffer [xff; x01; x02; x03; x04; x05; x06; x07; x08] 2).
Proof.
  split.
  - apply (proj1 (DecodeFixed64_spec
                    (mkBuffer [xff; x01; x02; x03; x04; x05; x06; x07; x08] 1))).
    simpl; lia.
  - apply (proj2 (DecodeFixed64_spec
                    (mkBuffer [xff; x01; x02; x03; x04; x05; x06; x07; x08] 2))).
    simpl; lia.
Defined.

Lemma DecodeFixed32_spec_witness :
  (DecodeFixed32 (mkBuffer [x78; x56; x34; x12; x00] 0)
   = (0x12345678, None, mkBuffer [x78; x56; x34; x12; x00] 4) /\
   0x12345678 < 2 ^ 32) /\
  DecodeFixed32 (mkBuffer [x78; x56; x34; x12; x00] 2)
  = (0, Some ErrUnexpectedEOF, mkBuffer [x78; x56; x34; x12; x00] 2).
Proof.
  split.
  - apply (proj1 (DecodeFixed32_spec (mkBuffer [x78; x56; x34; x12; x00] 0))).
    simpl; lia.
  - apply (proj2 (DecodeFixed32_spec (mkBuffer [x78; x56; x34; x12; x00] 2))).
    simpl; lia.
Defined.

Lemma DecodeZigzag64_spec_witness :
  (exists r, DecodeZigzag64 (mkBuffer [x03] 0) = (r, None, mkBuffer [x03] 1) /\
             r < 2 ^ 64 /\ to_signed 64 r = (-2)%Z) /\
  DecodeZigzag64 (mkBuffer [x03] 1) = (0, Some ErrUnexpectedEOF, mkBuffer [x03] 1).
Proof.
  split.
  - apply (proj2 (DecodeZigzag64_spec (mkBuffer [x03] 0) (mkBuffer [x03] 1) 3)).
    reflexivity.
  - apply (proj1 (DecodeZigzag64_spec (mkBuffer [x03] 1) (mkBuffer [x03] 1) 0)).
    reflexivity.
Defined.

Lemma DecodeZigzag32_spec_witness :
  exists r, DecodeZigzag32 (mkBuffer [x03] 0) = (r, None, mkBuffer [x03] 1) /\
            r < 2 ^ 32 /\ to_signed 32 r = (-2)%Z.
Proof.
  apply (DecodeZigzag32_spec (mkBuffer [x03] 0) (mkBuffer [x03] 1) 3).
  reflexivity.
Defined.

Lemma DecodeRawBytes_spec_witness :
  DecodeRawBytes (mkBuffer [x02; x61; x62; x63] 0) true
  = ([x61; x62], None, mkBuffer [x02; x61; x62; x63] 3) /\
  DecodeRawBytes (mkBuffer [x05; x61; x62; x63] 0) true
  = ([], Some ErrUnexpectedEOF, mkBuffer [x05; x61; x62; x63] 1) /\
  DecodeRawBytes
    (mkBuffer [x80; x80; x80; x80; x80; x80; x80; x80; x80; x01] 0) false
  = ([], Some (errorString "proto: bad byte length -9223372036854775808"),
     mkBuffer [x80; x80; x80; x80; x80; x80; x80; x80; x80; x01] 10).
Proof.
  split; [|split].
  - apply (DecodeRawBytes_spec (mkBuffer [x02; x61; x62; x63] 0)
             (mkBuffer [x02; x61; x62; x63] 1) 2 true eq_refl).
    + lia.
    + simpl; lia.
  - apply (DecodeRawBytes_spec (mkBuffer [x05; x61; x62; x63] 0)
             (mkBuffer [x05; x61; x62; x63] 1) 5 true eq_refl).
    + lia.
    + simpl; lia.
  - apply (DecodeRawBytes_spec
             (mkBuffer [x80; x80; x80; x80; x80; x80; x80; x80; x80; x01] 0)
             (mkBuffer [x80; x80; x80; x80; x80; x80; x80; x80; x80; x01] 10)
             (2 ^ 63) false eq_refl).
    lia.
Defined.

(** *** Skipping a field *)

Lemma advances_error (o : Buffer) (e : error) : advances o o (Some e).
Proof. repeat split; auto; discriminate. Qed.

Lemma advances_trans (o o1 o2 : Buffer) (e : option error) :
  advances o o1 None -> advances o1 o2 e -> advances o o2 e.
Proof.
  intros (Hb1 & _ & _ & H1) (Hb2 & Hle & Hin & H2).
  destruct (H1 eq_refl) as [Hlt Hmax]. rewrite Hb1 in *.
  repeat split; try lia; congruence.
Qed.

Lemma Buffer_DecodeVarint_advances (p p' : Buffer) (x : N) (e : option error) :
  Buffer_DecodeVarint p = (x, e, p') -> advances p p' e.
Proof.
  destruct (Buffer_DecodeVarint_spec p)
    as [(m & Ht & ->)|[(y & -> & _)|(y & -> & _)]]; intros [= <- <- <-];
    try apply advances_error.
  destruct Ht as (_ & Hm & _). rewrite unread_length in Hm.
  unfold advances, set_index; cbn [buf index]. repeat split; lia.
Qed.

Lemma DecodeFixed64_advances (p p' : Buffer) (x : N) (e : option error) :
  DecodeFixed64 p = (x, e, p') -> advances p p' e.
Proof.
  unfold DecodeFixed64. cbn zeta.
  destruct (Nat.ltb_spec (List.length (buf p)) (index p + 8));
    intros [= <- <- <-]; [apply advances_error|].
  unfold advances, set_index; cbn [buf index]. repeat split; lia.
Qed.

Lemma DecodeFixed32_advances (p p' : Buffer) (x : N) (e : option error) :
  DecodeFixed32 p = (x, e, p') -> advances p p' e.
Proof.
  unfold DecodeFixed32. cbn zeta.
  destruct (Nat.ltb_spec (List.length (buf p)) (index p + 4));
    intros [= <- <- <-]; [apply advances_error|].
  unfold advances, set_index; cbn [buf index]. repeat split; lia.
Qed.

Lemma advances_weaken (o o' : Buffer) (e : error) :
  advances o o' None -> advances o o' (Some e).
Proof.
  intros (Hb & Hle & Hin & H). destruct (H eq_refl).
  repeat split; auto; lia.
Qed.

Lemma DecodeRawBytes_advances (p p' : Buffer) (alloc : bool) (b : bytes)
    (e : option error) :
  DecodeRawBytes p alloc = (b, e, p') -> advances p p' e.
Proof.
  unfold DecodeRawBytes.
  destruct (Buffer_DecodeVarint p) as [[n [err|]] p1] eqn:Hv;
    apply Buffer_DecodeVarint_advances in Hv.
  - now intros [= <- <- <-].
  - cbn zeta. destruct (to_signed 64 n <? 0)%Z.
    { intros [= <- <- <-]. now apply advances_weaken. }
    destruct (Nat.ltb_spec (List.length (buf p1))
                (index p1 + Z.to_nat (to_signed 64 n))) as [Hlt|Hge].
    { intros [= <- <- <-]. now apply advances_weaken. }
    assert (Hstep : advances p
                      (set_index p1 (index p1 + Z.to_nat (to_signed 64 n))) None).
    { destruct Hv as (Hb & Hle & Hin & H). destruct (H eq_refl).
      rewrite Hb in Hge.
      unfold advances, set_index; cbn [buf index]. repeat split; auto; lia. }
    destruct (negb alloc); now intros [= <- <- <-].
Qed.

Section Skip.

Context `{WireTypes}.

Lemma skip_S (fuel : nat) (o : Buffer) (t : string) (tag wire : Z) :
  skip (S fuel) o t tag wire =
  if (wire =? WireVarint)%Z then
    let '(_, err, o) := Buffer_DecodeVarint o in Some (err, o)
  else if (wire =? WireFixed64)%Z then
    let '(_, err, o) := DecodeFixed64 o in Some (err, o)
  else if (wire =? WireBytes)%Z then
    let '(_, err, o) := DecodeRawBytes o false in Some (err, o)
  else if (wire =? WireFixed32)%Z then
    let '(_, err, o) := DecodeFixed32 o in Some (err, o)
  else if (wire =? WireStartGroup)%Z then skip_group fuel o t
  else
    Some (Some (errorString ("proto: can't skip unknown wire type "
                             ++ d_int wire ++ " for " ++ t)%string), o).
Proof. reflexivity. Qed.

Lemma skip_group_S (fuel : nat) (o : Buffer) (t : string) :
  skip_group (S fuel) o t =
  match Buffer_DecodeVarint o with
  | (_, Some err, o) => Some (Some err, o)
  | (u, None, o) =>
      if (Z.of_N (N.land u 0x7) =? WireEndGroup)%Z then Some (None, o)
      else
        match skip fuel o t (Z.of_N (N.shiftr u 3)) (Z.of_N (N.land u 0x7)) with
        | None => None
        | Some (Some err, o) => Some (Some err, o)
        | Some (None, o) => skip_group fuel o t
        end
  end.
Proof. reflexivity. Qed.

(** More fuel does not change a result. *)
Lemma skip_more_fuel (fuel : nat) :
  (forall o t tag wire r,
     skip fuel o t tag wire = Some r -> skip (S fuel) o t tag wire = Some r) /\
  (forall o t r,
     skip_group fuel o t = Some r -> skip_group (S fuel) o t = Some r).
Proof.
  induction fuel as [|fuel [IHs IHg]]; [split; discriminate|].
  split.
  - intros o t tag wire r. rewrite (skip_S (S fuel)), (skip_S fuel).
    destruct (wire =? WireVarint)%Z; [auto|].
    destruct (wire =? WireFixed64)%Z; [auto|].
    destruct (wire =? WireBytes)%Z; [auto|].
    destruct (wire =? WireFixed32)%Z; [auto|].
    destruct (wire =? WireStartGroup)%Z; [apply IHg | auto].
  - intros o t r. rewrite (skip_group_S (S fuel)), (skip_group_S fuel).
    destruct (Buffer_DecodeVarint o) as [[u [err|]] o1]; [auto|].
    destruct (Z.of_N (N.land u 7) =? WireEndGroup)%Z; [auto|].
    destruct (skip fuel o1 t (Z.of_N (N.shiftr u 3)) (Z.of_N (N.land u 7)))
      as [[[err|] o2]|] eqn:Hs; [| |discriminate].
    + rewrite (IHs _ _ _ _ _ Hs). auto.
    + rewrite (IHs _ _ _ _ _ Hs). apply IHg.
Qed.

Lemma skip_fuel_le (fuel fuel' : nat) (o : Buffer) (t : string) (tag wire : Z)
    (r : option error * Buffer) :
  (fuel <= fuel')%nat ->
  skip fuel o t tag wire = Some r -> skip fuel' o t tag wire = Some r.
Proof.
  induction 1 as [|fuel' _ IH]; [auto|].
  intros Hr. now apply skip_more_fuel, IH.
Qed.

Lemma advances_remaining (o o' : Buffer) :
  advances o o' None -> (remaining o' < remaining o)%nat.
Proof.
  intros (Hb & _ & _ & H0). destruct (H0 eq_refl). unfold remaining.
  rewrite Hb. lia.
Qed.

(** With enough fuel there is a result, and it is one that [advances]
    allows. *)
Lemma skip_runs (fuel : nat) :
  (forall o t tag wire,
     (2 * remaining o + 2 <= fuel)%nat ->
     exists e o', skip fuel o t tag wire = Some (e, o') /\ advances o o' e) /\
  (forall o t,
     (2 * remaining o + 1 <= fuel)%nat ->
     exists e o', skip_group fuel o t = Some (e, o') /\ advances o o' e).
Proof.
  induction fuel as [|fuel [IHs IHg]]; [split; intros; lia|].
  split.
  - intros o t tag wire Hfuel. rewrite skip_S.
    destruct (wire =? WireVarint)%Z.
    { destruct (Buffer_DecodeVarint o) as [[x e] o'] eqn:Hd.
      exists e, o'. split; [reflexivity|].
      now apply Buffer_DecodeVarint_advances in Hd. }
    destruct (wire =? WireFixed64)%Z.
    { destruct (DecodeFixed64 o) as [[x e] o'] eqn:Hd.
      exists e, o'. split; [reflexivity|].
      now apply DecodeFixed64_advances in Hd. }
    destruct (wire =? WireBytes)%Z.
    { destruct (DecodeRawBytes o false) as [[x e] o'] eqn:Hd.
      exists e, o'. split; [reflexivity|].
      now apply DecodeRawBytes_advances in Hd. }
    destruct (wire =? WireFixed32)%Z.
    { destruct (DecodeFixed32 o) as [[x e] o'] eqn:Hd.
      exists e, o'. split; [reflexivity|].
      now apply DecodeFixed32_advances in Hd. }
    destruct (wire =? WireStartGroup)%Z.
    { apply IHg. lia. }
    eexists _, o. split; [reflexivity | apply advances_error].
  - intros o t Hfuel. rewrite skip_group_S.
    destruct (Buffer_DecodeVarint o) as [[u [err|]] o1] eqn:Hd;
      apply Buffer_DecodeVarint_advances in Hd.
    { exists (Some err), o1. auto. }
    pose proof (advances_remaining _ _ Hd) as Hrem.
    destruct (Z.of_N (N.land u 7) =? WireEndGroup)%Z.
    { exists None, o1. auto. }
    destruct (IHs o1 t (Z.of_N (N.shiftr u 3)) (Z.of_N (N.land u 7)))
      as (e & o2 & -> & Hs); [lia|].
    destruct e as [err|].
    { exists (Some err), o2. split; [reflexivity|].
      now apply advances_trans with o1. }
    pose proof (advances_remaining _ _ Hs) as Hrem2.
    destruct (IHg o2 t) as (e & o3 & -> & Hg); [lia|].
    exists e, o3. split; [reflexivity|].
    apply advances_trans with o1; [exact Hd|].
    now apply advances_trans with o2.
Qed.

(** X21. [skip] returns on every buffer, on every wire type, however the
    groups are nested and whether they are closed or not: there is one
    result that every run with [2 * remaining + 2] rounds or more ends
    with. *)
Theorem skip_terminates (o : Buffer) (t : string) (tag wire : Z) :
  exists r : option error * Buffer,
    forall fuel, (2 * remaining o + 2 <= fuel)%nat ->
                 skip fuel o t tag wire = Some r.
Proof.
  destruct (proj1 (skip_runs (2 * remaining o + 2)) o t tag wire (Nat.le_refl _))
    as (e & o' & Hrun & _).
  exists (e, o'). intros fuel Hfuel. now apply skip_fuel_le with (2 * remaining o + 2)%nat.
Qed.

(** X22. [skip] leaves the bytes of the buffer as they are, never moves
    the index back, and never moves it beyond the end of the buffer; and
    when it returns no error it has moved the index forward, by one byte
    at least, and not beyond the end. *)
Theorem skip_advances (o o' : Buffer) (t : string) (tag wire : Z)
    (e : option error) :
  Buffer_skip o t tag wire = Some (e, o') ->
  buf o' = buf o /\
  (index o <= index o')%nat /\
  (index o' = index o \/ index o' <= List.length (buf o))%nat /\
  (e = None -> index o < index o' /\ index o' <= List.length (buf o))%nat.
Proof.
  unfold Buffer_skip. intros Hrun.
  destruct (proj1 (skip_runs (2 * remaining o + 2)) o t tag wire (Nat.le_refl _))
    as (e1 & o1 & Hrun1 & Hadv).
  rewrite Hrun1 in Hrun. injection Hrun as <- <-. exact Hadv.
Qed.

End Skip.

Lemma skip_advances_witness :
  Buffer_skip (H := wire_format) (mkBuffer [x08; x05; x0c] 0) "T" 1 3
  = Some (None, mkBuffer [x08; x05; x0c] 3) /\
  (0 < 3 /\ 3 <= 3)%nat.
Proof.
  split; [reflexivity|].
  destruct (skip_advances (H := wire_format) (mkBuffer [x08; x05; x0c] 0)
              (mkBuffer [x08; x05; x0c] 3) "T" 1 3 None eq_refl)
    as (_ & _ & _ & Hmoved).
  exact (Hmoved eq_refl).
Defined.

End ProtoProperties.
